(** * evm_tool: a shallow embedding of the browser front end

    The development follows the modules of the repository:
    - [Js]: the fragment of JavaScript the modules rely on (values, truthiness,
      ordinary objects with their [Object.prototype] fallback, [JSON.parse]);
    - [Storage]: the browser's [localStorage];
    - [HistoryManager], [AbiManager], [ContractInteractor]: the three classes;
    - [Server]: the request handler of the static file server;
    - [Process], [WalletConnector], [UIManager], [Main]: the methods that
      wait for the wallet, the parameter form, and the handlers of the page;
    - [Reference]: the specification's reading of ABI entries and of the
      formatted result, to compare the code with.

    Definitions come first, the lemmas about them afterwards. *)

From Stdlib Require Import ZArith String Ascii List Bool Lia.
From stdpp Require Import base list strings gmap pretty.

Set Warnings "-register-all".

Local Open Scope string_scope.
Local Open Scope list_scope.
Local Open Scope Z_scope.

(* ===================================================================== *)
(** * Part I: definitions                                                 *)
(* ===================================================================== *)

Module Js.

(** ** Outcomes of a JavaScript computation *)

(** Exceptions the modelled code can raise: the engine's [TypeError] and
    [SyntaxError], [new Error(message)] thrown by the application, and the
    browser's [DOMException] with its name ([QuotaExceededError],
    [SecurityError]). *)
Inductive exn : Type :=
| TypeError
| SyntaxError
| Error (message : string)
| DOMException (name : string).

(** A computation returns, throws, or leaves the embedding ([Beyond]): the
    last marks behaviour the model does not describe (formatting of floating
    point numbers, property reads through a replaced prototype chain). *)
Inductive outcome (A : Type) : Type :=
| Returns (a : A)
| Throws (e : exn)
| Beyond.
Arguments Returns {A} a.
Arguments Throws {A} e.
Arguments Beyond {A}.

#[global] Instance outcome_ret : MRet outcome := fun A a => Returns a.
#[global] Instance outcome_bind : MBind outcome := fun A B k m =>
  match m with
  | Returns a => k a
  | Throws e => Throws e
  | Beyond => Beyond
  end.

(** ** Values *)

(** [VNumber m e] is the number [m * 10^e] (numbers enter the program only
    through JSON literals and list lengths); [VBigNumber n] is an
    [ethers.BigNumber]; [VObject proto own] is an object with its prototype
    and its own enumerable properties in creation order; [VNative name] is a
    built-in object or function, [Object.prototype] among them. *)
Inductive value : Type :=
| VUndefined
| VNull
| VBool (b : bool)
| VNumber (m e : Z)
| VString (s : string)
| VBigNumber (n : Z)
| VArray (xs : list value)
| VObject (proto : value) (own : list (string * value))
| VNative (name : string).

Definition props : Type := list (string * value).

Definition ObjectPrototype : value := VNative "Object.prototype".

(** An object literal [{ k1: v1, ... }]. *)
Definition object (own : props) : value := VObject ObjectPrototype own.

(** [ToBoolean]. *)
Definition truthy (v : value) : bool :=
  match v with
  | VUndefined | VNull => false
  | VBool b => b
  | VNumber m _ => negb (m =? 0)
  | VString s => negb (String.eqb s "")
  | VBigNumber _ | VArray _ | VObject _ _ | VNative _ => true
  end.

(** [a || b] and [a && b] on values (both operands are pure here). *)
Definition js_or (a b : value) : value := if truthy a then a else b.
Definition js_and (a b : value) : value := if truthy a then b else a.

(** [v === "s"] against a string literal. *)
Definition strict_eq_string (v : value) (s : string) : bool :=
  match v with
  | VString t => String.eqb t s
  | _ => false
  end.

(** [v === 1]. *)
Definition strict_eq_one (v : value) : bool :=
  match v with
  | VNumber m e => (e <=? 0) && (m =? 10 ^ (- e))
  | _ => false
  end.

(** [Type(v) is Object]. *)
Definition is_object (v : value) : bool :=
  match v with
  | VBigNumber _ | VArray _ | VObject _ _ | VNative _ => true
  | _ => false
  end.

Definition is_ObjectPrototype (v : value) : bool :=
  match v with
  | VNative n => String.eqb n "Object.prototype"
  | _ => false
  end.

(** [Array.isArray(v)] and [ethers.BigNumber.isBigNumber(v)]. *)
Definition Array_isArray (v : value) : bool :=
  match v with VArray _ => true | _ => false end.
Definition isBigNumber (v : value) : bool :=
  match v with VBigNumber _ => true | _ => false end.

(** ** Own properties *)

Fixpoint own_lookup (k : string) (own : props) : option value :=
  match own with
  | [] => None
  | (k', v) :: rest => if String.eqb k k' then Some v else own_lookup k rest
  end.

(** Overwrite the value of an existing own property, keeping its place. *)
Fixpoint own_update (k : string) (v : value) (own : props) : props :=
  match own with
  | [] => []
  | (k', v') :: rest =>
      if String.eqb k k' then (k', v) :: rest
      else (k', v') :: own_update k v rest
  end.

(** [CreateDataProperty]: overwrite, or append a new own property. *)
Definition own_define (k : string) (v : value) (own : props) : props :=
  match own_lookup k own with
  | Some _ => own_update k v own
  | None => own ++ [(k, v)]
  end.

(** [delete o[k]] on the own properties. *)
Fixpoint own_delete (k : string) (own : props) : props :=
  match own with
  | [] => []
  | (k', v') :: rest =>
      if String.eqb k k' then own_delete k rest
      else (k', v') :: own_delete k rest
  end.

(** [Object.keys(o)] (the reordering of integer-like keys is not modelled:
    keys are listed in creation order). *)
Definition own_keys (own : props) : list string := map fst own.

(** ** [Object.prototype] *)

(** The data properties of [Object.prototype]; each holds a function and is
    writable.  [__proto__] is its one accessor property. *)
Definition Object_prototype_methods : list string :=
  [ "constructor"; "__defineGetter__"; "__defineSetter__"; "hasOwnProperty";
    "__lookupGetter__"; "__lookupSetter__"; "isPrototypeOf";
    "propertyIsEnumerable"; "toString"; "valueOf"; "toLocaleString" ].

Definition mem_string (k : string) (ks : list string) : bool :=
  existsb (String.eqb k) ks.

(** A property read that reaches [Object.prototype], for a receiver whose
    prototype is [receiver_proto]: the [__proto__] getter answers with the
    receiver's prototype. *)
Definition Object_prototype_get (receiver_proto : value) (k : string) : value :=
  if String.eqb k "__proto__" then receiver_proto
  else if mem_string k Object_prototype_methods
       then VNative ("Object.prototype." +:+ k)
       else VUndefined.

(** Property names the code reads that no built-in prototype defines: a read
    of one of them from a primitive, an array or a BigNumber is [undefined]. *)
Definition field_names : list string :=
  [ "type"; "name"; "stateMutability"; "inputs"; "outputs"; "constant";
    "payable"; "value"; "transactionHash"; "blockNumber"; "status"; "events" ].

(** [o[k]] for a string key. *)
Definition js_get (o : value) (k : string) : outcome value :=
  match o with
  | VUndefined | VNull => Throws TypeError
  | VObject proto own =>
      match own_lookup k own with
      | Some v => Returns v
      | None =>
          if is_ObjectPrototype proto then Returns (Object_prototype_get proto k)
          else match proto with
               | VNull => Returns VUndefined
               | _ => Beyond
               end
      end
  | VBool _ | VNumber _ _ | VString _ | VBigNumber _ | VArray _ =>
      if mem_string k field_names then Returns VUndefined else Beyond
  | VNative _ => Beyond
  end.

(** [o[k] = v] in strict code.  Without an own property [k] the assignment
    walks the prototype chain: the data properties of [Object.prototype] are
    writable, so an own property is created; [__proto__] is an accessor whose
    setter replaces the prototype when [v] is an object or [null] and does
    nothing for any other value. *)
Definition js_assign (o : value) (k : string) (v : value) : outcome value :=
  match o with
  | VUndefined | VNull => Throws TypeError
  | VObject proto own =>
      match own_lookup k own with
      | Some _ => Returns (VObject proto (own_update k v own))
      | None =>
          if is_ObjectPrototype proto then
            if String.eqb k "__proto__" then
              if is_object v then Returns (VObject v own)
              else match v with
                   | VNull => Returns (VObject VNull own)
                   | _ => Returns o
                   end
            else Returns (VObject proto (own ++ [(k, v)]))
          else match proto with
               | VNull => Returns (VObject proto (own ++ [(k, v)]))
               | _ => Beyond
               end
      end
  | _ => Beyond
  end.

(** [delete o[k]]: removes an own property, and succeeds without effect when
    there is none (inherited properties are not touched). *)
Definition js_delete (o : value) (k : string) : outcome value :=
  match o with
  | VUndefined | VNull => Throws TypeError
  | VObject proto own => Returns (VObject proto (own_delete k own))
  | _ => Beyond
  end.

(** [Object.keys(o)]. *)
Definition Object_keys (o : value) : outcome (list string) :=
  match o with
  | VUndefined | VNull => Throws TypeError
  | VObject _ own => Returns (own_keys own)
  | _ => Beyond
  end.

(** [Number.prototype.toString] is only modelled for the lengths and indexes
    the code prints ([`output_${index}`]). *)
Definition index_toString (i : nat) : string := pretty i.

(** [BigNumber.prototype.toString]: the decimal digits. *)
Definition BigNumber_toString (n : Z) : string := pretty n.

(** [s.includes(p)] on byte strings. *)
Fixpoint String_includes (p s : string) : bool :=
  String.prefix p s ||
  match s with
  | EmptyString => false
  | String _ r => String_includes p r
  end.

(** [v.toString()], which is also how a value becomes a property key.
    Numbers are printed when they are integers of magnitude at most 2^53;
    an object prints as the default tag unless it brings a [toString] of its
    own. *)
Fixpoint js_toString (v : value) : outcome string :=
  match v with
  | VUndefined | VNull => Throws TypeError
  | VBool b => Returns (if b then "true" else "false")
  | VNumber m e =>
      if (0 <=? e) && (Z.abs (m * 10 ^ e) <=? 2 ^ 53)
      then Returns (pretty (m * 10 ^ e))
      else Beyond
  | VString s => Returns s
  | VBigNumber n => Returns (BigNumber_toString n)
  | VArray xs =>
      (fix join (l : list value) : outcome string :=
         match l with
         | [] => Returns EmptyString
         | x :: rest =>
             let element :=
               match x with
               | VUndefined | VNull => Returns EmptyString
               | _ => js_toString x
               end in
             match rest with
             | [] => element
             | _ :: _ => a ← element; b ← join rest; mret (a +:+ "," +:+ b)
             end
         end) xs
  | VObject proto own =>
      match own_lookup "toString" own with
      | None => if is_ObjectPrototype proto then Returns "[object Object]" else Beyond
      | Some _ => Beyond
      end
  | VNative _ => Beyond
  end.

(** [Array.prototype.filter], [find] and [map]: the callback runs on the
    elements in index order, and the first exception ends the loop. *)
Fixpoint Array_filter (f : value -> outcome bool) (xs : list value)
  : outcome (list value) :=
  match xs with
  | [] => Returns []
  | x :: rest =>
      selected ← f x;
      kept ← Array_filter f rest;
      mret (if selected : bool then x :: kept else kept)
  end.

Fixpoint Array_find (f : value -> outcome bool) (xs : list value)
  : outcome value :=
  match xs with
  | [] => Returns VUndefined
  | x :: rest =>
      found ← f x;
      if found : bool then Returns x else Array_find f rest
  end.

Fixpoint Array_map_from {A : Type} (f : value -> nat -> outcome A)
    (index : nat) (xs : list value) : outcome (list A) :=
  match xs with
  | [] => Returns []
  | x :: rest =>
      y ← f x index;
      ys ← Array_map_from f (S index) rest;
      mret (y :: ys)
  end.

Definition Array_map {A : Type} (f : value -> nat -> outcome A)
    (xs : list value) : outcome (list A) :=
  Array_map_from f 0%nat xs.

(** A name is inherited when a read of it from an ordinary object without
    that own property answers with something other than [undefined]. *)
Definition inherited (k : string) : bool :=
  String.eqb k "__proto__" || mem_string k Object_prototype_methods.

(** [s.toLowerCase()] where every byte of [s] is ASCII: the letters A to Z
    become a to z.  The case mapping of other characters is not modelled. *)
Definition is_ascii_string (s : string) : bool :=
  forallb (fun c => (nat_of_ascii c <? 128)%nat) (list_ascii_of_string s).

Definition lower_ascii (c : ascii) : ascii :=
  let n := nat_of_ascii c in
  if ((65 <=? n) && (n <=? 90))%nat then ascii_of_nat (n + 32) else c.

Fixpoint lower_string (s : string) : string :=
  match s with
  | EmptyString => EmptyString
  | String c r => String (lower_ascii c) (lower_string r)
  end.

Definition String_toLowerCase (s : string) : outcome string :=
  if is_ascii_string s then Returns (lower_string s) else Beyond.

(** ** [JSON.parse] *)

(** The text is read byte by byte (UTF-8).  Inside a string literal a byte is
    kept as it is and a [\uXXXX] escape is a UTF-16 code unit, written back as
    UTF-8 (a surrogate pair as one code point). *)
Inductive jchar : Type :=
| JByte (c : ascii)
| JUnit (u : N).

Definition is_dquote (c : ascii) : bool := (nat_of_ascii c =? 34)%nat.
Definition is_backslash (c : ascii) : bool := (nat_of_ascii c =? 92)%nat.

Definition is_ws (c : ascii) : bool :=
  let n := nat_of_ascii c in
  ((n =? 32) || (n =? 9) || (n =? 10) || (n =? 13))%nat.

Fixpoint skip_ws (s : string) : string :=
  match s with
  | String c r => if is_ws c then skip_ws r else s
  | EmptyString => s
  end.

Fixpoint strip_prefix (p s : string) : option string :=
  match p, s with
  | EmptyString, _ => Some s
  | String a p', String b s' => if Ascii.eqb a b then strip_prefix p' s' else None
  | String _ _, EmptyString => None
  end.

Definition digit_of (c : ascii) : option Z :=
  let n := nat_of_ascii c in
  if ((48 <=? n) && (n <=? 57))%nat then Some (Z.of_nat n - 48) else None.

Definition hex_of (c : ascii) : option N :=
  let n := N.of_nat (nat_of_ascii c) in
  if ((48 <=? n) && (n <=? 57))%N then Some (n - 48)%N
  else if ((65 <=? n) && (n <=? 70))%N then Some (n - 55)%N
  else if ((97 <=? n) && (n <=? 102))%N then Some (n - 87)%N
  else None.

Definition hex4 (a b c d : ascii) : option N :=
  match hex_of a, hex_of b, hex_of c, hex_of d with
  | Some x, Some y, Some z, Some w => Some (((x * 16 + y) * 16 + z) * 16 + w)%N
  | _, _, _, _ => None
  end.

(** The character a two-character escape stands for. *)
Definition simple_escape (c : ascii) : option ascii :=
  let n := nat_of_ascii c in
  if (n =? 34)%nat then Some c
  else if (n =? 92)%nat then Some c
  else if (n =? 47)%nat then Some c
  else if (n =? 98)%nat then Some (ascii_of_nat 8)
  else if (n =? 102)%nat then Some (ascii_of_nat 12)
  else if (n =? 110)%nat then Some (ascii_of_nat 10)
  else if (n =? 114)%nat then Some (ascii_of_nat 13)
  else if (n =? 116)%nat then Some (ascii_of_nat 9)
  else None.

Definition cons_jchar (c : jchar) (r : option (list jchar * string))
  : option (list jchar * string) :=
  match r with
  | Some (cs, rest) => Some (c :: cs, rest)
  | None => None
  end.

(** The characters of a string literal whose opening quote has been read,
    and the text after its closing quote. *)
Fixpoint read_string (s : string) : option (list jchar * string) :=
  match s with
  | EmptyString => None
  | String c r =>
      if is_dquote c then Some ([], r)
      else if is_backslash c then
        match r with
        | EmptyString => None
        | String e r1 =>
            match simple_escape e with
            | Some c' => cons_jchar (JByte c') (read_string r1)
            | None =>
                if (nat_of_ascii e =? 117)%nat then
                  match r1 with
                  | String h1 (String h2 (String h3 (String h4 r2))) =>
                      match hex4 h1 h2 h3 h4 with
                      | Some u => cons_jchar (JUnit u) (read_string r2)
                      | None => None
                      end
                  | _ => None
                  end
                else None
            end
        end
      else if (nat_of_ascii c <? 32)%nat then None
      else cons_jchar (JByte c) (read_string r)
  end.

Definition byte_of (n : N) : ascii := ascii_of_N n.

Definition utf8 (cp : N) : string :=
  (if cp <? 128 then String (byte_of cp) EmptyString
   else if cp <? 2048 then
     String (byte_of (192 + cp / 64))
       (String (byte_of (128 + cp mod 64)) EmptyString)
   else if cp <? 65536 then
     String (byte_of (224 + cp / 4096))
       (String (byte_of (128 + (cp / 64) mod 64))
          (String (byte_of (128 + cp mod 64)) EmptyString))
   else
     String (byte_of (240 + cp / 262144))
       (String (byte_of (128 + (cp / 4096) mod 64))
          (String (byte_of (128 + (cp / 64) mod 64))
             (String (byte_of (128 + cp mod 64)) EmptyString))))%N.

Definition is_high_surrogate (u : N) : bool := ((55296 <=? u) && (u <=? 56319))%N.
Definition is_low_surrogate (u : N) : bool := ((56320 <=? u) && (u <=? 57343))%N.

Fixpoint encode (cs : list jchar) : string :=
  match cs with
  | [] => EmptyString
  | JByte c :: rest => String c (encode rest)
  | JUnit hi :: rest =>
      match rest with
      | JUnit lo :: rest' =>
          if is_high_surrogate hi && is_low_surrogate lo
          then utf8 (65536 + (hi - 55296) * 1024 + (lo - 56320))%N
                 +:+ encode rest'
          else utf8 hi +:+ encode rest
      | _ => utf8 hi +:+ encode rest
      end
  end.

(** The leading decimal digits of [s]: their value on top of [acc], how many
    there are, and the text after them. *)
Fixpoint read_digits (s : string) (acc : Z) (count : nat) : Z * nat * string :=
  match s with
  | String c r =>
      match digit_of c with
      | Some d => read_digits r (acc * 10 + d) (S count)
      | None => (acc, count, s)
      end
  | EmptyString => (acc, count, s)
  end.

(** [-? int frac? exp?]; the result is [mantissa * 10^exponent]. *)
Definition read_number (s : string) : option (value * string) :=
  let '(negative, s1) :=
    match s with
    | String c r => if (nat_of_ascii c =? 45)%nat then (true, r) else (false, s)
    | EmptyString => (false, s)
    end in
  let int_part :=
    match s1 with
    | String c r =>
        if (nat_of_ascii c =? 48)%nat then Some (0, r)
        else match digit_of c with
             | Some _ => let '(n, _, r') := read_digits s1 0 0%nat in Some (n, r')
             | None => None
             end
    | EmptyString => None
    end in
  match int_part with
  | None => None
  | Some (n, s2) =>
      let frac_part :=
        match s2 with
        | String c r =>
            if (nat_of_ascii c =? 46)%nat then
              let '(m, k, r') := read_digits r n 0%nat in
              if (k =? 0)%nat then None else Some (m, Z.of_nat k, r')
            else Some (n, 0, s2)
        | EmptyString => Some (n, 0, s2)
        end in
      match frac_part with
      | None => None
      | Some (m, k, s3) =>
          let exp_part :=
            match s3 with
            | String c r =>
                if ((nat_of_ascii c =? 101) || (nat_of_ascii c =? 69))%nat then
                  let '(minus, r1) :=
                    match r with
                    | String sg r' =>
                        if (nat_of_ascii sg =? 45)%nat then (true, r')
                        else if (nat_of_ascii sg =? 43)%nat then (false, r')
                        else (false, r)
                    | EmptyString => (false, r)
                    end in
                  let '(x, j, r2) := read_digits r1 0 0%nat in
                  if (j =? 0)%nat then None
                  else Some (if minus then - x else x, r2)
                else Some (0, s3)
            | EmptyString => Some (0, s3)
            end in
          match exp_part with
          | None => None
          | Some (x, s4) =>
              Some (VNumber (if negative then - m else m) (x - k), s4)
          end
      end
  end.

(** One JSON value at the head of the text (after white space), and the text
    that follows it.  [fuel] bounds the nesting depth and the number of
    elements of one array or object; the length of the text is enough. *)
Fixpoint read_value (fuel : nat) (s : string) : option (value * string) :=
  match fuel with
  | O => None
  | S fuel' =>
      match skip_ws s with
      | EmptyString => None
      | String c r as s0 =>
          let n := nat_of_ascii c in
          if (n =? 91)%nat then
            (* an array *)
            match skip_ws r with
            | String c1 r1 as s1 =>
                if (nat_of_ascii c1 =? 93)%nat then Some (VArray [], r1)
                else
                  (fix elements (k : nat) (acc : list value) (t : string)
                     : option (value * string) :=
                     match k with
                     | O => None
                     | S k' =>
                         match read_value fuel' t with
                         | Some (v, t1) =>
                             match skip_ws t1 with
                             | String d t2 =>
                                 if (nat_of_ascii d =? 44)%nat
                                 then elements k' (acc ++ [v]) t2
                                 else if (nat_of_ascii d =? 93)%nat
                                 then Some (VArray (acc ++ [v]), t2)
                                 else None
                             | EmptyString => None
                             end
                         | None => None
                         end
                     end) fuel' [] s1
            | EmptyString => None
            end
          else if (n =? 123)%nat then
            (* an object *)
            match skip_ws r with
            | String c1 r1 as s1 =>
                if (nat_of_ascii c1 =? 125)%nat then Some (object [], r1)
                else
                  (fix members (k : nat) (acc : props) (t : string)
                     : option (value * string) :=
                     match k with
                     | O => None
                     | S k' =>
                         match skip_ws t with
                         | String q t0 =>
                             if is_dquote q then
                               match read_string t0 with
                               | Some (key, t1) =>
                                   match skip_ws t1 with
                                   | String colon t2 =>
                                       if (nat_of_ascii colon =? 58)%nat then
                                         match read_value fuel' t2 with
                                         | Some (v, t3) =>
                                             let acc' := own_define (encode key) v acc in
                                             match skip_ws t3 with
                                             | String d t4 =>
                                                 if (nat_of_ascii d =? 44)%nat
                                                 then members k' acc' t4
                                                 else if (nat_of_ascii d =? 125)%nat
                                                 then Some (object acc', t4)
                                                 else None
                                             | EmptyString => None
                                             end
                                         | None => None
                                         end
                                       else None
                                   | EmptyString => None
                                   end
                               | None => None
                               end
                             else None
                         | EmptyString => None
                         end
                     end) fuel' [] s1
            | EmptyString => None
            end
          else if is_dquote c then
            match read_string r with
            | Some (cs, r1) => Some (VString (encode cs), r1)
            | None => None
            end
          else if (n =? 116)%nat then
            match strip_prefix "true" s0 with
            | Some r1 => Some (VBool true, r1)
            | None => None
            end
          else if (n =? 102)%nat then
            match strip_prefix "false" s0 with
            | Some r1 => Some (VBool false, r1)
            | None => None
            end
          else if (n =? 110)%nat then
            match strip_prefix "null" s0 with
            | Some r1 => Some (VNull, r1)
            | None => None
            end
          else read_number s0
      end
  end.

(** [JSON.parse(text)]: [None] stands for the [SyntaxError]. *)
Definition JSON_parse (text : string) : option value :=
  match read_value (S (String.length text)) text with
  | Some (v, rest) =>
      match skip_ws rest with
      | EmptyString => Some v
      | String _ _ => None
      end
  | None => None
  end.

(** The quote character, and a text with every apostrophe replaced by it
    (to write JSON samples). *)
Definition dquote : ascii := ascii_of_nat 34.
Fixpoint json_text (s : string) : string :=
  match s with
  | EmptyString => EmptyString
  | String c r =>
      String (if (nat_of_ascii c =? 39)%nat then dquote else c) (json_text r)
  end.

(** [s.trim()] where every byte of [s] is ASCII: the white space and line
    terminators below 128 are the tab, the line feed, the vertical tab, the
    form feed, the carriage return and the space. *)
Definition is_space (c : ascii) : bool :=
  let n := nat_of_ascii c in
  ((n =? 32) || ((9 <=? n) && (n <=? 13)))%nat.

Fixpoint trim_start (s : string) : string :=
  match s with
  | EmptyString => EmptyString
  | String c r => if is_space c then trim_start r else s
  end.

Fixpoint trim_end (s : string) : string :=
  match s with
  | EmptyString => EmptyString
  | String c r =>
      match trim_end r with
      | EmptyString => if is_space c then EmptyString else String c EmptyString
      | String c' r' => String c (String c' r')
      end
  end.

Definition String_trim (s : string) : outcome string :=
  if is_ascii_string s then Returns (trim_end (trim_start s)) else Beyond.

(** [s.split(',')]: the pieces between the commas, of which there is always
    at least one. *)
Fixpoint String_split_comma (s : string) : list string :=
  match s with
  | EmptyString => [EmptyString]
  | String c r =>
      match String_split_comma r with
      | piece :: pieces =>
          if (nat_of_ascii c =? 44)%nat then EmptyString :: piece :: pieces
          else String c piece :: pieces
      | [] => []
      end
  end.

(** [String(v)], as a template literal and a [dataset] entry convert their
    values. *)
Definition String_of (v : value) : outcome string :=
  match v with
  | VUndefined => Returns "undefined"
  | VNull => Returns "null"
  | _ => js_toString v
  end.

End Js.

Import Js.

(* --------------------------------------------------------------------- *)
(** ** localStorage *)

Module Storage.

(** The store maps a key to the document last written under it; the text
    [JSON.stringify(v)] is represented by the value [v] it serialises.  A
    write can fail: the browser refuses it (a [DOMException] named
    [QuotaExceededError] when the quota is exceeded, [SecurityError] when
    access is denied), or the document has no serialisation and
    [JSON.stringify] throws.  [refusal] tells, from what the store holds, the
    key and the document, whether the write fails, and with which
    exception. *)
Record localStorage : Type := mk_store {
  items : gmap string value;
  refusal : gmap string value -> string -> value -> option exn
}.

#[global] Instance localStorage_lookup : Lookup string value localStorage :=
  fun key s => items s !! key.

(** The store after a write that went through. *)
#[global] Instance localStorage_insert : Insert string value localStorage :=
  fun key document s => mk_store (<[key := document]> (items s)) (refusal s).

(** The empty store of a browser that accepts every write. *)
#[global] Instance localStorage_empty : Empty localStorage :=
  mk_store ∅ (fun _ _ _ => None).

(** A store that accepts every write, and a store that refuses every write
    (as when the page may not use the storage). *)
Definition reliable (s : localStorage) : Prop :=
  forall held key document, refusal s held key document = None.


Definition accepts (key : string) (document : value) (s : localStorage) : bool :=
  match refusal s (items s) key document with
  | None => true
  | Some _ => false
  end.

(** [localStorage.setItem(key, JSON.stringify(document))]. *)
Definition setItem (key : string) (document : value) (s : localStorage)
  : outcome localStorage :=
  match refusal s (items s) key document with
  | Some e => Throws e
  | None => Returns (<[key := document]> s)
  end.

Definition getItem (key : string) (s : localStorage) : option value := s !! key.

End Storage.

(* --------------------------------------------------------------------- *)
(** ** HistoryManager *)

Module HistoryManager.

Definition maxHistoryItems : nat := 50.
Definition storageKey : string := "tx_history".

(** The instance: the [history] array, and the store it persists to. *)
Record state : Type := mk {
  history : list value;
  storage : Storage.localStorage
}.

(** [_saveHistory]: a failing write is caught and logged, so the method
    itself never throws; the store then stays as it was. *)
Definition _saveHistory (st : state) : state :=
  match Storage.setItem storageKey (VArray (history st)) (storage st) with
  | Returns written => mk (history st) written
  | _ => st
  end.

(** [addToHistory(historyItem)]: [unshift], then [slice(0, max)] when the
    array has grown beyond the cap. *)
Definition addToHistory (historyItem : value) (st : state) : bool * state :=
  let unshifted := historyItem :: history st in
  let capped :=
    if (maxHistoryItems <? length unshifted)%nat
    then take maxHistoryItems unshifted
    else unshifted in
  (true, _saveHistory (mk capped (storage st))).

Definition clearHistory (st : state) : bool * state :=
  (true, _saveHistory (mk [] (storage st))).

(** [deleteHistoryItem(index)] for an integer [index]; [splice(index, 1)]
    removes the element at that position. *)
Definition deleteHistoryItem (index : Z) (st : state) : bool * state :=
  if (0 <=? index) && (index <? Z.of_nat (length (history st)))
  then (true, _saveHistory (mk (delete (Z.to_nat index) (history st))
                               (storage st)))
  else (false, st).

Definition getHistory (st : state) : list value := history st.

(** [getRecentHistory(count)]: [slice(0, count)], where a negative [count]
    counts from the end of the array. *)
Definition getRecentHistory (count : Z) (st : state) : list value :=
  if count <? 0
  then take (length (history st) - Z.to_nat (- count))%nat (history st)
  else take (Z.to_nat count) (history st).

(** Successive [addToHistory] calls, first element of [items] first. *)
Definition addAll (items : list value) (st : state) : state :=
  fold_left (fun s item => snd (addToHistory item s)) items st.

(** [getHistoryByAddress(address)]: the entries whose [address] is truthy
    and equals the given one up to case. *)
Definition getHistoryByAddress (address : string) (st : state)
  : outcome (list value) :=
  Array_filter
    (fun item =>
       recorded ← js_get item "address";
       if truthy recorded then
         match recorded with
         | VString a =>
             lowered ← String_toLowerCase a;
             wanted ← String_toLowerCase address;
             mret (String.eqb lowered wanted)
         | VNative _ => Beyond
         | _ => Throws TypeError
         end
       else mret false)
    (history st).

(** [getHistoryByFunction(functionName)]. *)
Definition getHistoryByFunction (functionName : string) (st : state)
  : outcome (list value) :=
  Array_filter
    (fun item =>
       recorded ← js_get item "function";
       mret (strict_eq_string recorded functionName))
    (history st).

(** The calls that change the history, and a run of them. *)
Inductive call : Type :=
| AddToHistory (historyItem : value)
| ClearHistory
| DeleteHistoryItem (index : Z).

Definition perform (c : call) (st : state) : state :=
  match c with
  | AddToHistory historyItem => snd (addToHistory historyItem st)
  | ClearHistory => snd (clearHistory st)
  | DeleteHistoryItem index => snd (deleteHistoryItem index st)
  end.



End HistoryManager.

(* --------------------------------------------------------------------- *)
(** ** AbiManager *)

Module AbiManager.

Definition storageKey : string := "saved_abis".

(** The instance: the [savedAbis] object, and the store it persists to. *)
Record state : Type := mk {
  savedAbis : value;
  storage : Storage.localStorage
}.

(** [constructor()]: [this.savedAbis = {}]. *)
Definition constructor (storage : Storage.localStorage) : state :=
  mk (object []) storage.

Definition invalid_format : exn :=
  Error "ABI格式无效，请检查JSON格式是否正确".

(** [saveAbi(name, content)]: whatever is thrown inside the [try], by
    [JSON.parse], by the assignment or by the write to the store, is
    rethrown as the invalid-format error; when it is the write that fails,
    [savedAbis] has been changed already. *)
Definition saveAbi (name content : string) (st : state) : outcome bool * state :=
  match JSON_parse content with
  | None => (Throws invalid_format, st)
  | Some parsedAbi =>
      match js_assign (savedAbis st) name (VString content) with
      | Returns o =>
          match Storage.setItem storageKey o (storage st) with
          | Returns written => (Returns true, mk o written)
          | Throws _ => (Throws invalid_format, mk o (storage st))
          | Beyond => (Beyond, mk o (storage st))
          end
      | Throws _ => (Throws invalid_format, st)
      | Beyond => (Beyond, st)
      end
  end.

(** [deleteAbi(name)]: there is no [try] here, so a failing write to the
    store leaves the method as an exception, after the entry has been
    deleted from [savedAbis]. *)
Definition deleteAbi (name : string) (st : state) : outcome bool * state :=
  match js_get (savedAbis st) name with
  | Returns v =>
      if truthy v then
        match js_delete (savedAbis st) name with
        | Returns o =>
            match Storage.setItem storageKey o (storage st) with
            | Returns written => (Returns true, mk o written)
            | Throws e => (Throws e, mk o (storage st))
            | Beyond => (Beyond, mk o (storage st))
            end
        | Throws e => (Throws e, st)
        | Beyond => (Beyond, st)
        end
      else (Returns false, st)
  | Throws e => (Throws e, st)
  | Beyond => (Beyond, st)
  end.

(** What [deleteAbi] does once its guard is passed: the entry is deleted,
    and the answer depends on the write to the store. *)
Definition deleted (o : value) (s : Storage.localStorage)
  : outcome bool * state :=
  match Storage.setItem storageKey o s with
  | Returns written => (Returns true, mk o written)
  | Throws e => (Throws e, mk o s)
  | Beyond => (Beyond, mk o s)
  end.

(** [getAbiByName(name)]: [this.savedAbis[name] || null]. *)
Definition getAbiByName (name : string) (st : state) : outcome value :=
  v ← js_get (savedAbis st) name; mret (js_or v VNull).

(** [getSavedAbisList()]. *)
Definition getSavedAbisList (st : state) : outcome (list string) :=
  Object_keys (savedAbis st).

(** [validateAbi(abiString)]. *)
Definition validateAbi (abiString : string) : bool :=
  match JSON_parse abiString with
  | Some parsedAbi => Array_isArray parsedAbi
  | None => false
  end.

(** The states the public methods lead to. *)
Inductive reachable : state -> Prop :=
| reachable_constructor storage : reachable (constructor storage)
| reachable_saveAbi name content st :
    reachable st -> reachable (snd (saveAbi name content st))
| reachable_deleteAbi name st :
    reachable st -> reachable (snd (deleteAbi name st)).

(** [savedAbis] is an ordinary object whose entries are JSON texts. *)
Definition well_formed (st : state) : Prop :=
  exists own,
    savedAbis st = object own /\
    Forall (fun entry => exists text,
              snd entry = VString text /\ is_Some (JSON_parse text)) own.

(** A document that is an object of strings, which is what [saveAbi] and
    [deleteAbi] write. *)
Definition plain_document (document : value) : bool :=
  match document with
  | VObject proto own =>
      is_ObjectPrototype proto &&
      forallb (fun entry : string * value =>
                 match snd entry with VString _ => true | _ => false end) own
  | _ => false
  end.

(** [loadSavedAbis()].  The stored text stands for the document it
    serialises, and for an object of strings [JSON.parse] gives that object
    back; a store holding any other document is outside the model.  Without
    a stored text the manager keeps what it has. *)
Definition loadSavedAbis (st : state) : outcome value * state :=
  match Storage.getItem storageKey (storage st) with
  | None => (Returns (savedAbis st), st)
  | Some document =>
      if plain_document document
      then (Returns document, mk document (storage st))
      else (Beyond, st)
  end.

End AbiManager.

(* --------------------------------------------------------------------- *)
(** ** ContractInteractor *)

Module ContractInteractor.

(** An [ethers.Contract] handle: the address and ABI it was built from, and
    whether it answers through the provider only or through a signer. *)
Inductive binding : Type :=
| ReadOnly (address abi : value)
| SignerBacked (address abi : value).

(** What the class takes from outside: the connector's [getProvider()] and
    [getSigner()], [ethers.utils.isAddress], whether
    [new ethers.Contract(address, abi, provider)] builds or throws, and
    whether [contract.connect(signer)] does. *)
Record environment : Type := {
  provider : value;
  signer : value;
  isAddress : value -> bool;
  Contract_builds : value -> value -> bool;
  connects : bool
}.

Record state : Type := mk {
  contractAddress : value;
  abi : value;
  contract : option binding;
  contractWithSigner : option binding
}.

Definition constructor : state := mk VNull VNull None None.

(** [_initializeContract()]: every exception is caught inside. *)
Definition _initializeContract (env : environment) (st : state) : bool * state :=
  if negb (truthy (contractAddress st)) || negb (truthy (abi st)) then (false, st)
  else if negb (truthy (provider env)) then (false, st)
  else if Contract_builds env (contractAddress st) (abi st) then
    let built := mk (contractAddress st) (abi st)
                    (Some (ReadOnly (contractAddress st) (abi st)))
                    (contractWithSigner st) in
    if truthy (signer env) then
      if connects env
      then (true, mk (contractAddress st) (abi st) (contract built)
                     (Some (SignerBacked (contractAddress st) (abi st))))
      else (false, built)
    else (true, built)
  else (false, st).

Definition setContractAddress (env : environment) (address : value) (st : state)
  : outcome bool * state :=
  if negb (isAddress env address)
  then (Throws (Error "无效的合约地址"), st)
  else (Returns true,
        snd (_initializeContract env
               (mk address (abi st) (contract st) (contractWithSigner st)))).

(** [setAbi(abi)]: a string is parsed first; a parse error leaves the state
    as it was. *)
Definition setAbi (env : environment) (new_abi : value) (st : state)
  : outcome bool * state :=
  let store a :=
    (Returns true,
     snd (_initializeContract env
            (mk (contractAddress st) a (contract st) (contractWithSigner st)))) in
  match new_abi with
  | VString text =>
      match JSON_parse text with
      | Some parsed => store parsed
      | None => (Throws (Error "无效的ABI格式"), st)
      end
  | _ => store new_abi
  end.

Definition isContractReady (st : state) : bool :=
  truthy (contractAddress st) && truthy (abi st)
  && (bool_decide (is_Some (contract st))
      || bool_decide (is_Some (contractWithSigner st))).

Definition getContractAddress (st : state) : value := contractAddress st.

(** The callback of [filter]: [item.type === 'function']. *)
Definition is_function_entry (item : value) : outcome bool :=
  t ← js_get item "type"; mret (strict_eq_string t "function").

(** The callback of [map]: the descriptor built from a function entry. *)
Definition descriptor (func : value) : outcome value :=
  name ← js_get func "name";
  mutability ← js_get func "stateMutability";
  inputs ← js_get func "inputs";
  outputs ← js_get func "outputs";
  constant ← js_get func "constant";
  payable ← js_get func "payable";
  payable_flag ←
    (if truthy payable then mret payable
     else m ← js_get func "stateMutability";
          mret (VBool (strict_eq_string m "payable")));
  mret (object [ ("name", name); ("type", mutability); ("inputs", inputs);
                 ("outputs", outputs); ("constant", constant);
                 ("payable", payable_flag) ]).

(** [getAvailableFunctions()]. *)
Definition getAvailableFunctions (st : state) : outcome value :=
  if negb (truthy (abi st)) then Returns (VArray [])
  else match abi st with
       | VArray items =>
           functions ← Array_filter is_function_entry items;
           descriptors ← Array_map (fun func _ => descriptor func) functions;
           mret (VArray descriptors)
       | VNative _ => Beyond
       | _ => Throws TypeError
       end.

(** [getFunctionDetails(functionName)]. *)
Definition getFunctionDetails (functionName : string) (st : state)
  : outcome value :=
  if negb (truthy (abi st)) then Returns VNull
  else match abi st with
       | VArray items =>
           funcDef ← Array_find
             (fun item =>
                t ← js_get item "type";
                if strict_eq_string t "function"
                then n ← js_get item "name"; mret (strict_eq_string n functionName)
                else mret false)
             items;
           mret (js_or funcDef VNull)
       | VNative _ => Beyond
       | _ => Throws TypeError
       end.

(** The type-driven conversion of one parameter value. *)
Definition convert (type value : value) : outcome Js.value :=
  match type with
  | VString t =>
      if String_includes "[]" t && Array_isArray value then Returns value
      else if String.prefix "uint" t || String.prefix "int" t
      then s ← js_toString value; mret (VString s)
      else if String.eqb t "address" then Returns value
      else if String.eqb t "bool" then Returns (VBool (truthy value))
      else if String.prefix "bytes" t then Returns value
      else if String.eqb t "string" then Returns value
      else Returns value
  | VArray ts =>
      if existsb (fun x => strict_eq_string x "[]") ts && Array_isArray value
      then Returns value
      else Throws TypeError
  | VNative _ => Beyond
  | _ => Throws TypeError
  end.

(** [_processParams(inputDefinitions, params)], for an array [params]. *)
Definition _processParams (inputDefinitions : value) (params : list value)
  : outcome (list value) :=
  if negb (truthy inputDefinitions) then Returns []
  else match inputDefinitions with
       | VArray inputs =>
           Array_map
             (fun input index =>
                match nth index params VUndefined with
                | VUndefined => Returns VUndefined
                | value => type ← js_get input "type"; convert type value
                end)
             inputs
       | VNative _ => Beyond
       | _ => Throws TypeError
       end.

(** The body of the [forEach] in [_formatResult]: one output written into
    the object under construction. *)
Definition format_output (result : list value) (formattedResult : value)
    (output : value) (index : nat) : outcome value :=
  let value := nth index result VUndefined in
  declared ← js_get output "name";
  name ← js_toString (js_or declared (VString ("output_" +:+ index_toString index)));
  js_assign formattedResult name
    (match value with
     | VBigNumber n => VString (BigNumber_toString n)
     | _ => value
     end).

Fixpoint format_outputs (result : list value) (formattedResult : value)
    (outputs : list value) (index : nat) : outcome value :=
  match outputs with
  | [] => Returns formattedResult
  | output :: rest =>
      o ← format_output result formattedResult output index;
      format_outputs result o rest (S index)
  end.

(** [_formatResult(result, outputDefinitions)]. *)
Definition _formatResult (result outputDefinitions : value) : outcome value :=
  match result with
  | VBigNumber n => Returns (VString (BigNumber_toString n))
  | VArray elements =>
      if negb (truthy outputDefinitions) then Returns result
      else match outputDefinitions with
           | VArray outputs =>
               if (1 <? length outputs)%nat
               then format_outputs elements (object []) outputs 0%nat
               else Returns result
           | VBool _ | VNumber _ _ | VBigNumber _ => Returns result
           | VObject proto own =>
               match own_lookup "length" own with
               | None => if is_ObjectPrototype proto then Returns result else Beyond
               | Some _ => Beyond
               end
           | _ => Beyond
           end
  | _ => Returns result
  end.

(** Calls that leave the program: a method of a contract handle, the unit
    conversion of ethers, and the wait for a transaction to be mined. *)
Inductive event : Type :=
| Call (via : binding) (method : string) (args : list value)
| ParseEther (amount : string)
| Wait (tx : value).

(** An asynchronous computation: finished, or suspended on an event until the
    outside answers with a value or an exception. *)
Inductive io (A : Type) : Type :=
| Done (r : outcome A)
| Vis (e : event) (k : outcome value -> io A).
Arguments Done {A} r.
Arguments Vis {A} e k.

Definition after {A B : Type} (m : outcome A) (k : A -> io B) : io B :=
  match m with
  | Returns a => k a
  | Throws e => Done (Throws e)
  | Beyond => Done Beyond
  end.

Definition await {A : Type} (e : event) (k : value -> io A) : io A :=
  Vis e (fun reply => after reply k).

Definition not_ready : exn := Error "合约未准备好，请先设置合约地址和ABI".
Definition no_such_function (functionName : string) : exn :=
  Error ("合约中不存在函数: " +:+ functionName).
Definition signer_required : exn := Error "需要签名者执行此操作，请先连接钱包".

(** [isReadOnly] and [isPayable], with the short circuit of [||]. *)
Definition isReadOnly (funcDetails : value) : outcome value :=
  m ← js_get funcDetails "stateMutability";
  if strict_eq_string m "view" then mret (VBool true)
  else m' ← js_get funcDetails "stateMutability";
       if strict_eq_string m' "pure" then mret (VBool true)
       else js_get funcDetails "constant".

Definition isPayable (funcDetails : value) : outcome value :=
  m ← js_get funcDetails "stateMutability";
  if strict_eq_string m "payable" then mret (VBool true)
  else js_get funcDetails "payable".

(** The receipt handed back by the write path. *)
Definition summary (receipt : value) : outcome value :=
  transactionHash ← js_get receipt "transactionHash";
  blockNumber ← js_get receipt "blockNumber";
  status ← js_get receipt "status";
  events ← js_get receipt "events";
  mret (object [ ("transactionHash", transactionHash);
                 ("blockNumber", blockNumber);
                 ("status", VString (if strict_eq_one status then "成功" else "失败"));
                 ("events", events);
                 ("receipt", receipt) ]).

(** The write path once a signer-backed handle is at hand. *)
Definition send (via : binding) (functionName : string)
    (processedParams : list value) (txOptions : props) : io value :=
  await (Call via functionName (processedParams ++ [object txOptions]))
    (fun tx => await (Wait tx) (fun receipt => Done (summary receipt))).

(** [callFunction(functionName, params, options)].  The [catch] logs and
    rethrows, so an exception leaves the method as it was raised. *)
Definition callFunction (functionName : string) (params : list value)
    (options : value) (st : state) : io value :=
  if negb (isContractReady st) then Done (Throws not_ready)
  else
    after (getFunctionDetails functionName st) (fun funcDetails =>
    if negb (truthy funcDetails) then Done (Throws (no_such_function functionName))
    else
      after (isReadOnly funcDetails) (fun readOnly =>
      after (isPayable funcDetails) (fun payable =>
      after (inputs ← js_get funcDetails "inputs"; _processParams inputs params)
        (fun processedParams =>
      if truthy readOnly then
        match contract st with
        | None => Done (Throws TypeError)
        | Some read_binding =>
            await (Call read_binding functionName processedParams)
              (fun result =>
                 Done (outputs ← js_get funcDetails "outputs";
                       _formatResult result outputs))
        end
      else
        match contractWithSigner st with
        | None => Done (Throws signer_required)
        | Some signer_binding =>
            if truthy payable then
              after (js_get options "value") (fun supplied =>
              if truthy supplied then
                after (js_toString supplied) (fun amount =>
                await (ParseEther amount) (fun wei =>
                send signer_binding functionName processedParams
                     [("value", wei)]))
              else send signer_binding functionName processedParams [])
            else send signer_binding functionName processedParams []
        end)))).

(** The event a computation is suspended on, if it is. *)
Definition first_event {A : Type} (m : io A) : option event :=
  match m with
  | Vis e _ => Some e
  | Done _ => None
  end.

(** The computation run against the answers of the outside, in order: the
    events it raised, and its result when the answers sufficed. *)
Fixpoint run {A : Type} (m : io A) (replies : list (outcome value))
  : list event * option (outcome A) :=
  match m with
  | Done r => ([], Some r)
  | Vis e k =>
      match replies with
      | [] => ([e], None)
      | reply :: rest =>
          let '(events, result) := run (k reply) rest in (e :: events, result)
      end
  end.

(** The handles as the class builds them: [contract] answers through the
    provider, [contractWithSigner] through a signer and is derived from
    [contract]. *)
Definition coherent (st : state) : Prop :=
  match contract st with
  | Some (SignerBacked _ _) => False
  | _ => True
  end /\
  match contractWithSigner st with
  | Some (ReadOnly _ _) => False
  | Some (SignerBacked _ _) => is_Some (contract st)
  | None => True
  end.

(** The states the public methods lead to. *)
Inductive reachable : state -> Prop :=
| reachable_constructor : reachable constructor
| reachable_setContractAddress env address st :
    reachable st -> reachable (snd (setContractAddress env address st))
| reachable_setAbi env new_abi st :
    reachable st -> reachable (snd (setAbi env new_abi st)).

(** Each handle was built from a truthy address and a truthy ABI, the
    read-only one through the provider and the other through a signer, and
    the second never stands without the first. *)
Definition well_built (st : state) : Prop :=
  match contract st with
  | Some (ReadOnly address abi) => truthy address = true /\ truthy abi = true
  | Some (SignerBacked _ _) => False
  | None => True
  end /\
  match contractWithSigner st with
  | Some (SignerBacked address abi) =>
      truthy address = true /\ truthy abi = true /\ is_Some (contract st)
  | Some (ReadOnly _ _) => False
  | None => True
  end.

End ContractInteractor.

(* --------------------------------------------------------------------- *)
(** ** The static file server *)

Module Server.

Definition MIME_TYPES : props :=
  [ (".html", VString "text/html");
    (".css", VString "text/css");
    (".js", VString "application/javascript");
    (".json", VString "application/json");
    (".png", VString "image/png");
    (".jpg", VString "image/jpeg");
    (".jpeg", VString "image/jpeg");
    (".gif", VString "image/gif");
    (".svg", VString "image/svg+xml");
    (".ico", VString "image/x-icon") ].

(** The loop state of Node's [path.extname] (POSIX flavour), which scans the
    path from its last character backwards. *)
Record scan : Type := mk_scan {
  startDot : Z;
  startPart : Z;
  end_ : Z;
  matchedSlash : bool;
  preDotState : Z;
  stopped : bool
}.

Definition scan_step (st : scan) (i : Z) (c : ascii) : scan :=
  if stopped st then st
  else if (nat_of_ascii c =? 47)%nat then
    if negb (matchedSlash st)
    then mk_scan (startDot st) (i + 1) (end_ st) (matchedSlash st)
                 (preDotState st) true
    else st
  else
    let st1 :=
      if end_ st =? -1
      then mk_scan (startDot st) (startPart st) (i + 1) false
                   (preDotState st) false
      else st in
    if (nat_of_ascii c =? 46)%nat then
      if startDot st1 =? -1
      then mk_scan i (startPart st1) (end_ st1) (matchedSlash st1)
                   (preDotState st1) false
      else if negb (preDotState st1 =? 1)
      then mk_scan (startDot st1) (startPart st1) (end_ st1)
                   (matchedSlash st1) 1 false
      else st1
    else if negb (startDot st1 =? -1)
    then mk_scan (startDot st1) (startPart st1) (end_ st1)
                 (matchedSlash st1) (-1) false
    else st1.

(** The characters of [path] from the last to the first, each with its
    index. *)
Fixpoint indexed_backwards (path : string) (i : Z) (acc : list (Z * ascii))
  : list (Z * ascii) :=
  match path with
  | EmptyString => acc
  | String c r => indexed_backwards r (i + 1) ((i, c) :: acc)
  end.

Definition extname (path : string) : string :=
  let final :=
    fold_left (fun st ic => scan_step st (fst ic) (snd ic))
      (indexed_backwards path 0 [])
      (mk_scan (-1) 0 (-1) true 0 false) in
  if (startDot final =? -1) || (end_ final =? -1) || (preDotState final =? 0)
     || ((preDotState final =? 1)
         && (startDot final =? end_ final - 1)
         && (startDot final =? startPart final + 1))
  then EmptyString
  else String.substring (Z.to_nat (startDot final))
         (Z.to_nat (end_ final - startDot final)) path.

(** The invariant of the scan: where it has seen a dot, the path has one. *)
Definition dot_at (path : string) (st : scan) : Prop :=
  startDot st = -1 \/
  (0 <= startDot st /\ String.get (Z.to_nat (startDot st)) path = Some "."%char).

(** [fs.readFile(path, callback)]: the callback receives the content or an
    error with its [code]. *)
Inductive read_result : Type :=
| ReadOk (content : string)
| ReadError (code : string).

Definition filesystem : Type := string -> read_result.

(** What [writeHead] and [end] send. *)
Record response : Type := mk_response {
  status : nat;
  headers : list (string * value);
  body : string
}.

(** [filePath]: the request URL under the current directory, the root
    mapped to the index document. *)
Definition resolve (url : string) : string :=
  let filePath := "." +:+ url in
  if String.eqb filePath "./" then "./index.html" else filePath.

(** [MIME_TYPES[extname] || 'text/plain']. *)
Definition contentType (filePath : string) : value :=
  match js_get (object MIME_TYPES) (extname filePath) with
  | Returns found => js_or found (VString "text/plain")
  | _ => VUndefined
  end.

(** The request handler. *)
Definition handler (fs : filesystem) (url : string) : response :=
  let filePath := resolve url in
  match fs filePath with
  | ReadError code =>
      if String.eqb code "ENOENT" then
        match fs "./index.html" with
        | ReadError _ => mk_response 500 [] "Error loading index.html"
        | ReadOk content =>
            mk_response 200 [("Content-Type", VString "text/html")] content
        end
      else mk_response 500 [] ("Server Error: " +:+ code)
  | ReadOk content =>
      mk_response 200 [("Content-Type", contentType filePath)] content
  end.

End Server.

(* --------------------------------------------------------------------- *)
(** ** Methods that wait for the outside *)

Module Process.

(** A method that changes the state of its object between the requests it
    waits for: finished, with its outcome and the state it leaves, or
    suspended on a request, having left the object in a state, until the
    outside answers with a value or an exception; it then goes on from the
    state the object is in at that time, which other code may have changed
    in between. *)
Inductive proc (E S A : Type) : Type :=
| Finish (r : outcome A) (s : S)
| Ask (e : E) (s : S) (k : outcome value -> S -> proc E S A).
Arguments Finish {E S A} r s.
Arguments Ask {E S A} e s k.

(** The method run on its own against the answers of the outside, in
    order: nothing else touches the object while the method waits.  The
    requests it made, and its outcome and final state when the answers
    sufficed. *)
Fixpoint run {E S A : Type} (m : proc E S A) (replies : list (outcome value))
  : list E * option (outcome A * S) :=
  match m with
  | Finish r s => ([], Some (r, s))
  | Ask e s k =>
      match replies with
      | [] => ([e], None)
      | reply :: rest =>
          let '(events, result) := run (k reply s) rest in (e :: events, result)
      end
  end.

(** An answer of the outside, with what other code (a listener, another
    handler) has done to the object by the time the method goes on. *)
Definition answer (S : Type) : Type := (outcome value * (S -> S))%type.

(** The method run among other code. *)
Fixpoint run_among {E S A : Type} (m : proc E S A) (answers : list (answer S))
  : list E * option (outcome A * S) :=
  match m with
  | Finish r s => ([], Some (r, s))
  | Ask e s k =>
      match answers with
      | [] => ([e], None)
      | (reply, others) :: rest =>
          let '(events, result) := run_among (k reply (others s)) rest in
          (e :: events, result)
      end
  end.

(** An answer during which nothing else ran. *)
Definition alone {S : Type} (reply : outcome value) : answer S :=
  (reply, fun s => s).

(** What the other code alone does to a state over a series of answers. *)
Definition meanwhile {S : Type} (answers : list (answer S)) (s : S) : S :=
  fold_left (fun s a => snd a s) answers s.

End Process.

(* --------------------------------------------------------------------- *)
(** ** MetaMaskConnector *)

Module WalletConnector.
Import Process.

Record state : Type := mk {
  provider : value;
  signer : value;
  isConnected : bool;
  currentAddress : value;
  currentChainId : value
}.

Definition constructor : state := mk VNull VNull false VNull VNull.

(** What the class asks of the outside: [window.ethereum.request], the
    construction of an [ethers.providers.Web3Provider], [getSigner] on it,
    and the callbacks it was constructed with. *)
Inductive event : Type :=
| Request (method : string) (params : list value)
| Web3Provider
| GetSigner (provider : value)
| Callback (name : string) (args : list value).

(** [accounts.length > 0] and [accounts[0]]: the first account, if there is
    one.  A boolean and a number have no [length]. *)
Definition first_account (accounts : value) : outcome (option value) :=
  match accounts with
  | VArray [] => Returns None
  | VArray (first :: _) => Returns (Some first)
  | VBool _ | VNumber _ _ => Returns None
  | VUndefined | VNull => Throws TypeError
  | _ => Beyond
  end.

(** The body shared by [checkConnection] and [connect] once the accounts
    are known to be non-empty; [failed] is what the enclosing [catch] makes
    of an exception, given the state reached.  Every write goes to the
    object as it is when the method goes on, and [onConnected] is called
    with the fields as they are read then: [this.currentAddress] and
    [this.currentChainId], not the values the method received. *)
Definition establish {A : Type} (first : value) (st : state)
    (failed : exn -> state -> proc event state A)
    (done : state -> proc event state A) : proc event state A :=
  Ask (Request "eth_chainId" [])
    (mk (provider st) (signer st) true first (currentChainId st))
    (fun reply st =>
  match reply with
  | Returns chainId =>
      Ask Web3Provider
        (mk (provider st) (signer st) (isConnected st) (currentAddress st)
            chainId)
        (fun reply st =>
      match reply with
      | Returns p =>
          Ask (GetSigner p)
            (mk p (signer st) (isConnected st) (currentAddress st)
                (currentChainId st))
            (fun reply st =>
          match reply with
          | Returns s =>
              let st := mk (provider st) s (isConnected st) (currentAddress st)
                           (currentChainId st) in
              Ask (Callback "onConnected" [currentAddress st; currentChainId st])
                st
                (fun reply st =>
              match reply with
              | Returns _ => done st
              | Throws e => failed e st
              | Beyond => Finish Beyond st
              end)
          | Throws e => failed e st
          | Beyond => Finish Beyond st
          end)
      | Throws e => failed e st
      | Beyond => Finish Beyond st
      end)
  | Throws e => failed e st
  | Beyond => Finish Beyond st
  end).

(** [checkConnection()], with [ethereum] telling whether [window.ethereum]
    is there: every exception is caught and answered with [false]. *)
Definition checkConnection (ethereum : bool) (st : state)
  : proc event state bool :=
  if negb ethereum then Finish (Returns false) st
  else
    let failed (e : exn) (s : state) := Finish (Returns false) s in
    Ask (Request "eth_accounts" []) st (fun reply st =>
    match reply with
    | Returns accounts =>
        match first_account accounts with
        | Returns (Some first) =>
            establish first st failed (fun s => Finish (Returns true) s)
        | Returns None => Finish (Returns false) st
        | Throws e => failed e st
        | Beyond => Finish Beyond st
        end
    | Throws e => failed e st
    | Beyond => Finish Beyond st
    end).

Definition not_installed : exn := Error "MetaMask未安装，请先安装MetaMask插件".
Definition no_account : exn := Error "没有授权账户".

(** [connect()]: the [catch] logs and rethrows; the value returned is
    [this.currentAddress] as it is at the end. *)
Definition connect (ethereum : bool) (st : state) : proc event state value :=
  if negb ethereum then Finish (Throws not_installed) st
  else
    let failed (e : exn) (s : state) := Finish (Throws e) s in
    Ask (Request "eth_requestAccounts" []) st (fun reply st =>
    match reply with
    | Returns accounts =>
        match first_account accounts with
        | Returns (Some first) =>
            establish first st failed
              (fun s => Finish (Returns (currentAddress s)) s)
        | Returns None => failed no_account st
        | Throws e => failed e st
        | Beyond => Finish Beyond st
        end
    | Throws e => failed e st
    | Beyond => Finish Beyond st
    end).

(** The end of a method that calls back and returns nothing. *)
Definition notify (name : string) (args : list value) (st : state)
  : proc event state unit :=
  Ask (Callback name args) st (fun reply st => Finish (_ ← reply; mret tt) st).

(** What [disconnect()] writes before it calls back. *)
Definition disconnected (st : state) : state :=
  mk (provider st) (signer st) false VNull (currentChainId st).

(** [disconnect()], and the listener of the provider's [disconnect] event,
    which has the same body. *)
Definition disconnect (st : state) : proc event state unit :=
  notify "onDisconnected" [] (disconnected st).

(** What the listener of [chainChanged] writes before it calls back. *)
Definition chain_set (chainId : value) (st : state) : state :=
  mk (provider st) (signer st) (isConnected st) (currentAddress st) chainId.

(** The listener of [chainChanged]. *)
Definition chainChanged (chainId : value) (st : state) : proc event state unit :=
  notify "onChainChanged" [chainId] (chain_set chainId st).

(** What the listener of [accountsChanged] writes when there is an
    account. *)
Definition account_set (first : value) (st : state) : state :=
  mk (provider st) (signer st) (isConnected st) first (currentChainId st).

(** The listener of [accountsChanged]; [accounts.length === 0] holds of the
    empty array only. *)
Definition accountsChanged (accounts : value) (st : state)
  : proc event state unit :=
  match accounts with
  | VArray [] => disconnect st
  | VArray (first :: _) =>
      notify "onAccountsChanged" [accounts] (account_set first st)
  | VUndefined | VNull => Finish (Throws TypeError) st
  | VBool _ | VNumber _ _ =>
      notify "onAccountsChanged" [accounts] (account_set VUndefined st)
  | _ => Finish Beyond st
  end.

Definition getConnectionStatus (st : state) : value :=
  object [ ("isConnected", VBool (isConnected st));
           ("address", currentAddress st);
           ("chainId", currentChainId st) ].

Definition getProvider (st : state) : value := provider st.
Definition getSigner (st : state) : value := signer st.

(** [switchChain(chainId)]. *)
Definition switchChain (ethereum : bool) (chainId : value) (st : state)
  : proc event state bool :=
  if negb ethereum then Finish (Throws (Error "MetaMask未安装")) st
  else
    Ask (Request "wallet_switchEthereumChain" [object [("chainId", chainId)]])
      st (fun reply st => Finish (_ ← reply; mret true) st).

(** The calls and notifications that reach a connector, and the state each
    leaves when the outside answers with [replies]. *)
Inductive call : Type :=
| Connect
| CheckConnection
| Disconnect
| ChainChanged (chainId : value)
| AccountsChanged (accounts : value)
| SwitchChain (chainId : value).

Definition left_by {A : Type} (m : proc event state A)
    (replies : list (outcome value)) : option state :=
  match run m replies with
  | (_, Some (_, st)) => Some st
  | (_, None) => None
  end.

Definition perform (ethereum : bool) (c : call) (replies : list (outcome value))
    (st : state) : option state :=
  match c with
  | Connect => left_by (connect ethereum st) replies
  | CheckConnection => left_by (checkConnection ethereum st) replies
  | Disconnect => left_by (disconnect st) replies
  | ChainChanged chainId => left_by (chainChanged chainId st) replies
  | AccountsChanged accounts => left_by (accountsChanged accounts st) replies
  | SwitchChain chainId => left_by (switchChain ethereum chainId st) replies
  end.

End WalletConnector.

(* --------------------------------------------------------------------- *)
(** ** UIManager: the parameter form *)

Module UIManager.

(** An [input] or [select] element of the parameter form: its [id], its
    [dataset.type] if it has one, and its [value]. *)
Record control : Type := mk_control {
  id : string;
  dataset_type : option string;
  value : string
}.

(** The body of the [forEach] in [renderFunctionParams]: the control built
    for one input.  A [bool] gets a selector, which starts on [true]; any
    other type a text box, which starts empty. *)
Definition param_control (input : Js.value) (index : nat) : outcome control :=
  name ← js_get input "name";
  _ ← String_of (js_or name (VString ("参数" +:+ index_toString (index + 1))));
  type ← js_get input "type";
  _ ← String_of type;
  is_bool ←
    (if strict_eq_string type "bool" then Returns true
     else match type with
          | VString _ | VArray _ => Returns false
          | VNative _ => Beyond
          | _ => Throws TypeError
          end);
  dataset_type ← String_of type;
  _ ← String_of (js_or name (VString ("param" +:+ index_toString index)));
  mret (mk_control ("param-" +:+ index_toString index) (Some dataset_type)
          (if is_bool : bool then "true" else "")).

(** [renderFunctionParams(functionDetails)]: the controls of the form put
    into the document, in order, or [None] when the document is left without
    a form. *)
Definition renderFunctionParams (functionDetails : Js.value)
  : outcome (option (list control)) :=
  if negb (truthy functionDetails) then Returns None
  else
    inputs ← js_get functionDetails "inputs";
    if negb (truthy inputs) then Returns None
    else match inputs with
         | VArray [] => Returns None
         | VArray items =>
             controls ← Array_map param_control items;
             mutability ← js_get functionDetails "stateMutability";
             payable ←
               (if strict_eq_string mutability "payable" then Returns true
                else flag ← js_get functionDetails "payable"; mret (truthy flag));
             mret (Some (controls ++
                         (if payable : bool
                          then [mk_control "eth-value" None ""]
                          else [])))
         | VBool _ | VNumber _ _ | VString _ | VBigNumber _ => Throws TypeError
         | _ => Beyond
         end.

(** The user's typing: the values of the controls, in order. *)
Fixpoint enter (texts : list string) (form : list control) : list control :=
  match texts, form with
  | text :: texts', c :: form' =>
      mk_control (id c) (dataset_type c) text :: enter texts' form'
  | _, _ => form
  end.

Fixpoint trim_all (pieces : list string) : outcome (list string) :=
  match pieces with
  | [] => Returns []
  | piece :: rest =>
      trimmed ← String_trim piece;
      others ← trim_all rest;
      mret (trimmed :: others)
  end.

(** The body of the [forEach] in [collectFunctionParams], for a control
    other than the amount box. *)
Definition collected (input : control) : outcome Js.value :=
  value ← String_trim (value input);
  match dataset_type input with
  | None => Throws TypeError
  | Some type =>
      if String.eqb type "bool" then Returns (VBool (String.eqb value "true"))
      else if String_includes "[]" type then
        arrayValues ← trim_all (String_split_comma value);
        mret (VArray (map VString arrayValues))
      else Returns (VString value)
  end.

Fixpoint collect (inputs : list control) : outcome (list Js.value) :=
  match inputs with
  | [] => Returns []
  | input :: rest =>
      if String.eqb (id input) "eth-value" then collect rest
      else
        param ← collected input;
        params ← collect rest;
        mret (param :: params)
  end.

(** [collectFunctionParams()], given the form of the document if there is
    one. *)
Definition collectFunctionParams (form : option (list control))
  : outcome (list Js.value) :=
  match form with
  | None => Returns []
  | Some inputs => collect inputs
  end.

End UIManager.

(* --------------------------------------------------------------------- *)
(** ** The page script *)

Module Main.
Import Process.

(** What the handlers of the page ask of the outside: the calls of
    [callFunction] into ethers, the methods of the [UIManager] (which holds
    no reference to the other objects), the text box of the ABI, and the
    clock. *)
Inductive event : Type :=
| Ethers (e : ContractInteractor.event)
| CollectFunctionParams
| ShowFunctionResult (result : value)
| DateNow
| RenderTransactionHistory (items : list value)
| SetAbiInput (content : value)
| PopulateFunctionDropdown (functions : value)
| ShowError (title : string) (message : option string).

(** [error.message]: the text an [Error] was made with; the text of an
    exception raised by the engine is the engine's own. *)
Definition message (e : exn) : option string :=
  match e with
  | Error text => Some text
  | _ => None
  end.

(** The interactor is constructed with [getProvider] and [getSigner] of
    the connector. *)
Definition environment_of (wallet : WalletConnector.state)
    (isAddress : value -> bool) (Contract_builds : value -> value -> bool)
    (connects : bool) : ContractInteractor.environment :=
  {| ContractInteractor.provider := WalletConnector.getProvider wallet;
     ContractInteractor.signer := WalletConnector.getSigner wallet;
     ContractInteractor.isAddress := isAddress;
     ContractInteractor.Contract_builds := Contract_builds;
     ContractInteractor.connects := connects |}.

(** An asynchronous method of the interactor inside a handler: the page
    may change at every request the method waits on. *)
Fixpoint lift {S A B : Type} (m : ContractInteractor.io A) (s : S)
    (k : outcome A -> S -> proc event S B) : proc event S B :=
  match m with
  | ContractInteractor.Done r => k r s
  | ContractInteractor.Vis e c =>
      Ask (Ethers e) s (fun reply s => lift (c reply) s k)
  end.

(** A handler's [catch]: the error is shown. *)
Definition failed {S : Type} (title : string) (e : exn) (s : S)
  : proc event S unit :=
  Ask (ShowError title (message e)) s
    (fun reply s => Finish (_ ← reply; mret tt) s).

(** The record of a call. *)
Definition historyItem (now address : value) (functionName : string)
    (params : list value) (result : value) : value :=
  object [ ("timestamp", now); ("address", address);
           ("function", VString functionName); ("params", VArray params);
           ("result", result) ].

(** The objects of the page a click on the call button reads and writes:
    the interactor and the history manager. *)
Definition page : Type := (ContractInteractor.state * HistoryManager.state)%type.

(** What [addToHistory] makes of the page for a call that returned
    [result] when the clock shows [now]: the address is the interactor's
    at that time. *)
Definition recorded (functionName : string) (params : list value)
    (result now : value) (p : page) : page :=
  (fst p,
   snd (HistoryManager.addToHistory
          (historyItem now (ContractInteractor.getContractAddress (fst p))
             functionName params result)
          (snd p))).

(** The click handler of the call button from the end of [callFunction]
    on: the result is shown and the call recorded in the history manager as
    it is then, under the address the interactor holds then. *)
Definition record_call (functionName : string) (params : list value)
    (called : outcome value) (p : page) : proc event page unit :=
  match called with
  | Returns result =>
      Ask (ShowFunctionResult result) p (fun reply p =>
      match reply with
      | Returns _ =>
          Ask DateNow p (fun reply p =>
          match reply with
          | Returns now =>
              let p := recorded functionName params result now p in
              Ask (RenderTransactionHistory (HistoryManager.getHistory (snd p)))
                p (fun reply p =>
              match reply with
              | Returns _ => Finish (Returns tt) p
              | Throws e => failed "调用失败" e p
              | Beyond => Finish Beyond p
              end)
          | Throws e => failed "调用失败" e p
          | Beyond => Finish Beyond p
          end)
      | Throws e => failed "调用失败" e p
      | Beyond => Finish Beyond p
      end)
  | Throws e => failed "调用失败" e p
  | Beyond => Finish Beyond p
  end.

(** The click handler of the call button, with the value of the function
    selector, and the interactor and the history manager as they are at the
    click.  [callFunction] is called without options, on the interactor as
    it is when the parameters have been collected. *)
Definition call_button (functionName : string)
    (interactor : ContractInteractor.state) (history : HistoryManager.state)
  : proc event page unit :=
  if String.eqb functionName EmptyString then
    Ask (ShowError "调用失败" (Some "请选择合约函数")) (interactor, history)
      (fun reply p => Finish (_ ← reply; mret tt) p)
  else if negb (ContractInteractor.isContractReady interactor) then
    Ask (ShowError "调用失败" (Some "合约地址或ABI未设置")) (interactor, history)
      (fun reply p => Finish (_ ← reply; mret tt) p)
  else
    Ask CollectFunctionParams (interactor, history) (fun reply p =>
    match reply with
    | Returns (VArray params) =>
        lift (ContractInteractor.callFunction functionName params (object [])
                (fst p))
          p (record_call functionName params)
    | Returns _ => Finish Beyond p
    | Throws e => failed "调用失败" e p
    | Beyond => Finish Beyond p
    end).



End Main.

(* --------------------------------------------------------------------- *)
(** ** Reference definitions *)

(** The specification's reading of an ABI entry, against which
    [getAvailableFunctions] is compared. *)
Module Reference.

(** An entry whose fields can be read: anything but [null], [undefined] and
    built-in objects (an object with its prototype as [JSON.parse] leaves
    it). *)
Definition readable (item : value) : bool :=
  match item with
  | VUndefined | VNull | VNative _ => false
  | VObject proto _ =>
      is_ObjectPrototype proto || match proto with VNull => true | _ => false end
  | _ => true
  end.

(** The value of a field, [undefined] when the entry has none. *)
Definition field (item : value) (k : string) : value :=
  match js_get item k with
  | Returns v => v
  | _ => VUndefined
  end.

(** An entry of function type. *)
Definition function_entry (item : value) : bool :=
  strict_eq_string (field item "type") "function".

(** The descriptor of a function entry: name, mutability, inputs, outputs,
    the legacy constant flag, and the payable flag. *)
Definition descriptor_of (item : value) : value :=
  object [ ("name", field item "name");
           ("type", field item "stateMutability");
           ("inputs", field item "inputs");
           ("outputs", field item "outputs");
           ("constant", field item "constant");
           ("payable",
            js_or (field item "payable")
                  (VBool (strict_eq_string (field item "stateMutability")
                            "payable"))) ].

(** A function the dispatch policy sends down the read path: mutability
    [view] or [pure], or the legacy [constant] flag. *)
Definition read_only (funcDetails : value) : bool :=
  strict_eq_string (field funcDetails "stateMutability") "view"
  || strict_eq_string (field funcDetails "stateMutability") "pure"
  || truthy (field funcDetails "constant").

(** The key an output is filed under: its name, or [output_<index>] when it
    has none or an empty one. *)
Definition output_key (index : nat) (output : value) : string :=
  match field output "name" with
  | VString s =>
      if String.eqb s EmptyString then "output_" +:+ index_toString index else s
  | _ => "output_" +:+ index_toString index
  end.

(** A field of the mapping: a BigNumber as its decimal digits, anything else
    as it is. *)
Definition stringified (v : value) : value :=
  match v with
  | VBigNumber n => VString (BigNumber_toString n)
  | _ => v
  end.

(** An output definition whose name is a string or is missing. *)
Definition named (output : value) : bool :=
  readable output &&
  match field output "name" with
  | VString _ | VUndefined | VNull => true
  | _ => false
  end.

(** The mapping the specification describes: one entry per output, in
    order. *)
Fixpoint entries (elements : list value) (index : nat) (outputs : list value)
  : props :=
  match outputs with
  | [] => []
  | output :: rest =>
      (output_key index output, stringified (nth index elements VUndefined))
      :: entries elements (S index) rest
  end.

(** An object as an object literal or [JSON.parse] builds it. *)
Definition ordinary (item : value) : bool :=
  match item with
  | VObject proto _ => is_ObjectPrototype proto
  | _ => false
  end.

(** A history entry recorded for the function [functionName]. *)
Definition recorded_for (functionName : string) (item : value) : bool :=
  strict_eq_string (field item "function") functionName.

(** A history entry whose address, if it has one, is an ASCII string. *)
Definition addressed (item : value) : bool :=
  ordinary item &&
  match field item "address" with
  | VString a => is_ascii_string a
  | VUndefined | VNull => true
  | _ => false
  end.

(** A history entry recorded at [address], letter case apart. *)
Definition recorded_at (address : string) (item : value) : bool :=
  match field item "address" with
  | VString a =>
      negb (String.eqb a EmptyString)
      && String.eqb (lower_string a) (lower_string address)
  | _ => false
  end.

(** What [setAbi] stores for its argument: a string is parsed, anything else
    is taken as it is. *)
Definition abi_of (new_abi : value) : option value :=
  match new_abi with
  | VString text => JSON_parse text
  | _ => Some new_abi
  end.

(** The entry [getFunctionDetails] is after: of function type, with the
    name. *)
Definition named_function (functionName : string) (item : value) : bool :=
  function_entry item && strict_eq_string (field item "name") functionName.

(** The payable test of the write path. *)
Definition pays (funcDetails : value) : bool :=
  strict_eq_string (field funcDetails "stateMutability") "payable"
  || truthy (field funcDetails "payable").

(** An input definition as an ABI has it: its type is a string, and its name
    a string or missing. *)
Definition typed (input : value) : bool :=
  named input &&
  match field input "type" with
  | VString _ => true
  | _ => false
  end.

(** A control of the parameter form and the input it was built for: the
    control carries the input's type and is not the amount box. *)
Definition built_for (input : value) (c : UIManager.control) : Prop :=
  exists t,
    field input "type" = VString t /\
    UIManager.dataset_type c = Some t /\
    String.eqb (UIManager.id c) "eth-value" = false.

End Reference.

(* --------------------------------------------------------------------- *)
(** ** Sample data *)

(** A history entry as the page records it. *)
Definition sample_entry (n : Z) : value :=
  object [("timestamp", VNumber n 0); ("function", VString "balanceOf")].

(** The ABI of a token: a view function, an event, and a transfer. *)
Definition sample_abi : list value :=
  [ object [ ("type", VString "function"); ("name", VString "balanceOf");
             ("stateMutability", VString "view");
             ("inputs", VArray [object [("name", VString "owner");
                                        ("type", VString "address")]]);
             ("outputs", VArray [object [("name", VString EmptyString);
                                         ("type", VString "uint256")]]) ];
    object [ ("type", VString "event"); ("name", VString "Transfer") ];
    object [ ("type", VString "function"); ("name", VString "transfer");
             ("stateMutability", VString "nonpayable");
             ("inputs", VArray [object [("name", VString "to");
                                        ("type", VString "address")];
                                object [("name", VString "amount");
                                        ("type", VString "uint256")]]);
             ("outputs", VArray [object [("name", VString EmptyString);
                                         ("type", VString "bool")]]) ] ].

(** A binding that is ready, without a signer, over an ABI whose one function
    declares [nonpayable] and carries the legacy [constant] flag. *)
Definition legacy_abi : list value :=
  [ object [ ("type", VString "function"); ("name", VString "total");
             ("stateMutability", VString "nonpayable");
             ("constant", VBool true);
             ("inputs", VArray [object [("name", VString "id");
                                        ("type", VString "uint256")]]);
             ("outputs", VArray [object [("name", VString EmptyString);
                                         ("type", VString "uint256")]]) ] ].

Definition sample_address : value :=
  VString "0xAbC1230000000000000000000000000000000000".

(** The page's surroundings before a wallet is connected to sign: a
    provider, no signer, and an ethers that builds a handle or refuses. *)
Definition provider_only (builds : bool) : ContractInteractor.environment :=
  {| ContractInteractor.provider := object [];
     ContractInteractor.signer := VNull;
     ContractInteractor.isAddress := fun a =>
       strict_eq_string a "0xAbC1230000000000000000000000000000000000";
     ContractInteractor.Contract_builds := fun _ _ => builds;
     ContractInteractor.connects := true |}.

(** The address and the token ABI are set, then the legacy ABI, for which
    no new handle is built: the earlier handle stays. *)
Definition legacy_state : ContractInteractor.state :=
  snd (ContractInteractor.setAbi (provider_only false) (VArray legacy_abi)
    (snd (ContractInteractor.setAbi (provider_only true) (VArray sample_abi)
      (snd (ContractInteractor.setContractAddress (provider_only true)
              sample_address ContractInteractor.constructor))))).

(** The token binding, read-only and with a signer. *)
Definition token_state (with_signer : bool) : ContractInteractor.state :=
  ContractInteractor.mk sample_address (VArray sample_abi)
    (Some (ContractInteractor.ReadOnly sample_address (VArray sample_abi)))
    (if with_signer
     then Some (ContractInteractor.SignerBacked sample_address (VArray sample_abi))
     else None).

(** A binding with a signer over an ABI whose one function is payable. *)
Definition payable_abi : list value :=
  [ object [ ("type", VString "function"); ("name", VString "deposit");
             ("stateMutability", VString "payable");
             ("inputs", VArray []); ("outputs", VArray []) ] ].

Definition payable_state : ContractInteractor.state :=
  ContractInteractor.mk sample_address (VArray payable_abi)
    (Some (ContractInteractor.ReadOnly sample_address (VArray payable_abi)))
    (Some (ContractInteractor.SignerBacked sample_address (VArray payable_abi))).

(** Three recorded calls: at a mixed-case address, without an address, and
    at another address. *)
Definition sample_calls : list value :=
  [ object [("address", VString "0xAbC1"); ("function", VString "balanceOf")];
    object [("address", VNull); ("function", VString "balanceOf")];
    object [("address", VString "0xdef2"); ("function", VString "transfer")] ].

(** A document root holding the index document and one script. *)
Definition sample_site : Server.filesystem := fun path =>
  if String.eqb path "./index.html" then Server.ReadOk "<html></html>"
  else if String.eqb path "./js/app.js" then Server.ReadOk "export {}"
  else Server.ReadError "ENOENT".


(* ===================================================================== *)
(** * Part II: properties                                                 *)
(* ===================================================================== *)

Section StorageFacts.
Import Storage.

Lemma lookup_written_eq (s : localStorage) key document :
  <[key := document]> s !! key = Some document.
Proof.
  unfold lookup, insert, localStorage_lookup, localStorage_insert.
  cbn [items]. apply lookup_insert_eq.
Qed.

Lemma lookup_written_ne (s : localStorage) key key' document :
  key <> key' -> <[key := document]> s !! key' = s !! key'.
Proof.
  intros Hne. unfold lookup, insert, localStorage_lookup, localStorage_insert.
  cbn [items]. now apply lookup_insert_ne.
Qed.

(** [setItem] by the answer of the browser. *)
Lemma setItem_accepts key document s :
  accepts key document s = true ->
  setItem key document s = Returns (<[key := document]> s).
Proof.
  unfold accepts, setItem. now destruct (refusal s (items s) key document).
Qed.

Lemma setItem_refuses key document s :
  accepts key document s = false ->
  exists e, setItem key document s = Throws e.
Proof.
  unfold accepts, setItem.
  destruct (refusal s (items s) key document); [eauto | discriminate].
Qed.

(** A write changes no other key, whether it goes through or not. *)
Lemma setItem_frame key key' document s :
  key <> key' ->
  match setItem key document s with
  | Returns written => written !! key' = s !! key'
  | _ => True
  end.
Proof.
  intros Hne. unfold setItem.
  destruct (refusal s (items s) key document); [exact I|].
  now apply lookup_written_ne.
Qed.

End StorageFacts.

(* --------------------------------------------------------------------- *)
(** ** HistoryManager *)

Section HistoryFacts.
Import HistoryManager.
Local Open Scope nat_scope.

Lemma _saveHistory_history st : history (_saveHistory st) = history st.
Proof.
  unfold _saveHistory.
  now destruct (Storage.setItem storageKey (VArray (history st)) (storage st)).
Qed.

Lemma _saveHistory_storage st :
  storage (_saveHistory st)
  = if Storage.accepts storageKey (VArray (history st)) (storage st)
    then <[storageKey := VArray (history st)]> (storage st)
    else storage st.
Proof.
  unfold _saveHistory.
  destruct (Storage.accepts storageKey (VArray (history st)) (storage st)) eqn:Ha.
  - now rewrite (setItem_accepts _ _ _ Ha).
  - destruct (setItem_refuses _ _ _ Ha) as [e ->]. reflexivity.
Qed.

Lemma take_app_take {A} (n : nat) (l1 l2 : list A) :
  take n (l1 ++ take n l2) = take n (l1 ++ l2).
Proof.
  rewrite !take_app, take_take.
  f_equal. f_equal. lia.
Qed.

Lemma addToHistory_history item st :
  history (snd (addToHistory item st))
  = take maxHistoryItems (item :: history st).
Proof.
  unfold addToHistory; cbn [snd]. rewrite _saveHistory_history. cbn [history].
  destruct (Nat.ltb_spec maxHistoryItems (length (item :: history st)))
    as [H|H]; [reflexivity|].
  symmetry. now apply take_ge.
Qed.

(** The store after [addToHistory]: the new list under the key of the
    history when the write goes through, and what it was when it does not. *)
Lemma addToHistory_storage item st :
  storage (snd (addToHistory item st))
  = if Storage.accepts storageKey
         (VArray (history (snd (addToHistory item st)))) (storage st)
    then <[storageKey := VArray (history (snd (addToHistory item st)))]>
           (storage st)
    else storage st.
Proof.
  unfold addToHistory; cbn [snd].
  rewrite _saveHistory_storage, _saveHistory_history. reflexivity.
Qed.

Lemma addToHistory_length item st :
  length (history (snd (addToHistory item st))) <= maxHistoryItems.
Proof. rewrite addToHistory_history, length_take. lia. Qed.

(** After a run of additions the list holds the newest entries first, cut at
    the cap. *)
Lemma addAll_history items : forall st,
  length (history st) <= maxHistoryItems ->
  history (addAll items st)
  = take maxHistoryItems (rev items ++ history st).
Proof.
  induction items as [|x items IH]; intros st Hlen; cbn [addAll fold_left rev].
  - cbn [app]. symmetry. now apply take_ge.
  - fold (addAll items (snd (addToHistory x st))).
    rewrite IH by apply addToHistory_length.
    rewrite addToHistory_history, take_app_take.
    now rewrite <- app_assoc.
Qed.

(** C1.  Starting from a history of at most 50 entries, [addToHistory] puts
    the new entry at the front and keeps the first 50 entries of the result:
    below the cap nothing is dropped, at the cap exactly the oldest entry is;
    the list never holds more than 50 entries, the persisted array is the
    list when the store accepts the write (and the store is left as it was
    when it does not), and after any run of additions the list is the 50 most
    recently added entries, newest first. *)
Theorem addToHistory_cap (h : list value) (s : Storage.localStorage)
    (item : value) :
  length h <= 50 ->
  let r := addToHistory item (mk h s) in
  fst r = true /\
  history (snd r) = take 50 (item :: h) /\
  head (history (snd r)) = Some item /\
  (length h < 50 -> history (snd r) = item :: h) /\
  (length h = 50 ->
     history (snd r) = item :: take 49 h /\ length (history (snd r)) = 50) /\
  length (history (snd r)) <= 50 /\
  (Storage.accepts "tx_history" (VArray (history (snd r))) s = true ->
     storage (snd r) !! "tx_history" = Some (VArray (history (snd r)))) /\
  (Storage.accepts "tx_history" (VArray (history (snd r))) s = false ->
     storage (snd r) = s) /\
  (forall items,
     history (addAll items (snd r)) = take 50 (rev items ++ item :: h) /\
     length (history (addAll items (snd r))) <= 50).
Proof.
  intros Hlen r.
  assert (Hh : history (snd r) = take 50 (item :: h))
    by apply (addToHistory_history item (mk h s)).
  split; [reflexivity|].
  split; [exact Hh|].
  split; [now rewrite Hh|].
  split; [intros Hlt; rewrite Hh; apply take_ge; cbn [length]; lia|].
  split.
  { intros H50. rewrite Hh. split; [reflexivity|].
    rewrite length_take. cbn [length]. lia. }
  split; [rewrite Hh, length_take; lia|].
  pose proof (addToHistory_storage item (mk h s)) as Hstore.
  cbn [storage] in Hstore. fold r in Hstore.
  split.
  { intros Ha. change "tx_history" with storageKey in *.
    rewrite Hstore, Ha. apply lookup_written_eq. }
  split.
  { intros Ha. change "tx_history" with storageKey in *.
    now rewrite Hstore, Ha. }
  intros items.
  rewrite addAll_history by apply addToHistory_length.
  split.
  - rewrite Hh. apply (take_app_take 50).
  - rewrite length_take. unfold maxHistoryItems. lia.
Qed.

Lemma addToHistory_cap_witness :
  length (map sample_entry [1%Z; 2%Z]) <= 50 /\
  history (snd (addToHistory (sample_entry 3) (mk (map sample_entry [1%Z; 2%Z]) ∅)))
  = map sample_entry [3%Z; 1%Z; 2%Z].
Proof.
  assert (Hlen : length (map sample_entry [1%Z; 2%Z]) <= 50) by (cbn; lia).
  split; [exact Hlen|].
  exact (proj1 (proj2
    (addToHistory_cap (map sample_entry [1%Z; 2%Z]) ∅ (sample_entry 3) Hlen))).
Defined.

(** C9.  [deleteHistoryItem] with an index out of range answers [false] and
    changes neither the list nor the store; with an index in range it answers
    [true], removes the entry at that index and no other, and persists the
    shortened list when the store accepts the write (the store is left as it
    was when it does not). *)
Theorem deleteHistoryItem_spec (h : list value) (s : Storage.localStorage)
    (index : Z) :
  ((index < 0 \/ Z.of_nat (length h) <= index)%Z ->
     deleteHistoryItem index (mk h s) = (false, mk h s)) /\
  ((0 <= index < Z.of_nat (length h))%Z ->
     let r := deleteHistoryItem index (mk h s) in
     let i := Z.to_nat index in
     fst r = true /\
     history (snd r) = take i h ++ drop (S i) h /\
     S (length (history (snd r))) = length h /\
     (forall j, j < i -> history (snd r) !! j = h !! j) /\
     (forall j, i <= j -> history (snd r) !! j = h !! S j) /\
     storage (snd r)
     = if Storage.accepts "tx_history" (VArray (history (snd r))) s
       then <["tx_history" := VArray (history (snd r))]> s
       else s).
Proof.
  unfold deleteHistoryItem; cbn [history storage]. split.
  - intros Hout.
    destruct (Z.leb_spec 0 index), (Z.ltb_spec index (Z.of_nat (length h)));
      cbn [andb]; try reflexivity; lia.
  - intros [H0 Hlt].
    destruct (Z.leb_spec 0 index); [|lia].
    destruct (Z.ltb_spec index (Z.of_nat (length h))); [|lia].
    cbn [andb fst snd].
    rewrite _saveHistory_history, _saveHistory_storage. cbn [history storage].
    repeat split.
    + apply delete_take_drop.
    + rewrite length_delete.
      * assert (Z.to_nat index < length h) by lia. lia.
      * apply lookup_lt_is_Some. lia.
    + intros j Hj. now apply list_lookup_delete_lt.
    + intros j Hj. now apply list_lookup_delete_ge.
Qed.

Lemma deleteHistoryItem_spec_witness :
  deleteHistoryItem 5 (mk (map sample_entry [1%Z; 2%Z]) ∅)
  = (false, mk (map sample_entry [1%Z; 2%Z]) ∅) /\
  history (snd (deleteHistoryItem 0 (mk (map sample_entry [1%Z; 2%Z]) ∅)))
  = map sample_entry [2%Z].
Proof.
  split.
  - apply (proj1 (deleteHistoryItem_spec (map sample_entry [1%Z; 2%Z]) ∅ 5)).
    right. cbn. lia.
  - assert (Hin : (0 <= 0 < Z.of_nat (length (map sample_entry [1%Z; 2%Z])))%Z)
      by (cbn; lia).
    exact (proj1 (proj2
      (proj2 (deleteHistoryItem_spec (map sample_entry [1%Z; 2%Z]) ∅ 0) Hin))).
Defined.

End HistoryFacts.

(* --------------------------------------------------------------------- *)
(** ** Own properties and ordinary objects *)

Section ObjectFacts.

Lemma own_lookup_In k own :
  In k (own_keys own) <-> is_Some (own_lookup k own).
Proof.
  induction own as [|[k' v'] own IH]; cbn.
  - split; [tauto | intros [x Hx]; discriminate].
  - destruct (String.eqb_spec k k') as [->|Hne].
    + split; [eauto | auto].
    + rewrite <- IH. split; [intros [?|?]; [congruence | assumption] | auto].
Qed.

Lemma own_lookup_update_eq k v own :
  is_Some (own_lookup k own) ->
  own_lookup k (own_update k v own) = Some v.
Proof.
  induction own as [|[k' v'] own IH]; cbn; intros H.
  - destruct H; discriminate.
  - destruct (String.eqb_spec k k') as [->|Hne]; cbn.
    + now rewrite String.eqb_refl.
    + destruct (String.eqb_spec k k'); [contradiction | auto].
Qed.

Lemma own_lookup_update_ne k k' v own :
  k' <> k -> own_lookup k' (own_update k v own) = own_lookup k' own.
Proof.
  intros Hne. induction own as [|[k0 v0] own IH]; cbn; [reflexivity|].
  destruct (String.eqb_spec k k0) as [->|Hk]; cbn.
  - destruct (String.eqb_spec k' k0); [contradiction | reflexivity].
  - destruct (String.eqb_spec k' k0); [reflexivity | exact IH].
Qed.

Lemma own_keys_update k v own : own_keys (own_update k v own) = own_keys own.
Proof.
  induction own as [|[k0 v0] own IH]; cbn; [reflexivity|].
  destruct (String.eqb k k0); cbn; [reflexivity | now f_equal].
Qed.

Lemma own_lookup_app_eq k v own :
  own_lookup k own = None -> own_lookup k (own ++ [(k, v)]) = Some v.
Proof.
  induction own as [|[k0 v0] own IH]; cbn.
  - now rewrite String.eqb_refl.
  - destruct (String.eqb k k0); [discriminate | exact IH].
Qed.

Lemma own_lookup_app_ne k k' v own :
  k' <> k -> own_lookup k' (own ++ [(k, v)]) = own_lookup k' own.
Proof.
  intros Hne. induction own as [|[k0 v0] own IH]; cbn.
  - destruct (String.eqb_spec k' k); [contradiction | reflexivity].
  - destruct (String.eqb k' k0); [reflexivity | exact IH].
Qed.

Lemma own_lookup_delete_eq k own : own_lookup k (own_delete k own) = None.
Proof.
  induction own as [|[k0 v0] own IH]; cbn; [reflexivity|].
  destruct (String.eqb_spec k k0) as [->|Hne]; cbn; [exact IH|].
  destruct (String.eqb_spec k k0); [contradiction | exact IH].
Qed.

Lemma own_lookup_delete_ne k k' own :
  k' <> k -> own_lookup k' (own_delete k own) = own_lookup k' own.
Proof.
  intros Hne. induction own as [|[k0 v0] own IH]; cbn; [reflexivity|].
  destruct (String.eqb_spec k k0) as [->|Hk]; cbn.
  - destruct (String.eqb_spec k' k0); [contradiction | exact IH].
  - destruct (String.eqb k' k0); [reflexivity | exact IH].
Qed.

Lemma own_delete_absent k own :
  own_lookup k own = None -> own_delete k own = own.
Proof.
  induction own as [|[k0 v0] own IH]; cbn; [reflexivity|].
  destruct (String.eqb k k0); [discriminate|]. intros H. f_equal. auto.
Qed.

Lemma Object_prototype_get_truthy k :
  truthy (Object_prototype_get ObjectPrototype k) = inherited k.
Proof.
  unfold Object_prototype_get, inherited.
  destruct (String.eqb k "__proto__"); [reflexivity|].
  now destruct (mem_string k Object_prototype_methods).
Qed.

Lemma js_get_object k own :
  js_get (object own) k
  = Returns (match own_lookup k own with
             | Some v => v
             | None => Object_prototype_get ObjectPrototype k
             end).
Proof. unfold object; cbn. now destruct (own_lookup k own). Qed.

Lemma JSON_parse_nonempty text :
  is_Some (JSON_parse text) -> String.eqb text EmptyString = false.
Proof. destruct text; [intros [v Hv]; discriminate | reflexivity]. Qed.

End ObjectFacts.

(* --------------------------------------------------------------------- *)
(** ** AbiManager *)

Section AbiManagerFacts.
Import AbiManager.

(** The assignment [savedAbis[name] = content] on an ordinary object. *)
Lemma js_assign_text own name text :
  exists own',
    js_assign (object own) name (VString text) = Returns (object own').
Proof.
  unfold js_assign, object; cbn [is_ObjectPrototype ObjectPrototype].
  destruct (own_lookup name own); [eauto|].
  change (String.eqb "Object.prototype" "Object.prototype") with true.
  cbn iota. destruct (String.eqb name "__proto__"); cbn; eauto.
Qed.

(** On an ordinary [savedAbis] object [saveAbi] throws exactly when the text
    is not JSON or the store refuses the write of the new object, and it
    throws nothing but the invalid-format error. *)
Lemma saveAbi_throws_iff own s name text o :
  js_assign (object own) name (VString text) = Returns o ->
  (fst (saveAbi name text (mk (object own) s)) = Throws invalid_format
   <-> JSON_parse text = None \/ Storage.accepts storageKey o s = false) /\
  (fst (saveAbi name text (mk (object own) s)) = Returns true
   <-> is_Some (JSON_parse text) /\ Storage.accepts storageKey o s = true).
Proof.
  intros Ho. unfold saveAbi; cbn [savedAbis storage]. rewrite Ho.
  destruct (JSON_parse text) as [v|].
  2:{ cbn. split; split; auto; try discriminate.
      intros [[x Hx] _]. discriminate. }
  destruct (Storage.accepts storageKey o s) eqn:Ha.
  - rewrite (setItem_accepts _ _ _ Ha). cbn. split; split.
    + discriminate.
    + intros [H|H]; discriminate.
    + intros _. split; [eauto | reflexivity].
    + reflexivity.
  - destruct (setItem_refuses _ _ _ Ha) as [e ->]. cbn. split; split.
    + auto.
    + reflexivity.
    + discriminate.
    + intros [_ H]. discriminate.
Qed.

Lemma saveAbi_invalid own s name text :
  JSON_parse text = None ->
  saveAbi name text (mk (object own) s) = (Throws invalid_format, mk (object own) s).
Proof. unfold saveAbi. now intros ->. Qed.

(** What a successful [saveAbi] leaves behind for a name that is an own
    property already, or is not the inherited accessor. *)
Lemma saveAbi_stores own s name text :
  is_Some (JSON_parse text) ->
  is_Some (own_lookup name own) \/ name <> "__proto__" ->
  saveAbi name text (mk (object own) s)
  = if Storage.accepts storageKey
         (object (own_define name (VString text) own)) s
    then (Returns true,
          mk (object (own_define name (VString text) own))
             (<[storageKey := object (own_define name (VString text) own)]> s))
    else (Throws invalid_format,
          mk (object (own_define name (VString text) own)) s).
Proof.
  intros [v Hv] Hname.
  assert (Ho : js_assign (object own) name (VString text)
               = Returns (object (own_define name (VString text) own))).
  { unfold js_assign, own_define, object;
      cbn [is_ObjectPrototype ObjectPrototype].
    destruct (own_lookup name own) as [v0|] eqn:Hl; [reflexivity|].
    change (String.eqb "Object.prototype" "Object.prototype") with true.
    cbn iota. destruct Hname as [[x Hx]|Hne]; [discriminate|].
    destruct (String.eqb_spec name "__proto__"); [contradiction | reflexivity]. }
  unfold saveAbi; cbn [savedAbis storage]. rewrite Hv, Ho.
  destruct (Storage.accepts storageKey
              (object (own_define name (VString text) own)) s) eqn:Ha.
  - now rewrite (setItem_accepts _ _ _ Ha).
  - destruct (setItem_refuses _ _ _ Ha) as [e ->]. reflexivity.
Qed.

Lemma saveAbi_savedAbis own s name text :
  is_Some (JSON_parse text) ->
  is_Some (own_lookup name own) \/ name <> "__proto__" ->
  savedAbis (snd (saveAbi name text (mk (object own) s)))
  = object (own_define name (VString text) own).
Proof.
  intros Hv Hname. rewrite saveAbi_stores by assumption.
  now destruct (Storage.accepts _ _ s).
Qed.

Lemma own_lookup_define_eq k v own : own_lookup k (own_define k v own) = Some v.
Proof.
  unfold own_define. destruct (own_lookup k own) eqn:Hl.
  - apply own_lookup_update_eq. rewrite Hl. eauto.
  - now apply own_lookup_app_eq.
Qed.

Lemma own_lookup_define_ne k k' v own :
  k' <> k -> own_lookup k' (own_define k v own) = own_lookup k' own.
Proof.
  intros Hne. unfold own_define. destruct (own_lookup k own).
  - now apply own_lookup_update_ne.
  - now apply own_lookup_app_ne.
Qed.

(** The round trip holds for every name but the inherited accessor. *)
Lemma saveAbi_getAbiByName own s name text :
  is_Some (JSON_parse text) ->
  is_Some (own_lookup name own) \/ name <> "__proto__" ->
  getAbiByName name (snd (saveAbi name text (mk (object own) s)))
  = Returns (VString text).
Proof.
  intros Hv Hname. unfold getAbiByName.
  rewrite saveAbi_savedAbis by assumption. rewrite js_get_object.
  rewrite own_lookup_define_eq. cbn.
  unfold js_or; cbn. now rewrite (JSON_parse_nonempty text Hv).
Qed.

(** C7.  Saving valid JSON under a name that is already saved leaves the new
    text under that name, every other name as it was, and the list of saved
    names (hence its length) unchanged; this holds of [savedAbis] whether or
    not the store accepts the write.  When it does, the answer is [true] and
    the persisted document is the new object; when it does not, the
    invalid-format error is thrown and the store is as it was. *)
Theorem saveAbi_overwrites (own : props) (s : Storage.localStorage)
    (name text : string) :
  In name (own_keys own) ->
  is_Some (JSON_parse text) ->
  let st := mk (object own) s in
  let r := saveAbi name text st in
  savedAbis (snd r) = object (own_update name (VString text) own) /\
  getAbiByName name (snd r) = Returns (VString text) /\
  (forall other, other <> name ->
     js_get (savedAbis (snd r)) other = js_get (savedAbis st) other /\
     getAbiByName other (snd r) = getAbiByName other st) /\
  (exists names names',
     getSavedAbisList st = Returns names /\
     getSavedAbisList (snd r) = Returns names' /\
     names' = names /\ length names' = length names) /\
  (Storage.accepts storageKey (savedAbis (snd r)) s = true ->
     fst r = Returns true /\
     Storage.getItem storageKey (storage (snd r)) = Some (savedAbis (snd r))) /\
  (Storage.accepts storageKey (savedAbis (snd r)) s = false ->
     fst r = Throws invalid_format /\ storage (snd r) = s).
Proof.
  intros Hin Hv st r.
  assert (Hown : is_Some (own_lookup name own)) by now apply own_lookup_In.
  assert (Hdefine : own_define name (VString text) own
                    = own_update name (VString text) own).
  { unfold own_define. now destruct Hown as [v0 ->]. }
  assert (Hr : r = if Storage.accepts storageKey
                        (object (own_update name (VString text) own)) s
                   then (Returns true,
                         mk (object (own_update name (VString text) own))
                            (<[storageKey :=
                                 object (own_update name (VString text) own)]> s))
                   else (Throws invalid_format,
                         mk (object (own_update name (VString text) own)) s)).
  { subst r st. rewrite saveAbi_stores by auto. now rewrite Hdefine. }
  assert (Hsaved : savedAbis (snd r)
                   = object (own_update name (VString text) own)).
  { rewrite Hr. now destruct (Storage.accepts _ _ s). }
  split; [exact Hsaved|].
  split; [subst r st; apply saveAbi_getAbiByName; auto|].
  split.
  { intros other Hne. unfold getAbiByName. rewrite Hsaved. cbn [savedAbis st].
    rewrite !js_get_object, own_lookup_update_ne by assumption. auto. }
  split.
  { exists (own_keys own), (own_keys own).
    split; [reflexivity|]. split; [|split; reflexivity].
    unfold getSavedAbisList. rewrite Hsaved. cbn. now rewrite own_keys_update. }
  rewrite Hsaved. split; intros Ha; rewrite Hr, Ha; cbn [fst snd storage savedAbis].
  - split; [reflexivity|]. apply lookup_written_eq.
  - split; reflexivity.
Qed.

Lemma saveAbi_overwrites_witness :
  In "Token" (own_keys [("Token", VString "[]"); ("Other", VString "{}")]) /\
  is_Some (JSON_parse "[1]") /\
  getAbiByName "Token"
    (snd (saveAbi "Token" "[1]"
            (mk (object [("Token", VString "[]"); ("Other", VString "{}")]) ∅)))
  = Returns (VString "[1]").
Proof.
  assert (Hin : In "Token"
            (own_keys [("Token", VString "[]"); ("Other", VString "{}")]))
    by (left; reflexivity).
  assert (Hv : is_Some (JSON_parse "[1]")) by (eexists; reflexivity).
  split; [exact Hin|]. split; [exact Hv|].
  exact (proj1 (proj2
    (saveAbi_overwrites [("Token", VString "[]"); ("Other", VString "{}")] ∅
       "Token" "[1]" Hin Hv))).
Defined.

(** C2.  Saved under the name [__proto__] on a fresh manager, a JSON array is
    accepted ([saveAbi] answers [true]) but the assignment reaches the
    inherited accessor, which ignores a string; [getAbiByName] then answers
    with [Object.prototype], not with the text. *)
Theorem saveAbi_proto_lost :
  validateAbi "[]" = true /\
  fst (saveAbi "__proto__" "[]" (constructor ∅)) = Returns true /\
  getAbiByName "__proto__" (snd (saveAbi "__proto__" "[]" (constructor ∅)))
  = Returns ObjectPrototype /\
  getSavedAbisList (snd (saveAbi "__proto__" "[]" (constructor ∅)))
  = Returns [].
Proof. repeat split. Qed.

(** C6.  A non-array JSON text is accepted although [validateAbi] rejects it;
    under the name [__proto__] it is accepted and yet nothing is stored,
    neither in [savedAbis] nor in the persisted document. *)
Theorem saveAbi_proto_not_stored :
  JSON_parse "{}" = Some (object []) /\
  validateAbi "{}" = false /\
  fst (saveAbi "Token" "{}" (constructor ∅)) = Returns true /\
  savedAbis (snd (saveAbi "Token" "{}" (constructor ∅)))
  = object [("Token", VString "{}")] /\
  fst (saveAbi "__proto__" "{}" (constructor ∅)) = Returns true /\
  savedAbis (snd (saveAbi "__proto__" "{}" (constructor ∅))) = object [] /\
  Storage.getItem storageKey (storage (snd (saveAbi "__proto__" "{}" (constructor ∅))))
  = Some (object []).
Proof. repeat split. Qed.

(** [validateAbi] answers [true] exactly for a text that parses to an array. *)
Lemma validateAbi_true_iff text :
  validateAbi text = true <-> exists xs, JSON_parse text = Some (VArray xs).
Proof.
  unfold validateAbi. destruct (JSON_parse text) as [v|].
  - destruct v; cbn; split; try discriminate; eauto;
      intros [xs Hxs]; discriminate.
  - split; [discriminate | intros [xs Hxs]; discriminate].
Qed.

(** [deleteAbi] on an ordinary object, by the three kinds of name. *)
Lemma deleteAbi_absent own s name :
  own_lookup name own = None ->
  inherited name = false ->
  deleteAbi name (mk (object own) s) = (Returns false, mk (object own) s).
Proof.
  intros Hl Hinh. unfold deleteAbi; cbn [savedAbis].
  rewrite js_get_object, Hl, Object_prototype_get_truthy, Hinh. reflexivity.
Qed.

Lemma deleted_savedAbis o s : savedAbis (snd (deleted o s)) = o.
Proof. unfold deleted. now destruct (Storage.setItem storageKey o s). Qed.

Lemma deleted_accepts o s :
  Storage.accepts storageKey o s = true ->
  deleted o s = (Returns true, mk o (<[storageKey := o]> s)).
Proof. intros Ha. unfold deleted. now rewrite (setItem_accepts _ _ _ Ha). Qed.

Lemma deleted_refuses o s :
  Storage.accepts storageKey o s = false ->
  exists e, deleted o s = (Throws e, mk o s).
Proof.
  intros Ha. unfold deleted.
  destruct (setItem_refuses _ _ _ Ha) as [e ->]. eauto.
Qed.

Lemma deleteAbi_inherited own s name :
  own_lookup name own = None ->
  inherited name = true ->
  deleteAbi name (mk (object own) s) = deleted (object own) s.
Proof.
  intros Hl Hinh. unfold deleteAbi, deleted; cbn [savedAbis storage].
  rewrite js_get_object, Hl, Object_prototype_get_truthy, Hinh.
  unfold object; cbn. now rewrite own_delete_absent.
Qed.

Lemma deleteAbi_present own s name v :
  own_lookup name own = Some v ->
  truthy v = true ->
  deleteAbi name (mk (object own) s) = deleted (object (own_delete name own)) s.
Proof.
  intros Hl Hv. unfold deleteAbi, deleted; cbn [savedAbis storage].
  rewrite js_get_object, Hl, Hv. reflexivity.
Qed.

Lemma own_update_Forall (P : string * value -> Prop) k v own :
  (forall k', P (k', v)) -> Forall P own -> Forall P (own_update k v own).
Proof.
  intros Hv. induction 1 as [|[k0 v0] own H0 Hown IH]; cbn; [constructor|].
  destruct (String.eqb k k0); constructor; auto.
Qed.

Lemma own_delete_Forall (P : string * value -> Prop) k own :
  Forall P own -> Forall P (own_delete k own).
Proof.
  induction 1 as [|[k0 v0] own H0 Hown IH]; cbn; [constructor|].
  destruct (String.eqb k k0); [assumption | constructor; auto].
Qed.

(** Every state the class reaches is well formed. *)
Lemma reachable_well_formed st : reachable st -> well_formed st.
Proof.
  induction 1 as [s|name content st Hr IH|name st Hr IH].
  - exists []. split; [reflexivity | constructor].
  - destruct IH as (own & Hown & Hall).
    destruct st as [saved s]; cbn in Hown; subst saved.
    destruct (JSON_parse content) as [parsed|] eqn:Hparse.
    2:{ unfold saveAbi. rewrite Hparse. exists own. auto. }
    assert (Hentry : forall k' : string,
      exists text, snd (k', VString content) = VString text
                   /\ is_Some (JSON_parse text)).
    { intros k'. exists content. rewrite Hparse. eauto. }
    assert (Hv : is_Some (JSON_parse content)) by (rewrite Hparse; eauto).
    destruct (own_lookup name own) as [v0|] eqn:Hl.
    + exists (own_define name (VString content) own).
      split; [apply saveAbi_savedAbis; [exact Hv | left; rewrite Hl; eauto]|].
      unfold own_define. rewrite Hl. now apply own_update_Forall.
    + destruct (String.eqb_spec name "__proto__") as [->|Hne].
      * exists own. split; [|exact Hall].
        unfold saveAbi. rewrite Hparse. cbn [savedAbis storage].
        unfold js_assign, object; cbn [is_ObjectPrototype ObjectPrototype].
        rewrite Hl.
        change (String.eqb "Object.prototype" "Object.prototype") with true.
        cbn.
        now destruct (Storage.setItem storageKey (VObject ObjectPrototype own) s).
      * exists (own_define name (VString content) own).
        split; [apply saveAbi_savedAbis; [exact Hv | now right]|].
        unfold own_define. rewrite Hl.
        apply Forall_app. split; [assumption|]. constructor; [|constructor].
        apply (Hentry name).
  - destruct IH as (own & Hown & Hall).
    destruct st as [saved s]; cbn in Hown; subst saved.
    destruct (own_lookup name own) as [v|] eqn:Hl.
    + destruct (truthy v) eqn:Hv.
      * rewrite (deleteAbi_present own s name v Hl Hv).
        eexists. split; [apply deleted_savedAbis|]. now apply own_delete_Forall.
      * unfold deleteAbi; cbn [savedAbis]. rewrite js_get_object, Hl, Hv.
        exists own. auto.
    + destruct (inherited name) eqn:Hi.
      * rewrite (deleteAbi_inherited own s name Hl Hi). exists own.
        split; [apply deleted_savedAbis | exact Hall].
      * rewrite (deleteAbi_absent own s name Hl Hi). exists own. auto.
Qed.

Lemma saved_text_truthy own name v :
  Forall (fun entry : string * value => exists text,
            snd entry = VString text /\ is_Some (JSON_parse text)) own ->
  own_lookup name own = Some v ->
  truthy v = true.
Proof.
  induction 1 as [|[k0 v0] own (text & Htext & Hparse) Hown IH]; cbn;
    [discriminate|].
  destruct (String.eqb name k0); [|exact IH].
  intros Hv. inversion Hv; subst v0. cbn in Htext. subst v. cbn.
  now rewrite (JSON_parse_nonempty text Hparse).
Qed.

(** In a reachable state a saved name is deleted: the entry is gone from
    [savedAbis] and every other name reads as before; the answer is [true],
    with the new object persisted, when the store accepts the write, and the
    exception of the write otherwise. *)
Lemma deleteAbi_saved st names name :
  reachable st ->
  getSavedAbisList st = Returns names ->
  In name names ->
  exists own,
    savedAbis st = object own /\
    deleteAbi name st = deleted (object (own_delete name own)) (storage st) /\
    savedAbis (snd (deleteAbi name st)) = object (own_delete name own) /\
    (Storage.accepts storageKey (object (own_delete name own)) (storage st)
     = true ->
     deleteAbi name st
     = (Returns true,
        mk (object (own_delete name own))
           (<[storageKey := object (own_delete name own)]> (storage st)))) /\
    own_lookup name (own_delete name own) = None /\
    forall other, other <> name ->
      own_lookup other (own_delete name own) = own_lookup other own.
Proof.
  intros Hr Hnames Hin.
  destruct (reachable_well_formed st Hr) as (own & Hown & Hall).
  exists own. split; [exact Hown|].
  destruct st as [saved s]; cbn in Hown; subst saved.
  cbn in Hnames. inversion Hnames; subst names.
  apply own_lookup_In in Hin as [v Hv].
  assert (Htruthy : truthy v = true) by exact (saved_text_truthy own name v Hall Hv).
  pose proof (deleteAbi_present own s name v Hv Htruthy) as Hdel.
  cbn [storage]. split; [exact Hdel|].
  split; [rewrite Hdel; apply deleted_savedAbis|].
  split; [intros Ha; rewrite Hdel; now apply deleted_accepts|].
  split; [apply own_lookup_delete_eq|].
  intros other Hne. now apply own_lookup_delete_ne.
Qed.

(** C10.  On a fresh manager no name is saved, yet [deleteAbi] answers [true]
    for the inherited name [toString] (and rewrites the persisted document),
    where a name that is not saved should answer [false]. *)
Theorem deleteAbi_inherited_name :
  getSavedAbisList (constructor ∅) = Returns [] /\
  fst (deleteAbi "toString" (constructor ∅)) = Returns true /\
  savedAbis (snd (deleteAbi "toString" (constructor ∅))) = object [] /\
  Storage.getItem storageKey (storage (snd (deleteAbi "toString" (constructor ∅))))
  = Some (object []) /\
  fst (deleteAbi "Token" (constructor ∅)) = Returns false.
Proof. repeat split. Qed.

End AbiManagerFacts.

(* --------------------------------------------------------------------- *)
(** ** The static file server *)

Section ServerFacts.
Import Server.

(** Every pair the backwards scan visits is a character of the path at its
    index. *)
Lemma indexed_backwards_In (P : Z -> ascii -> Prop) path : forall i acc,
  (forall j c, In (j, c) acc -> P j c) ->
  (forall k c, String.get k path = Some c -> P (i + Z.of_nat k) c) ->
  forall j c, In (j, c) (indexed_backwards path i acc) -> P j c.
Proof.
  induction path as [|a path IH]; intros i acc Hacc Hpath j c; cbn.
  - apply Hacc.
  - apply IH.
    + intros j' c' [Heq|Hin]; [|now apply Hacc].
      inversion Heq; subst. specialize (Hpath 0%nat c' eq_refl).
      now rewrite Z.add_0_r in Hpath.
    + intros k c' Hk. specialize (Hpath (S k) c' Hk).
      now replace (i + 1 + Z.of_nat k) with (i + Z.of_nat (S k)) by lia.
Qed.

Lemma scan_step_dot_at path st i c :
  0 <= i -> String.get (Z.to_nat i) path = Some c ->
  dot_at path st -> dot_at path (scan_step st i c).
Proof.
  intros Hi Hget Hst. unfold scan_step.
  destruct (stopped st); [assumption|].
  destruct (Nat.eqb_spec (nat_of_ascii c) 47).
  { destruct (negb (matchedSlash st)); assumption. }
  set (st1 := if end_ st =? -1 then _ else st).
  assert (H1 : dot_at path st1) by (subst st1; destruct (end_ st =? -1); assumption).
  destruct (Nat.eqb_spec (nat_of_ascii c) 46) as [Hdot|Hnot].
  - destruct (startDot st1 =? -1).
    + right; cbn. split; [assumption|].
      rewrite Hget. f_equal. rewrite <- (ascii_nat_embedding c), Hdot. reflexivity.
    + destruct (negb (preDotState st1 =? 1)); assumption.
  - destruct (negb (startDot st1 =? -1)); assumption.
Qed.

Lemma fold_scan_dot_at path : forall l st,
  (forall j c, In (j, c) l ->
     0 <= j /\ String.get (Z.to_nat j) path = Some c) ->
  dot_at path st ->
  dot_at path (fold_left (fun st ic => scan_step st (fst ic) (snd ic)) l st).
Proof.
  induction l as [|[j c] l IH]; intros st Hl Hst; cbn; [assumption|].
  apply IH.
  - intros j' c' Hin. apply Hl. now right.
  - destruct (Hl j c (or_introl eq_refl)). now apply scan_step_dot_at.
Qed.

Lemma substring_head n : forall m s,
  String.substring n m s = EmptyString \/
  exists c r, String.get n s = Some c /\ String.substring n m s = String c r.
Proof.
  induction n as [|n IH]; intros m s.
  - destruct m, s; cbn; eauto.
  - destruct s as [|a s]; cbn; [now left | apply IH].
Qed.

(** The extension is empty or begins with a dot. *)
Lemma extname_shape path :
  extname path = EmptyString \/ exists r, extname path = String "."%char r.
Proof.
  unfold extname.
  set (final := fold_left _ _ _).
  assert (Hdot : dot_at path final).
  { apply fold_scan_dot_at; [|now left].
    apply (indexed_backwards_In
             (fun j c => 0 <= j /\ String.get (Z.to_nat j) path = Some c)).
    - intros j c [].
    - intros k c Hk. split; [lia|]. now rewrite Z.add_0_l, Nat2Z.id. }
  destruct (Z.eqb_spec (startDot final) (-1)) as [|Hne]; [now left|].
  cbn [orb].
  match goal with |- (if ?b then _ else _) = _ \/ _ => destruct b end;
    [now left|].
  destruct Hdot as [|[H0 Hget]]; [contradiction|].
  destruct (substring_head (Z.to_nat (startDot final))
              (Z.to_nat (end_ final - startDot final)) path)
    as [->|(c & r & Hc & ->)]; [now left|].
  right. exists r. congruence.
Qed.

(** No extension is the name of an inherited property. *)
Lemma extname_not_inherited path : inherited (extname path) = false.
Proof.
  destruct (extname_shape path) as [->|[r ->]]; [reflexivity|].
  unfold inherited, mem_string, Object_prototype_methods. cbn.
  reflexivity.
Qed.

(** The content type is the table's entry for the extension of the resolved
    path, and [text/plain] when the table has none. *)
Lemma contentType_table filePath :
  contentType filePath
  = match own_lookup (extname filePath) MIME_TYPES with
    | Some type => type
    | None => VString "text/plain"
    end.
Proof.
  unfold contentType. rewrite js_get_object.
  destruct (own_lookup (extname filePath) MIME_TYPES) as [v|] eqn:Hl.
  - (* every entry of the table is a non-empty string *)
    unfold MIME_TYPES in Hl. cbn in Hl.
    repeat match type of Hl with
           | (if ?b then _ else _) = _ => destruct b; [now inversion Hl|]
           end.
    discriminate.
  - unfold js_or.
    now rewrite Object_prototype_get_truthy, extname_not_inherited.
Qed.





End ServerFacts.

(* --------------------------------------------------------------------- *)
(** ** ContractInteractor: the list of callable functions *)

Section FunctionListFacts.
Import ContractInteractor Reference.

Lemma js_get_readable item k :
  readable item = true ->
  mem_string k field_names = true ->
  js_get item k = Returns (field item k).
Proof.
  intros Hr Hk. unfold field.
  destruct item as [| |b|m e|s|n|xs|proto own|name];
    cbn [readable] in Hr; try discriminate;
    unfold js_get; rewrite ?Hk; try reflexivity.
  destruct (own_lookup k own); [reflexivity|].
  destruct (is_ObjectPrototype proto); [reflexivity|].
  destruct proto; try discriminate; reflexivity.
Qed.

Lemma is_function_entry_readable item :
  readable item = true ->
  is_function_entry item = Returns (function_entry item).
Proof.
  intros Hr. unfold is_function_entry, function_entry.
  now rewrite (js_get_readable item "type" Hr eq_refl).
Qed.

Lemma descriptor_readable item :
  readable item = true -> descriptor item = Returns (descriptor_of item).
Proof.
  intros Hr. unfold descriptor, descriptor_of.
  rewrite (js_get_readable item "name" Hr eq_refl),
          (js_get_readable item "stateMutability" Hr eq_refl),
          (js_get_readable item "inputs" Hr eq_refl),
          (js_get_readable item "outputs" Hr eq_refl),
          (js_get_readable item "constant" Hr eq_refl),
          (js_get_readable item "payable" Hr eq_refl).
  cbn. unfold js_or. now destruct (truthy (field item "payable")).
Qed.

(** A callback that always returns makes the loops the list functions. *)
Lemma Array_filter_pure f g xs :
  Forall (fun x => f x = Returns (g x)) xs ->
  Array_filter f xs = Returns (List.filter g xs).
Proof.
  induction 1 as [|x xs Hx Hxs IH]; cbn; [reflexivity|].
  rewrite Hx, IH. cbn. now destruct (g x).
Qed.

Lemma Array_map_from_pure {A} (f : value -> nat -> outcome A) g xs :
  Forall (fun x => forall i, f x i = Returns (g x)) xs ->
  forall i, Array_map_from f i xs = Returns (map g xs).
Proof.
  induction 1 as [|x xs Hx Hxs IH]; intros i; cbn; [reflexivity|].
  now rewrite Hx, IH.
Qed.

Lemma filter_partition_length {A} (g : A -> bool) xs :
  (length (List.filter g xs)
   + length (List.filter (fun x => negb (g x)) xs) = length xs)%nat.
Proof.
  induction xs as [|x xs IH]; cbn; [reflexivity|].
  destruct (g x); cbn; lia.
Qed.

(** C4.  For an ABI array of readable entries, of which [N] have the type
    [function] and [M] any other, [getAvailableFunctions] returns exactly
    [N] descriptors: the descriptors of the function entries, in the order
    of the ABI, each with name, mutability, inputs, outputs, constant and
    payable flag. *)
Theorem getAvailableFunctions_descriptors (st : state) (items : list value)
    (N M : nat) :
  abi st = VArray items ->
  Forall (fun item => readable item = true) items ->
  length (List.filter function_entry items) = N ->
  length (List.filter (fun item => negb (function_entry item)) items) = M ->
  exists descriptors,
    getAvailableFunctions st = Returns (VArray descriptors) /\
    length descriptors = N /\
    (N + M)%nat = length items /\
    descriptors = map descriptor_of (List.filter function_entry items).
Proof.
  intros Habi Hread HN HM.
  exists (map descriptor_of (List.filter function_entry items)).
  split; [|split; [|split]].
  - unfold getAvailableFunctions. rewrite Habi. cbn [truthy negb].
    rewrite (Array_filter_pure is_function_entry function_entry).
    + cbn. unfold Array_map.
      rewrite (Array_map_from_pure (fun func _ => descriptor func) descriptor_of);
        [reflexivity|].
      apply List.Forall_forall. intros x Hx i. apply descriptor_readable.
      apply List.filter_In in Hx. destruct Hx as [Hx _].
      rewrite List.Forall_forall in Hread. now apply Hread.
    + eapply List.Forall_impl; [|exact Hread].
      intros x Hx. now apply is_function_entry_readable.
  - now rewrite length_map.
  - subst N M. apply filter_partition_length.
  - reflexivity.
Qed.

Lemma getAvailableFunctions_descriptors_witness :
  getAvailableFunctions (mk (VString "0xAbC1230000000000000000000000000000000000")
                            (VArray sample_abi) None None)
  = Returns (VArray (map descriptor_of
                       (List.filter function_entry sample_abi))) /\
  length (List.filter function_entry sample_abi) = 2%nat.
Proof.
  split; [|reflexivity].
  destruct (getAvailableFunctions_descriptors
              (mk (VString "0xAbC1230000000000000000000000000000000000")
                  (VArray sample_abi) None None)
              sample_abi 2 1 eq_refl
              ltac:(repeat constructor) eq_refl eq_refl)
    as (descriptors & Hget & _ & _ & ->).
  exact Hget.
Defined.

(** An entry that is [null] makes the filter throw. *)
Example getAvailableFunctions_null_entry :
  getAvailableFunctions (mk VNull (VArray [VNull]) None None) = Throws TypeError.
Proof. reflexivity. Qed.

End FunctionListFacts.

(* --------------------------------------------------------------------- *)
(** ** ContractInteractor: the dispatch policy *)

Section DispatchFacts.
Import ContractInteractor Reference.

Lemma _initializeContract_coherent env st :
  coherent st -> coherent (snd (_initializeContract env st)).
Proof.
  intros Hc. unfold _initializeContract.
  destruct (negb (truthy (contractAddress st)) || negb (truthy (abi st)));
    [exact Hc|].
  destruct (negb (truthy (provider env))); [exact Hc|].
  destruct (Contract_builds env (contractAddress st) (abi st)); [|exact Hc].
  destruct Hc as [_ Hs].
  assert (Hkept : match contractWithSigner st with
                  | Some (ReadOnly _ _) => False
                  | Some (SignerBacked _ _) =>
                      is_Some (Some (ReadOnly (contractAddress st) (abi st)))
                  | None => True
                  end).
  { destruct (contractWithSigner st) as [[|]|];
      [exact Hs | eexists; reflexivity | exact I]. }
  destruct (truthy (signer env)); [destruct (connects env)|];
    cbn [snd]; unfold coherent; cbn [contract contractWithSigner];
    (split; [exact I|]); [eexists; reflexivity | exact Hkept | exact Hkept].
Qed.

(** Every state the class reaches has coherent handles. *)
Lemma reachable_coherent st : reachable st -> coherent st.
Proof.
  induction 1 as [|env address st Hr IH|env new_abi st Hr IH].
  - split; exact I.
  - unfold setContractAddress. destruct (negb (isAddress env address)); cbn [snd].
    + exact IH.
    + apply _initializeContract_coherent. exact IH.
  - unfold setAbi.
    destruct new_abi; try (cbn [snd]; apply _initializeContract_coherent; exact IH).
    destruct (JSON_parse s); cbn [snd];
      [apply _initializeContract_coherent|]; exact IH.
Qed.

Lemma ready_read_binding st :
  isContractReady st = true -> coherent st ->
  exists address abi, contract st = Some (ReadOnly address abi).
Proof.
  unfold isContractReady, coherent. intros Hready [Hc Hs].
  apply andb_true_iff in Hready as [_ Hany].
  destruct (contract st) as [[a b|a b]|]; [eauto | contradiction|].
  destruct (contractWithSigner st) as [[|]|]; cbn in Hany.
  - contradiction.
  - destruct Hs; discriminate.
  - discriminate.
Qed.

Lemma isReadOnly_readable fd :
  readable fd = true ->
  exists v, isReadOnly fd = Returns v /\ truthy v = read_only fd.
Proof.
  intros Hr. unfold isReadOnly, read_only.
  rewrite (js_get_readable fd "stateMutability" Hr eq_refl),
          (js_get_readable fd "constant" Hr eq_refl). cbn.
  destruct (strict_eq_string (field fd "stateMutability") "view");
    [eexists; split; reflexivity|].
  destruct (strict_eq_string (field fd "stateMutability") "pure");
    eexists; split; reflexivity.
Qed.

Lemma isPayable_readable fd :
  readable fd = true -> exists v, isPayable fd = Returns v.
Proof.
  intros Hr. unfold isPayable.
  rewrite (js_get_readable fd "stateMutability" Hr eq_refl),
          (js_get_readable fd "payable" Hr eq_refl). cbn.
  destruct (strict_eq_string (field fd "stateMutability") "payable"); eauto.
Qed.

(** C3, as amended.  On a ready binding, for the entry [getFunctionDetails]
    finds: once the parameters are pre-processed, a read-only function (view,
    pure or legacy constant) is called through the read-only handle, whatever
    [contractWithSigner] holds; a nonpayable function without the constant
    flag, when there is no signer-backed handle, ends in the signer-required
    error and raises no event. *)
Theorem callFunction_dispatch (st : state) (functionName : string)
    (params : list value) (options funcDetails : value) :
  isContractReady st = true ->
  coherent st ->
  getFunctionDetails functionName st = Returns funcDetails ->
  truthy funcDetails = true ->
  readable funcDetails = true ->
  let processing := _processParams (field funcDetails "inputs") params in
  (read_only funcDetails = true ->
     exists address abi,
       contract st = Some (ReadOnly address abi) /\
       callFunction functionName params options st
       = after processing (fun processedParams =>
           await (Call (ReadOnly address abi) functionName processedParams)
             (fun result =>
                Done (_formatResult result (field funcDetails "outputs"))))) /\
  (field funcDetails "stateMutability" = VString "nonpayable" ->
   truthy (field funcDetails "constant") = false ->
   contractWithSigner st = None ->
   callFunction functionName params options st
   = after processing (fun _ => Done (Throws signer_required))).
Proof.
  intros Hready Hcoh Hfd Htruthy Hread processing.
  destruct (isReadOnly_readable funcDetails Hread) as (ro & Hro & Hro_truthy).
  destruct (isPayable_readable funcDetails Hread) as (pay & Hpay).
  assert (Hcall : callFunction functionName params options st
    = after processing (fun processedParams =>
        if truthy ro then
          match contract st with
          | None => Done (Throws TypeError)
          | Some read_binding =>
              await (Call read_binding functionName processedParams)
                (fun result =>
                   Done (_formatResult result (field funcDetails "outputs")))
          end
        else
          match contractWithSigner st with
          | None => Done (Throws signer_required)
          | Some signer_binding =>
              if truthy pay then
                after (js_get options "value") (fun supplied =>
                if truthy supplied then
                  after (js_toString supplied) (fun amount =>
                  await (ParseEther amount) (fun wei =>
                  send signer_binding functionName processedParams
                       [("value", wei)]))
                else send signer_binding functionName processedParams [])
              else send signer_binding functionName processedParams []
          end)).
  { unfold callFunction. rewrite Hready, Hfd. cbn [negb after].
    rewrite Htruthy, Hro, Hpay. cbn [negb after].
    rewrite (js_get_readable funcDetails "inputs" Hread eq_refl),
            (js_get_readable funcDetails "outputs" Hread eq_refl).
    reflexivity. }
  split.
  - intros Hreads.
    destruct (ready_read_binding st Hready Hcoh) as (address & abi0 & Hc).
    exists address, abi0. split; [exact Hc|].
    rewrite Hcall, Hro_truthy, Hreads, Hc. reflexivity.
  - intros Hm Hconst Hnone.
    assert (Hwrites : read_only funcDetails = false).
    { unfold read_only. rewrite Hm, Hconst. reflexivity. }
    rewrite Hcall, Hro_truthy, Hwrites, Hnone. reflexivity.
Qed.

Lemma token_state_coherent with_signer : coherent (token_state with_signer).
Proof.
  destruct with_signer; (split; [exact I|]); cbn; [eexists; reflexivity | exact I].
Qed.

Lemma callFunction_dispatch_witness :
  run (callFunction "balanceOf" [VString "0x1"] (object []) (token_state true))
      [Returns (VBigNumber 5)]
  = ([Call (ReadOnly sample_address (VArray sample_abi)) "balanceOf"
        [VString "0x1"]],
     Some (Returns (VString "5"))) /\
  callFunction "transfer" [VString "0x1"; VString "7"] (object [])
    (token_state false)
  = Done (Throws signer_required).
Proof.
  split.
  - destruct (proj1 (callFunction_dispatch (token_state true) "balanceOf"
                       [VString "0x1"] (object []) (nth 0 sample_abi VNull)
                       eq_refl (token_state_coherent true) eq_refl eq_refl
                       eq_refl) eq_refl)
      as (address & abi0 & Hc & Hcall).
    rewrite Hcall. inversion Hc; subst. reflexivity.
  - exact (proj2 (callFunction_dispatch (token_state false) "transfer"
                    [VString "0x1"; VString "7"] (object [])
                    (nth 2 sample_abi VNull)
                    eq_refl (token_state_coherent false) eq_refl eq_refl
                    eq_refl) eq_refl eq_refl eq_refl).
Defined.

(** C3, as stated, fails: a function declared [nonpayable] that carries the
    legacy [constant] flag is called through the read-only handle although no
    signer-backed handle exists; and a read-only function whose parameter
    pre-processing throws is not called at all. *)
Lemma callFunction_legacy_constant :
  reachable legacy_state /\
  isContractReady legacy_state = true /\
  contractWithSigner legacy_state = None /\
  getFunctionDetails "total" legacy_state = Returns (nth 0 legacy_abi VNull) /\
  field (nth 0 legacy_abi VNull) "stateMutability" = VString "nonpayable" /\
  run (callFunction "total" [VString "7"] (object []) legacy_state) []
  = ([Call (ReadOnly sample_address (VArray sample_abi)) "total" [VString "7"]],
     None) /\
  callFunction "total" [VString "7"] (object []) legacy_state
  <> Done (Throws signer_required) /\
  callFunction "total" [VNull] (object []) legacy_state = Done (Throws TypeError).
Proof.
  split; [unfold legacy_state; repeat constructor|].
  repeat (split; [reflexivity|]).
  split; [discriminate | reflexivity].
Qed.

End DispatchFacts.

(* --------------------------------------------------------------------- *)
(** ** ContractInteractor: the formatted result *)

Section FormatFacts.
Import ContractInteractor Reference.

Lemma _formatResult_BigNumber n outputDefinitions :
  _formatResult (VBigNumber n) outputDefinitions
  = Returns (VString (BigNumber_toString n)).
Proof. reflexivity. Qed.

(** A result that is neither a BigNumber nor an array is handed back. *)
Lemma _formatResult_scalar result outputDefinitions :
  isBigNumber result = false -> Array_isArray result = false ->
  _formatResult result outputDefinitions = Returns result.
Proof. destruct result; cbn; intros; try discriminate; reflexivity. Qed.

(** An array is handed back when the outputs are missing or at most one. *)
Lemma _formatResult_few elements outputDefinitions :
  match outputDefinitions with
  | VUndefined | VNull => True
  | VArray outputs => (length outputs <= 1)%nat
  | _ => False
  end ->
  _formatResult (VArray elements) outputDefinitions = Returns (VArray elements).
Proof.
  destruct outputDefinitions as [| |b|m e|s|n|outputs|proto own|name];
    try tauto; try reflexivity.
  intros Hlen. unfold _formatResult; cbn [truthy negb].
  destruct (Nat.ltb_spec 1 (length outputs)); [lia | reflexivity].
Qed.

(** One step of the loop files the output under its key. *)
Lemma format_output_named elements proto own output index :
  named output = true ->
  format_output elements (VObject proto own) output index
  = js_assign (VObject proto own) (output_key index output)
      (stringified (nth index elements VUndefined)).
Proof.
  unfold named, format_output, output_key. intros Hn.
  apply andb_true_iff in Hn as [Hr Hname].
  rewrite (js_get_readable output "name" Hr eq_refl). cbn.
  destruct (field output "name") as [| |b|m e|s|n|xs|proto' own'|name];
    try discriminate; try reflexivity.
  unfold js_or; cbn. destruct (String.eqb s EmptyString); reflexivity.
Qed.

Lemma own_lookup_not_In k own :
  ~ In k (own_keys own) -> own_lookup k own = None.
Proof.
  intros Hn. destruct (own_lookup k own) eqn:Hl; [|reflexivity].
  exfalso. apply Hn. apply own_lookup_In. rewrite Hl. eauto.
Qed.

(** With keys that differ from one another and from [__proto__], the loop
    appends one entry per output. *)
Lemma format_outputs_entries elements : forall outputs own index,
  Forall (fun output => named output = true) outputs ->
  NoDup (own_keys own ++ own_keys (entries elements index outputs)) ->
  ~ In "__proto__" (own_keys (entries elements index outputs)) ->
  format_outputs elements (object own) outputs index
  = Returns (object (own ++ entries elements index outputs)).
Proof.
  induction outputs as [|output rest IH]; intros own index Hnamed Hdup Hproto.
  - cbn. now rewrite app_nil_r.
  - inversion Hnamed as [|? ? Hn Hrest]; subst.
    cbn [format_outputs entries]. unfold object at 1.
    rewrite (format_output_named elements _ _ _ _ Hn).
    cbn [entries own_keys map fst] in Hdup, Hproto.
    assert (Hfresh : own_lookup (output_key index output) own = None).
    { apply own_lookup_not_In. intros Hin.
      apply NoDup_app in Hdup as (_ & Hdisj & _).
      apply (Hdisj (output_key index output)).
      - now apply list_elem_of_In.
      - left. }
    assert (Hne : String.eqb (output_key index output) "__proto__" = false).
    { apply String.eqb_neq. intros Heq. apply Hproto. now left. }
    unfold js_assign. rewrite Hfresh. cbn [is_ObjectPrototype String.eqb].
    change (is_ObjectPrototype ObjectPrototype) with true. cbn iota.
    rewrite Hne. cbn [mbind outcome_bind].
    change (VObject ObjectPrototype ?x) with (object x).
    rewrite IH.
    + now rewrite <- app_assoc.
    + exact Hrest.
    + unfold own_keys in *. rewrite map_app, <- app_assoc. exact Hdup.
    + intros Hin. apply Hproto. now right.
Qed.

(** What the specification says of the mapping holds whenever the keys of
    the outputs differ from one another and none is [__proto__]. *)
Lemma _formatResult_mapping elements outputs :
  (1 < length outputs)%nat ->
  Forall (fun output => named output = true) outputs ->
  NoDup (own_keys (entries elements 0 outputs)) ->
  ~ In "__proto__" (own_keys (entries elements 0 outputs)) ->
  _formatResult (VArray elements) (VArray outputs)
  = Returns (object (entries elements 0 outputs)).
Proof.
  intros Hlen Hnamed Hdup Hproto.
  unfold _formatResult; cbn [truthy negb].
  destruct (Nat.ltb_spec 1 (length outputs)); [|lia].
  now rewrite format_outputs_entries.
Qed.

(** C5.  With two outputs of which the first is named [__proto__], the
    result of [_formatResult] has no entry for the first output: the
    assignment reaches the inherited accessor, which ignores the string. *)
Theorem _formatResult_proto_output :
  _formatResult (VArray [VBigNumber 1; VBigNumber 2])
    (VArray [ object [("name", VString "__proto__"); ("type", VString "uint256")];
              object [("name", VString "b"); ("type", VString "uint256")] ])
  = Returns (object [("b", VString "2")]) /\
  _formatResult (VArray [VBigNumber 1; VBigNumber 2])
    (VArray [ object [("name", VString "a"); ("type", VString "uint256")];
              object [("name", VString EmptyString); ("type", VString "uint256")] ])
  = Returns (object [("a", VString "1"); ("output_1", VString "2")]).
Proof. split; reflexivity. Qed.

End FormatFacts.

(* ===================================================================== *)
(** * Part III: further properties of the code                            *)
(* ===================================================================== *)

(* --------------------------------------------------------------------- *)
(** ** HistoryManager: the store, the queries *)

Section HistoryCoverage.
Import HistoryManager.
Local Open Scope nat_scope.







Lemma reliable_accepts s key document :
  Storage.reliable s -> Storage.accepts key document s = true.
Proof. intros H. unfold Storage.accepts. now rewrite H. Qed.






(** X2.  Deleting index 0 right after an addition undoes it, except that an
    entry pushed out by the cap does not come back: what is left is the
    first 49 entries of the list before the addition. *)
Theorem add_then_delete_first (h : list value) (s : Storage.localStorage)
    (item : value) :
  fst (deleteHistoryItem 0 (snd (addToHistory item (mk h s)))) = true /\
  history (snd (deleteHistoryItem 0 (snd (addToHistory item (mk h s)))))
  = take 49 h /\
  (length h <= 49 ->
   history (snd (deleteHistoryItem 0 (snd (addToHistory item (mk h s))))) = h) /\
  (length h = 50 ->
   exists oldest,
     h = history (snd (deleteHistoryItem 0 (snd (addToHistory item (mk h s)))))
         ++ [oldest]).
Proof.
  assert (Hadd : history (snd (addToHistory item (mk h s))) = item :: take 49 h)
    by (rewrite addToHistory_history; reflexivity).
  assert (Hdel : deleteHistoryItem 0 (snd (addToHistory item (mk h s)))
                 = (true, _saveHistory
                      (mk (take 49 h) (storage (snd (addToHistory item (mk h s))))))).
  { unfold deleteHistoryItem. rewrite Hadd. reflexivity. }
  rewrite Hdel. cbn [fst snd]. rewrite _saveHistory_history. cbn [history].
  split; [reflexivity|]. split; [reflexivity|]. split.
  - intros Hlen. now apply take_ge.
  - intros Hlen. destruct (drop 49 h) as [|oldest rest] eqn:Hdrop.
    + apply (f_equal length) in Hdrop. rewrite length_drop in Hdrop. cbn in Hdrop. lia.
    + exists oldest.
      assert (rest = []).
      { apply (f_equal length) in Hdrop. rewrite length_drop in Hdrop.
        cbn in Hdrop. destruct rest; [reflexivity | cbn in Hdrop; lia]. }
      subst rest. rewrite <- Hdrop. symmetry. apply take_drop.
Qed.

(** X3.  [getRecentHistory] with a count that is not negative is the first
    [count] entries, all of them when there are fewer; right after an
    addition its first entry is the one just added. *)
Theorem getRecentHistory_recent (st : state) (count : Z) :
  (0 <= count)%Z ->
  getRecentHistory count st = take (Z.to_nat count) (history st) /\
  length (getRecentHistory count st) = min (Z.to_nat count) (length (history st)) /\
  (Z.of_nat (length (history st)) <= count ->
   getRecentHistory count st = history st)%Z /\
  (forall item, (1 <= count)%Z ->
     head (getRecentHistory count (snd (addToHistory item st))) = Some item).
Proof.
  intros Hc. unfold getRecentHistory.
  destruct (Z.ltb_spec count 0) as [|_]; [lia|].
  split; [reflexivity|]. split; [apply length_take|]. split.
  - intros Hall. apply take_ge. lia.
  - intros item H1. rewrite addToHistory_history.
    destruct (Z.to_nat count) as [|n] eqn:Hn; [lia | reflexivity].
Qed.

Lemma getRecentHistory_recent_witness :
  (0 <= 1)%Z /\
  getRecentHistory 1 (mk (map sample_entry [3; 1; 2]%Z) ∅) = map sample_entry [3%Z].
Proof.
  assert (H : (0 <= 1)%Z) by lia.
  split; [exact H|].
  exact (proj1 (getRecentHistory_recent (mk (map sample_entry [3; 1; 2]%Z) ∅) 1 H)).
Defined.

Lemma Array_filter_ext f g xs :
  (forall x, f x = g x) -> Array_filter f xs = Array_filter g xs.
Proof.
  intros Hfg. induction xs as [|x xs IH]; cbn; [reflexivity|].
  now rewrite Hfg, IH.
Qed.

Lemma js_get_ordinary item k :
  Reference.ordinary item = true ->
  js_get item k = Returns (Reference.field item k).
Proof.
  unfold Reference.field.
  destruct item as [| |b|m e|s|n|xs|proto own|name]; cbn [Reference.ordinary];
    try discriminate.
  intros Hp. unfold js_get. rewrite Hp. now destruct (own_lookup k own).
Qed.

(** X4.  [getHistoryByFunction] on a history of objects returns exactly the
    entries recorded for the function, in the order of the history; an entry
    for that function that has just been added comes first. *)
Theorem getHistoryByFunction_filter (st : state) (functionName : string) :
  Forall (fun item => Reference.ordinary item = true) (history st) ->
  getHistoryByFunction functionName st
  = Returns (List.filter (Reference.recorded_for functionName) (history st)) /\
  (forall item,
     Reference.ordinary item = true ->
     Reference.recorded_for functionName item = true ->
     getHistoryByFunction functionName (snd (addToHistory item st))
     = Returns (item :: List.filter (Reference.recorded_for functionName)
                          (take 49 (history st)))).
Proof.
  intros Hall.
  assert (Hgen : forall l,
    Forall (fun item => Reference.ordinary item = true) l ->
    Array_filter
      (fun item => recorded ← js_get item "function";
                   mret (strict_eq_string recorded functionName)) l
    = Returns (List.filter (Reference.recorded_for functionName) l)).
  { intros l Hl. apply Array_filter_pure.
    eapply List.Forall_impl; [|exact Hl].
    intros x Hx. cbn beta. now rewrite (js_get_ordinary x "function" Hx). }
  split; [now apply Hgen|].
  intros item Hitem Hrec. unfold getHistoryByFunction.
  rewrite addToHistory_history.
  change (take maxHistoryItems (item :: history st))
    with (item :: take 49 (history st)).
  rewrite Hgen.
  - cbn [List.filter]. now rewrite Hrec.
  - constructor; [exact Hitem|]. now apply Forall_take.
Qed.

Lemma getHistoryByFunction_filter_witness :
  getHistoryByFunction "balanceOf" (mk (map sample_entry [1; 2]%Z) ∅)
  = Returns (map sample_entry [1; 2]%Z).
Proof.
  exact (proj1 (getHistoryByFunction_filter
                  (mk (map sample_entry [1; 2]%Z) ∅) "balanceOf"
                  ltac:(repeat constructor))).
Defined.

(** X5.  [getHistoryByAddress] does not tell upper case from lower case in the
    address it is given; on a history of objects whose addresses are ASCII
    strings (or missing) it returns exactly the entries recorded at that
    address, case apart, and skips the entries without an address. *)
Theorem getHistoryByAddress_ignores_case (st : state) (address address' : string) :
  is_ascii_string address = true ->
  is_ascii_string address' = true ->
  lower_string address = lower_string address' ->
  getHistoryByAddress address st = getHistoryByAddress address' st /\
  (Forall (fun item => Reference.addressed item = true) (history st) ->
   getHistoryByAddress address st
   = Returns (List.filter (Reference.recorded_at address) (history st))).
Proof.
  intros Ha Ha' Hlow. split.
  - unfold getHistoryByAddress. apply Array_filter_ext. intros x.
    destruct (js_get x "address") as [recorded| |]; cbn; try reflexivity.
    destruct (truthy recorded); [|reflexivity].
    destruct recorded; try reflexivity.
    unfold String_toLowerCase. rewrite Ha, Ha', Hlow. reflexivity.
  - intros Hall. unfold getHistoryByAddress. apply Array_filter_pure.
    eapply List.Forall_impl; [|exact Hall].
    intros x Hx. cbn beta. unfold Reference.addressed in Hx.
    apply andb_true_iff in Hx as [Hord Haddr].
    rewrite (js_get_ordinary x "address" Hord). cbn.
    unfold Reference.recorded_at.
    destruct (Reference.field x "address") as [| |b|m e|a|n|xs|proto own|name];
      try discriminate; try reflexivity.
    cbn [truthy]. destruct (String.eqb a EmptyString); [reflexivity|].
    cbn. unfold String_toLowerCase. rewrite Haddr, Ha. reflexivity.
Qed.

Lemma getHistoryByAddress_ignores_case_witness :
  getHistoryByAddress "0xABC1" (mk sample_calls ∅)
  = getHistoryByAddress "0xabc1" (mk sample_calls ∅) /\
  getHistoryByAddress "0xABC1" (mk sample_calls ∅)
  = Returns [nth 0 sample_calls VNull].
Proof.
  destruct (getHistoryByAddress_ignores_case (mk sample_calls ∅)
              "0xABC1" "0xabc1" eq_refl eq_refl eq_refl) as [Hcase Hfilter].
  split; [exact Hcase|].
  exact (Hfilter ltac:(repeat constructor)).
Defined.

End HistoryCoverage.

(* --------------------------------------------------------------------- *)
(** ** AbiManager: the reachable states *)

Section AbiManagerCoverage.
Import AbiManager.

Lemma reachable_object st :
  reachable st ->
  exists own s,
    st = mk (object own) s /\
    Forall (fun entry : string * value => exists text,
              snd entry = VString text /\ is_Some (JSON_parse text)) own.
Proof.
  intros Hr. destruct (reachable_well_formed st Hr) as (own & Hown & Hall).
  destruct st as [saved s]. cbn in Hown. subst saved. eauto.
Qed.

(** [saveAbi] in a reachable state, for a text that parses: the object
    after the assignment, and the outcome by the answer of the store. *)
Lemma saveAbi_parsed own s name text :
  is_Some (JSON_parse text) ->
  exists own',
    js_assign (object own) name (VString text) = Returns (object own') /\
    savedAbis (snd (saveAbi name text (mk (object own) s))) = object own' /\
    (Storage.accepts storageKey (object own') s = true ->
     saveAbi name text (mk (object own) s)
     = (Returns true, mk (object own') (<[storageKey := object own']> s))) /\
    (Storage.accepts storageKey (object own') s = false ->
     saveAbi name text (mk (object own) s)
     = (Throws invalid_format, mk (object own') s)).
Proof.
  intros [v Hv]. destruct (js_assign_text own name text) as [own' Ho].
  exists own'. split; [exact Ho|].
  unfold saveAbi; cbn [savedAbis storage]. rewrite Hv, Ho.
  destruct (Storage.accepts storageKey (object own') s) eqn:Ha.
  - rewrite (setItem_accepts _ _ _ Ha). repeat split; auto; discriminate.
  - destruct (setItem_refuses _ _ _ Ha) as [e ->].
    repeat split; auto; discriminate.
Qed.

(** X6.  In a state reached from a new manager by [saveAbi] and [deleteAbi]
    the outcome of [saveAbi] is decided by [JSON.parse] and by the store.  It
    is the invalid-format error, with the manager and the store left as they
    were, when the text is not JSON; it is [true] exactly when the text is
    JSON and the store accepts the write of the new object; and when the
    text is JSON and the store refuses the write, it is the same
    invalid-format error, with the store as it was but [savedAbis] changed
    already.  There is no third outcome. *)
Theorem saveAbi_outcome (st : state) (name text : string) :
  reachable st ->
  let r := saveAbi name text st in
  (JSON_parse text = None -> r = (Throws invalid_format, st)) /\
  (fst r = Throws invalid_format \/ fst r = Returns true) /\
  (fst r = Returns true <->
   is_Some (JSON_parse text) /\
   Storage.accepts storageKey (savedAbis (snd r)) (storage st) = true) /\
  (is_Some (JSON_parse text) ->
   Storage.accepts storageKey (savedAbis (snd r)) (storage st) = false ->
   fst r = Throws invalid_format /\
   storage (snd r) = storage st /\
   (name <> "__proto__" -> getAbiByName name (snd r) = Returns (VString text))) /\
  (validateAbi text = true -> Storage.reliable (storage st) ->
   fst r = Returns true).
Proof.
  intros Hr r. destruct (reachable_object st Hr) as (own & s & -> & _).
  cbn [storage].
  assert (Hnone : JSON_parse text = None ->
                  r = (Throws invalid_format, mk (object own) s))
    by apply saveAbi_invalid.
  split; [exact Hnone|].
  destruct (JSON_parse text) as [v|] eqn:Hv.
  2:{ rewrite (Hnone eq_refl). cbn [fst snd savedAbis].
      split; [now left|]. split.
      - split; [discriminate | intros [[x Hx] _]; discriminate].
      - split; [intros [x Hx]; discriminate|].
        intros Hval. apply validateAbi_true_iff in Hval as [xs Hxs].
        congruence. }
  assert (Hsome : is_Some (JSON_parse text)) by (rewrite Hv; eauto).
  destruct (saveAbi_parsed own s name text Hsome)
    as (own' & Ho & Hsaved & Hyes & Hno).
  fold r in Hsaved, Hyes, Hno. rewrite Hsaved.
  destruct (Storage.accepts storageKey (object own') s) eqn:Ha.
  - rewrite (Hyes eq_refl). cbn [fst snd storage].
    split; [now right|]. split; [split; auto|].
    split; [discriminate | reflexivity].
  - assert (Hread : name <> "__proto__" ->
                    getAbiByName name (snd r) = Returns (VString text)).
    { intros Hne. subst r. apply saveAbi_getAbiByName; [rewrite Hv; eauto|].
      now right. }
    rewrite (Hno eq_refl) in *. cbn [fst snd storage] in *.
    split; [now left|]. split.
    { split; [discriminate | intros [_ H]; discriminate]. }
    split; [auto|].
    intros _ Hrel. rewrite (reliable_accepts _ _ _ Hrel) in Ha. discriminate.
Qed.

Lemma saveAbi_outcome_witness :
  reachable (snd (saveAbi "Token" "[]" (constructor ∅))) /\
  saveAbi "Other" "{oops" (snd (saveAbi "Token" "[]" (constructor ∅)))
  = (Throws invalid_format, snd (saveAbi "Token" "[]" (constructor ∅))).
Proof.
  assert (Hr : reachable (snd (saveAbi "Token" "[]" (constructor ∅))))
    by (repeat constructor).
  split; [exact Hr|].
  exact (proj1 (saveAbi_outcome _ "Other" "{oops" Hr) eq_refl).
Defined.

(** X7.  In a state reached from a new manager by [saveAbi] and
    [deleteAbi], after saving JSON under any name but [__proto__],
    [getAbiByName] returns the text and [getSavedAbisList] lists the name,
    whether or not the store accepts the write.  When it does, the answer is
    [true] and the persisted document is the new [savedAbis]; when it does
    not, the invalid-format error is thrown and the store is as it was, so
    the saved text is lost with the page. *)
Theorem saveAbi_round_trip (st : state) (name text : string) :
  reachable st ->
  is_Some (JSON_parse text) ->
  name <> "__proto__" ->
  let r := saveAbi name text st in
  getAbiByName name (snd r) = Returns (VString text) /\
  (exists names,
     getSavedAbisList (snd r) = Returns names /\ In name names) /\
  (Storage.accepts storageKey (savedAbis (snd r)) (storage st) = true ->
   fst r = Returns true /\
   Storage.getItem storageKey (storage (snd r)) = Some (savedAbis (snd r))) /\
  (Storage.accepts storageKey (savedAbis (snd r)) (storage st) = false ->
   fst r = Throws invalid_format /\ storage (snd r) = storage st).
Proof.
  intros Hr Hv Hname r. destruct (reachable_object st Hr) as (own & s & -> & _).
  cbn [storage].
  assert (Hsaved : savedAbis (snd r)
                   = object (own_define name (VString text) own))
    by (subst r; apply saveAbi_savedAbis; auto).
  assert (Hstores := saveAbi_stores own s name text Hv (or_intror Hname)).
  fold r in Hstores.
  split; [subst r; apply saveAbi_getAbiByName; auto|].
  split.
  { unfold getSavedAbisList. rewrite Hsaved. eexists. split; [reflexivity|].
    apply own_lookup_In. rewrite own_lookup_define_eq. eauto. }
  rewrite Hsaved. split; intros Ha; rewrite Hstores, Ha;
    cbn [fst snd storage savedAbis].
  - split; [reflexivity|]. apply lookup_written_eq.
  - split; reflexivity.
Qed.

Lemma saveAbi_round_trip_witness :
  reachable (constructor ∅) /\
  getAbiByName "toString" (snd (saveAbi "toString" "[]" (constructor ∅)))
  = Returns (VString "[]").
Proof.
  assert (Hr : reachable (constructor ∅)) by constructor.
  assert (Hv : is_Some (JSON_parse "[]")) by (eexists; reflexivity).
  assert (Hname : "toString" <> "__proto__") by discriminate.
  split; [exact Hr|].
  exact (proj1 (saveAbi_round_trip (constructor ∅) "toString" "[]" Hr Hv Hname)).
Defined.

Lemma own_delete_app_fresh k v own :
  own_lookup k own = None -> own_delete k (own ++ [(k, v)]) = own.
Proof.
  induction own as [|[k0 v0] own IH]; cbn.
  - now rewrite String.eqb_refl.
  - destruct (String.eqb k k0); [discriminate|]. intros H. f_equal. auto.
Qed.

(** X8.  In a state reached from a new manager by [saveAbi] and [deleteAbi],
    saving under a name that is neither saved nor inherited from
    [Object.prototype], then deleting that name, gives back the saved ABIs as
    they were, and the name reads as [null] again, whatever the store
    answers.  [deleteAbi] answers [true], with the restored object
    persisted, when the store accepts its write; when the store refuses it,
    [deleteAbi] lets the exception of the write through (it has no [try]),
    after the entry is gone and with the store as it was. *)
Theorem saveAbi_then_deleteAbi (st : state) (name text : string) (names : list string) :
  reachable st ->
  is_Some (JSON_parse text) ->
  getSavedAbisList st = Returns names ->
  ~ In name names ->
  inherited name = false ->
  let saved := snd (saveAbi name text st) in
  let r := deleteAbi name saved in
  savedAbis (snd r) = savedAbis st /\
  getAbiByName name (snd r) = Returns VNull /\
  getAbiByName name st = Returns VNull /\
  (Storage.accepts storageKey (savedAbis st) (storage saved) = true ->
   fst r = Returns true /\
   Storage.getItem storageKey (storage (snd r)) = Some (savedAbis st)) /\
  (Storage.accepts storageKey (savedAbis st) (storage saved) = false ->
   (exists e, fst r = Throws e) /\ storage (snd r) = storage saved).
Proof.
  intros Hr Hv Hnames Hnot Hinh saved r.
  destruct (reachable_object st Hr) as (own & s & -> & _).
  cbn in Hnames. inversion Hnames; subst names. clear Hnames.
  assert (Hl : own_lookup name own = None) by now apply own_lookup_not_In.
  assert (Hne : name <> "__proto__").
  { intros ->. discriminate. }
  assert (Hsaved : savedAbis saved = object (own ++ [(name, VString text)])).
  { subst saved. rewrite saveAbi_savedAbis by auto.
    unfold own_define. now rewrite Hl. }
  assert (Hdel : r = deleted (object own) (storage saved)).
  { subst r. destruct saved as [o s']. cbn in Hsaved. subst o.
    rewrite (deleteAbi_present (own ++ [(name, VString text)]) s' name
               (VString text)).
    - now rewrite own_delete_app_fresh by exact Hl.
    - now apply own_lookup_app_eq.
    - cbn. now rewrite (JSON_parse_nonempty text Hv). }
  assert (Hnull : forall s', getAbiByName name (mk (object own) s') = Returns VNull).
  { intros s'. unfold getAbiByName; cbn [savedAbis].
    rewrite js_get_object, Hl. cbn. unfold js_or.
    now rewrite Object_prototype_get_truthy, Hinh. }
  assert (Hrestored : savedAbis (snd r) = object own)
    by (rewrite Hdel; apply deleted_savedAbis).
  cbn [savedAbis]. split; [exact Hrestored|].
  split.
  { destruct (snd r) as [o s']. cbn in Hrestored. subst o. apply Hnull. }
  split; [apply Hnull|].
  split; intros Ha.
  - rewrite Hdel, (deleted_accepts _ _ Ha). cbn [fst snd storage].
    split; [reflexivity|]. apply lookup_written_eq.
  - rewrite Hdel. destruct (deleted_refuses _ _ Ha) as [e ->].
    cbn [fst snd storage]. split; [eauto | reflexivity].
Qed.

Lemma saveAbi_then_deleteAbi_witness :
  reachable (constructor ∅) /\
  savedAbis (snd (deleteAbi "Token" (snd (saveAbi "Token" "[]" (constructor ∅)))))
  = object [].
Proof.
  assert (Hr : reachable (constructor ∅)) by constructor.
  assert (Hv : is_Some (JSON_parse "[]")) by (eexists; reflexivity).
  assert (Hnot : ~ In "Token" []) by (intros []).
  split; [exact Hr|].
  exact (proj1 (saveAbi_then_deleteAbi (constructor ∅) "Token" "[]" []
                  Hr Hv eq_refl Hnot eq_refl)).
Defined.

(** X9.  In a state reached from a new manager by [saveAbi] and [deleteAbi] every
    listed name reads back as a text that [JSON.parse] accepts, so the page can parse whatever its selector
    offers. *)
Theorem listed_names_parse (st : state) (names : list string) (name : string) :
  reachable st ->
  getSavedAbisList st = Returns names ->
  In name names ->
  exists text parsed,
    getAbiByName name st = Returns (VString text) /\
    JSON_parse text = Some parsed.
Proof.
  intros Hr Hnames Hin.
  destruct (reachable_object st Hr) as (own & s & -> & Hall).
  cbn in Hnames. inversion Hnames; subst names. clear Hnames.
  apply own_lookup_In in Hin as [v Hv].
  assert (Hentry : exists text, v = VString text /\ is_Some (JSON_parse text)).
  { clear Hr. induction Hall as [|[k0 v0] own Hx Hown IH]; cbn in Hv;
      [discriminate|].
    destruct (String.eqb name k0); [|now apply IH].
    inversion Hv; subst v0. exact Hx. }
  destruct Hentry as (text & -> & [parsed Hparsed]).
  exists text, parsed. split; [|exact Hparsed].
  unfold getAbiByName; cbn [savedAbis]. rewrite js_get_object, Hv.
  unfold js_or; cbn.
  rewrite (JSON_parse_nonempty text) by (rewrite Hparsed; eauto). reflexivity.
Qed.

Lemma listed_names_parse_witness :
  reachable (snd (saveAbi "Token" "[1]" (constructor ∅))) /\
  exists text parsed,
    getAbiByName "Token" (snd (saveAbi "Token" "[1]" (constructor ∅)))
    = Returns (VString text) /\
    JSON_parse text = Some parsed.
Proof.
  assert (Hr : reachable (snd (saveAbi "Token" "[1]" (constructor ∅))))
    by (repeat constructor).
  split; [exact Hr|].
  exact (listed_names_parse _ ["Token"] "Token" Hr eq_refl (or_introl eq_refl)).
Defined.

(** X10.  [saveAbi] and [deleteAbi] write the store under the key of the saved
    ABIs only, which is not the key of the call history. *)
Theorem AbiManager_store_frame (st : state) (name text k : string) :
  k <> storageKey ->
  storage (snd (saveAbi name text st)) !! k = storage st !! k /\
  storage (snd (deleteAbi name st)) !! k = storage st !! k /\
  HistoryManager.storageKey <> storageKey.
Proof.
  intros Hk.
  assert (Hneq : storageKey <> k) by congruence.
  split; [|split; [|discriminate]].
  - unfold saveAbi. destruct (JSON_parse text); [|reflexivity].
    destruct (js_assign (savedAbis st) name (VString text)) as [o| |];
      try reflexivity.
    pose proof (setItem_frame storageKey k o (storage st) Hneq) as Hframe.
    destruct (Storage.setItem storageKey o (storage st)); cbn [snd storage];
      [exact Hframe | reflexivity | reflexivity].
  - unfold deleteAbi. destruct (js_get (savedAbis st) name) as [v| |];
      try reflexivity.
    destruct (truthy v); [|reflexivity].
    destruct (js_delete (savedAbis st) name) as [o| |]; try reflexivity.
    pose proof (setItem_frame storageKey k o (storage st) Hneq) as Hframe.
    destruct (Storage.setItem storageKey o (storage st)); cbn [snd storage];
      [exact Hframe | reflexivity | reflexivity].
Qed.

Lemma AbiManager_store_frame_witness :
  "tx_history" <> storageKey /\
  storage (snd (saveAbi "Token" "[]"
                  (constructor (<["tx_history" := VArray []]> ∅))))
          !! "tx_history"
  = Some (VArray []).
Proof.
  assert (Hk : "tx_history" <> storageKey) by discriminate.
  split; [exact Hk|].
  exact (proj1 (AbiManager_store_frame
                  (constructor (<["tx_history" := VArray []]> ∅))
                  "Token" "[]" "tx_history" Hk)).
Defined.

Lemma plain_document_texts own :
  Forall (fun entry : string * value => exists text,
            snd entry = VString text /\ is_Some (JSON_parse text)) own ->
  plain_document (object own) = true.
Proof.
  intros H. cbn. induction H as [|entry own (text & Htext & _) _ IH]; cbn;
    [reflexivity|]. now rewrite Htext.
Qed.

(** X11.  The saved ABIs survive a reload of the page: in a state reached from a
    new manager by [saveAbi] and [deleteAbi], after a [saveAbi] or a
    [deleteAbi] that answered [true], a new manager that loads from the
    store is in the very state the old one was left in, so every name reads
    as before and the same names are listed. *)
Theorem saved_abis_survive_reload (st : state) (name text : string) :
  reachable st ->
  (fst (saveAbi name text st) = Returns true ->
   loadSavedAbis (constructor (storage (snd (saveAbi name text st))))
   = (Returns (savedAbis (snd (saveAbi name text st))),
      snd (saveAbi name text st))) /\
  (fst (deleteAbi name st) = Returns true ->
   loadSavedAbis (constructor (storage (snd (deleteAbi name st))))
   = (Returns (savedAbis (snd (deleteAbi name st))), snd (deleteAbi name st))).
Proof.
  intros Hr.
  assert (Hload : forall o s written,
             Storage.setItem storageKey o s = Returns written ->
             reachable (mk o written) ->
             loadSavedAbis (constructor written) = (Returns o, mk o written)).
  { intros o s written Hwrite Hreach.
    destruct (reachable_object _ Hreach) as (own & s' & Heq & Htexts).
    injection Heq as Ho _. rewrite Ho in *. unfold loadSavedAbis, constructor.
    cbn [storage savedAbis].
    assert (Hstored : Storage.getItem storageKey written = Some (object own)).
    { unfold Storage.setItem in Hwrite.
      destruct (Storage.refusal s (Storage.items s) storageKey (object own));
        [discriminate|].
      inversion Hwrite; subst written. apply lookup_written_eq. }
    rewrite Hstored. now rewrite (plain_document_texts own Htexts). }
  split.
  - intros Hsaved.
    pose proof (reachable_saveAbi name text st Hr) as Hreach.
    unfold saveAbi in *.
    destruct (JSON_parse text); [|discriminate].
    destruct (js_assign (savedAbis st) name (VString text)) as [o| |];
      try discriminate.
    destruct (Storage.setItem storageKey o (storage st)) as [written| |] eqn:Hw;
      try discriminate.
    cbn [snd storage savedAbis] in *. now apply (Hload o (storage st)).
  - intros Hdeleted.
    pose proof (reachable_deleteAbi name st Hr) as Hreach.
    unfold deleteAbi in *.
    destruct (js_get (savedAbis st) name) as [v| |]; try discriminate.
    destruct (truthy v); [|discriminate].
    destruct (js_delete (savedAbis st) name) as [o| |]; try discriminate.
    destruct (Storage.setItem storageKey o (storage st)) as [written| |] eqn:Hw;
      try discriminate.
    cbn [snd storage savedAbis] in *. now apply (Hload o (storage st)).
Qed.

Lemma saved_abis_survive_reload_witness :
  fst (saveAbi "Token" "[]" (constructor ∅)) = Returns true /\
  getAbiByName "Token"
    (snd (loadSavedAbis
            (constructor (storage (snd (saveAbi "Token" "[]" (constructor ∅)))))))
  = Returns (VString "[]").
Proof.
  assert (Hsaved : fst (saveAbi "Token" "[]" (constructor ∅)) = Returns true)
    by reflexivity.
  split; [exact Hsaved|].
  rewrite (proj1 (saved_abis_survive_reload (constructor ∅) "Token" "[]"
                    (reachable_constructor ∅)) Hsaved).
  reflexivity.
Defined.

End AbiManagerCoverage.

(* --------------------------------------------------------------------- *)
(** ** ContractInteractor: the setters and the handles *)

Section SetterCoverage.
Import ContractInteractor Reference.

Lemma _initializeContract_fields env st :
  contractAddress (snd (_initializeContract env st)) = contractAddress st /\
  abi (snd (_initializeContract env st)) = abi st.
Proof.
  unfold _initializeContract.
  destruct (negb (truthy (contractAddress st)) || negb (truthy (abi st)));
    [auto|].
  destruct (negb (truthy (provider env))); [auto|].
  destruct (Contract_builds env (contractAddress st) (abi st)); [|auto].
  destruct (truthy (signer env)); [destruct (connects env)|]; auto.
Qed.

Lemma setAbi_abi_of env new_abi st :
  setAbi env new_abi st
  = match abi_of new_abi with
    | Some parsed =>
        (Returns true,
         snd (_initializeContract env
                (mk (contractAddress st) parsed (contract st)
                    (contractWithSigner st))))
    | None => (Throws (Error "无效的ABI格式"), st)
    end.
Proof.
  unfold setAbi, abi_of. destruct new_abi; reflexivity.
Qed.

Lemma _initializeContract_missing env st :
  truthy (contractAddress st) = false \/ truthy (abi st) = false ->
  _initializeContract env st = (false, st).
Proof.
  intros H. unfold _initializeContract.
  destruct H as [-> | ->]; cbn [negb orb]; [reflexivity|].
  now rewrite orb_true_r.
Qed.

(** X12.  On a new interactor the address and the ABI can be set in either order:
    the state reached is the same, and each call answers as it would have
    on its own. *)
Theorem setters_commute (env : environment) (address new_abi : value) :
  snd (setAbi env new_abi (snd (setContractAddress env address constructor)))
  = snd (setContractAddress env address (snd (setAbi env new_abi constructor))) /\
  fst (setAbi env new_abi (snd (setContractAddress env address constructor)))
  = fst (setAbi env new_abi constructor) /\
  fst (setContractAddress env address (snd (setAbi env new_abi constructor)))
  = fst (setContractAddress env address constructor).
Proof.
  assert (H1 : _initializeContract env (mk address VNull None None)
               = (false, mk address VNull None None))
    by (apply _initializeContract_missing; right; reflexivity).
  assert (H2 : forall parsed,
             _initializeContract env (mk VNull parsed None None)
             = (false, mk VNull parsed None None))
    by (intros parsed; apply _initializeContract_missing; left; reflexivity).
  rewrite !setAbi_abi_of. unfold setContractAddress, constructor.
  cbn [contractAddress abi contract contractWithSigner].
  destruct (isAddress env address); cbn [negb];
    destruct (abi_of new_abi) as [parsed|]; cbn [fst snd];
    rewrite ?H1, ?H2;
    cbn [fst snd contractAddress abi contract contractWithSigner];
    rewrite ?H1, ?H2; repeat split; reflexivity.
Qed.

(** X13.  After the address and the ABI have been set on a new interactor, it is
    ready exactly when both are truthy, a provider is at hand and ethers
    built the handle. *)
Theorem ready_after_setup (env : environment) (address new_abi parsed : value) :
  isAddress env address = true ->
  abi_of new_abi = Some parsed ->
  isContractReady
    (snd (setAbi env new_abi (snd (setContractAddress env address constructor))))
  = truthy address && truthy parsed && truthy (provider env)
    && Contract_builds env address parsed.
Proof.
  intros Haddr Habi. rewrite setAbi_abi_of, Habi. unfold setContractAddress.
  rewrite Haddr. cbn [negb snd].
  rewrite (_initializeContract_missing env (mk address (abi constructor) _ _))
    by (right; reflexivity).
  cbn [snd contractAddress contract contractWithSigner constructor].
  unfold _initializeContract, isContractReady.
  cbn [contractAddress abi contract contractWithSigner].
  destruct (truthy address) eqn:Ha, (truthy parsed) eqn:Hp,
    (truthy (provider env)), (Contract_builds env address parsed),
    (truthy (signer env)), (connects env);
    cbn [negb orb andb snd contractAddress abi contract contractWithSigner];
    rewrite ?Ha, ?Hp; reflexivity.
Qed.

Lemma ready_after_setup_witness :
  isAddress (provider_only true) sample_address = true /\
  isContractReady
    (snd (setAbi (provider_only true) (VString "[]")
            (snd (setContractAddress (provider_only true) sample_address
                    constructor))))
  = true.
Proof.
  split; [reflexivity|].
  exact (ready_after_setup (provider_only true) sample_address (VString "[]")
           (VArray []) eq_refl eq_refl).
Defined.

(** X14.  [setAbi] stores a new ABI and answers [true] also when no handle can be
    built for it (no address yet, a falsy ABI, no provider, or ethers
    refusing): both handles then stay as they were, so an interactor that was
    ready stays ready on handles built from the earlier ABI. *)
Theorem setAbi_keeps_handles (env : environment) (new_abi parsed : value)
    (st : state) :
  abi_of new_abi = Some parsed ->
  truthy (contractAddress st) = false \/ truthy parsed = false
  \/ truthy (provider env) = false
  \/ Contract_builds env (contractAddress st) parsed = false ->
  setAbi env new_abi st
  = (Returns true,
     mk (contractAddress st) parsed (contract st) (contractWithSigner st)) /\
  (isContractReady st = true -> truthy parsed = true ->
   isContractReady (snd (setAbi env new_abi st)) = true).
Proof.
  intros Habi Hfail.
  assert (Hset : setAbi env new_abi st
    = (Returns true,
       mk (contractAddress st) parsed (contract st) (contractWithSigner st))).
  { rewrite setAbi_abi_of, Habi. f_equal.
    unfold _initializeContract. cbn [contractAddress abi].
    destruct Hfail as [-> | [-> | [Hp | Hb]]]; cbn [negb orb snd];
      try reflexivity.
    - now rewrite orb_true_r.
    - destruct (negb (truthy (contractAddress st)) || negb (truthy parsed));
        [reflexivity|]. now rewrite Hp.
    - destruct (negb (truthy (contractAddress st)) || negb (truthy parsed));
        [reflexivity|].
      destruct (negb (truthy (provider env))); [reflexivity|]. now rewrite Hb. }
  split; [exact Hset|].
  intros Hready Hparsed. rewrite Hset. cbn [snd].
  unfold isContractReady in *. cbn [contractAddress abi contract contractWithSigner].
  rewrite Hparsed.
  apply andb_true_iff in Hready as [Hready Hh].
  apply andb_true_iff in Hready as [Ha _].
  now rewrite Ha, Hh.
Qed.

Lemma setAbi_keeps_handles_witness :
  abi_of (VArray legacy_abi) = Some (VArray legacy_abi) /\
  contract (snd (setAbi (provider_only false) (VArray legacy_abi)
                   (token_state false)))
  = Some (ReadOnly sample_address (VArray sample_abi)) /\
  abi (snd (setAbi (provider_only false) (VArray legacy_abi) (token_state false)))
  = VArray legacy_abi.
Proof.
  split; [reflexivity|].
  pose proof (proj1 (setAbi_keeps_handles (provider_only false)
                       (VArray legacy_abi) (VArray legacy_abi)
                       (token_state false) eq_refl
                       (or_intror (or_intror (or_intror eq_refl))))) as H.
  rewrite H. split; reflexivity.
Defined.

Lemma _initializeContract_well_built env st :
  well_built st -> well_built (snd (_initializeContract env st)).
Proof.
  intros [Hc Hs]. unfold _initializeContract.
  destruct (truthy (contractAddress st)) eqn:Ha; cbn [negb orb];
    [|split; assumption].
  destruct (truthy (abi st)) eqn:Hb; cbn [negb]; [|split; assumption].
  destruct (negb (truthy (provider env))); [split; assumption|].
  destruct (Contract_builds env (contractAddress st) (abi st));
    [|split; assumption].
  assert (Hkept : match contractWithSigner st with
                  | Some (SignerBacked address abi0) =>
                      truthy address = true /\ truthy abi0 = true /\
                      is_Some (Some (ReadOnly (contractAddress st) (abi st)))
                  | Some (ReadOnly _ _) => False
                  | None => True
                  end).
  { destruct (contractWithSigner st) as [[|]|]; [exact Hs | | exact I].
    destruct Hs as (? & ? & _). repeat split; eauto. }
  destruct (truthy (signer env)); [destruct (connects env)|];
    cbn [snd]; unfold well_built; cbn [contract contractWithSigner];
    (split; [split; assumption|]);
    [repeat split; eauto | exact Hkept | exact Hkept].
Qed.

Lemma well_built_fields st address new_abi :
  well_built st ->
  well_built (mk address new_abi (contract st) (contractWithSigner st)).
Proof. intros H. exact H. Qed.

(** X15.  In every state [setContractAddress] and [setAbi] lead to from a new
    interactor, each handle was built from a truthy
    address and ABI, [contract] is a read-only handle, and a signer-backed
    handle exists only beside it; hence the interactor is ready exactly when
    address and ABI are truthy and the read-only handle exists. *)
Theorem reachable_well_built (st : state) :
  reachable st ->
  well_built st /\
  (isContractReady st = true <->
   truthy (contractAddress st) = true /\ truthy (abi st) = true /\
   exists address abi0, contract st = Some (ReadOnly address abi0)).
Proof.
  intros Hr.
  assert (Hwb : well_built st).
  { induction Hr as [|env address st Hr IH|env new_abi st Hr IH].
    - split; exact I.
    - unfold setContractAddress. destruct (negb (isAddress env address));
        cbn [snd]; [exact IH|].
      apply _initializeContract_well_built. exact IH.
    - rewrite setAbi_abi_of. destruct (abi_of new_abi); cbn [snd]; [|exact IH].
      apply _initializeContract_well_built. exact IH. }
  split; [exact Hwb|].
  destruct Hwb as [Hc Hs]. unfold isContractReady. split.
  - intros Hready. apply andb_true_iff in Hready as [Hready Hany].
    apply andb_true_iff in Hready as [Ha Hb].
    split; [exact Ha|]. split; [exact Hb|].
    destruct (contract st) as [[a b|a b]|]; [eauto | contradiction|].
    destruct (contractWithSigner st) as [[|]|]; cbn in Hany.
    + contradiction.
    + destruct Hs as (_ & _ & [x Hx]). discriminate.
    + discriminate.
  - intros (Ha & Hb & a & b & Hcontract). rewrite Ha, Hb, Hcontract. reflexivity.
Qed.

Lemma reachable_well_built_witness :
  reachable legacy_state /\ well_built legacy_state.
Proof.
  assert (Hr : reachable legacy_state) by (unfold legacy_state; repeat constructor).
  split; [exact Hr|].
  exact (proj1 (reachable_well_built legacy_state Hr)).
Defined.

(** X16.  [setAbi] checks only that a text is JSON: a text that parses to an
    object is stored with answer [true], and from then on
    [getAvailableFunctions] and [getFunctionDetails] throw a [TypeError]. *)
Theorem setAbi_accepts_object (env : environment) (st : state) (text : string)
    (own : props) (functionName : string) :
  JSON_parse text = Some (object own) ->
  fst (setAbi env (VString text) st) = Returns true /\
  abi (snd (setAbi env (VString text) st)) = object own /\
  getAvailableFunctions (snd (setAbi env (VString text) st)) = Throws TypeError /\
  getFunctionDetails functionName (snd (setAbi env (VString text) st))
  = Throws TypeError.
Proof.
  intros Hparse. rewrite setAbi_abi_of. cbn [abi_of]. rewrite Hparse.
  cbn [fst snd].
  destruct (_initializeContract_fields env
              (mk (contractAddress st) (object own) (contract st)
                  (contractWithSigner st))) as [_ Habi].
  cbn [abi] in Habi.
  split; [reflexivity|]. split; [exact Habi|].
  unfold getAvailableFunctions, getFunctionDetails. rewrite Habi.
  split; reflexivity.
Qed.

Lemma setAbi_accepts_object_witness :
  JSON_parse "{}" = Some (object []) /\
  getAvailableFunctions (snd (setAbi (provider_only true) (VString "{}") constructor))
  = Throws TypeError.
Proof.
  split; [reflexivity|].
  exact (proj1 (proj2 (proj2
    (setAbi_accepts_object (provider_only true) constructor "{}" [] "f" eq_refl)))).
Defined.

End SetterCoverage.

(* --------------------------------------------------------------------- *)
(** ** ContractInteractor: lookups, calls and parameters *)

Section CallCoverage.
Import ContractInteractor Reference.
Local Open Scope nat_scope.

Lemma Array_find_pure f g xs :
  (forall x, In x xs -> f x = Returns (g x)) ->
  Array_find f xs = Returns (default VUndefined (List.find g xs)).
Proof.
  induction xs as [|x xs IH]; intros Hf; cbn; [reflexivity|].
  rewrite (Hf x (or_introl eq_refl)). cbn.
  destruct (g x); [reflexivity|].
  apply IH. intros y Hy. apply Hf. now right.
Qed.

Lemma named_function_object functionName item :
  named_function functionName item = true -> truthy item = true.
Proof.
  unfold named_function, function_entry, field, js_get.
  destruct item as [| |b|m e|s|n|xs|proto own|name]; cbn;
    try discriminate; try reflexivity;
    destruct (mem_string "type" field_names); discriminate.
Qed.

Lemma getFunctionDetails_find st functionName items :
  abi st = VArray items ->
  List.Forall (fun item => readable item = true) items ->
  getFunctionDetails functionName st
  = Returns (default VNull (List.find (named_function functionName) items)).
Proof.
  intros Habi Hall. unfold getFunctionDetails. rewrite Habi. cbn [truthy negb].
  rewrite (Array_find_pure _ (named_function functionName)).
  - cbn. destruct (List.find (named_function functionName) items) as [fd|] eqn:Hfind;
      cbn; [|reflexivity].
    apply List.find_some in Hfind as [_ Hfd].
    unfold js_or. now rewrite (named_function_object functionName fd Hfd).
  - intros x Hx. rewrite List.Forall_forall in Hall. specialize (Hall x Hx).
    unfold named_function, function_entry.
    rewrite (js_get_readable x "type" Hall eq_refl). cbn.
    destruct (strict_eq_string (field x "type") "function"); [|reflexivity].
    now rewrite (js_get_readable x "name" Hall eq_refl).
Qed.

(** X17.  [getFunctionDetails] answers with the first entry of function type that
    carries the name, and with [null] when there is none; so every function
    entry of the ABI is found under its name, itself or an earlier entry of
    the same name. *)
Theorem getFunctionDetails_first (st : state) (functionName : string)
    (items : list value) :
  abi st = VArray items ->
  List.Forall (fun item => readable item = true) items ->
  getFunctionDetails functionName st
  = Returns (default VNull (List.find (named_function functionName) items)) /\
  (forall before item after,
     items = before ++ item :: after ->
     named_function functionName item = true ->
     List.forallb (fun x => negb (named_function functionName x)) before = true ->
     getFunctionDetails functionName st = Returns item) /\
  (forall item,
     In item items -> named_function functionName item = true ->
     exists funcDetails,
       getFunctionDetails functionName st = Returns funcDetails /\
       truthy funcDetails = true /\
       named_function functionName funcDetails = true).
Proof.
  intros Habi Hall.
  pose proof (getFunctionDetails_find st functionName items Habi Hall) as Hget.
  split; [exact Hget|]. split.
  - intros before item rest -> Hitem Hbefore. rewrite Hget. f_equal.
    clear Hget Hall Habi.
    induction before as [|x before IH]; cbn in *.
    + now rewrite Hitem.
    + apply andb_true_iff in Hbefore as [Hx Hbefore].
      apply negb_true_iff in Hx. rewrite Hx. now apply IH.
  - intros item Hin Hitem. rewrite Hget.
    destruct (List.find (named_function functionName) items) as [fd|] eqn:Hfind.
    + apply List.find_some in Hfind as [_ Hfd]. exists fd. cbn.
      split; [reflexivity|]. split; [|exact Hfd].
      exact (named_function_object functionName fd Hfd).
    + pose proof (List.find_none _ _ Hfind item Hin) as Hno. congruence.
Qed.

Lemma getFunctionDetails_first_witness :
  getFunctionDetails "transfer" (token_state false)
  = Returns (default VNull (List.find (named_function "transfer") sample_abi)) /\
  getFunctionDetails "mint" (token_state false) = Returns VNull.
Proof.
  assert (Hall : List.Forall (fun item => readable item = true) sample_abi)
    by (repeat constructor).
  split.
  - exact (proj1 (getFunctionDetails_first (token_state false) "transfer"
                    sample_abi eq_refl Hall)).
  - exact (proj1 (getFunctionDetails_first (token_state false) "mint"
                    sample_abi eq_refl Hall)).
Defined.

(** X18.  [callFunction] leaves the program only on a ready interactor and for a
    name the ABI has an entry for; what it then asks for first is a call of
    the method of that very name through one of the two handles of the
    state, or, when a signer-backed handle exists and [options.value] is
    truthy, the conversion of that amount. *)
Theorem callFunction_events (st : state) (functionName : string)
    (params : list value) (options : value) (e : event) :
  first_event (callFunction functionName params options st) = Some e ->
  isContractReady st = true /\
  (exists funcDetails,
     getFunctionDetails functionName st = Returns funcDetails /\
     truthy funcDetails = true) /\
  ((exists via args,
      e = Call via functionName args /\
      (contract st = Some via \/ contractWithSigner st = Some via)) \/
   (exists supplied amount,
      e = ParseEther amount /\
      js_get options "value" = Returns supplied /\
      truthy supplied = true /\
      js_toString supplied = Returns amount /\
      is_Some (contractWithSigner st))).
Proof.
  unfold callFunction.
  destruct (isContractReady st); cbn [negb]; [|discriminate].
  destruct (getFunctionDetails functionName st) as [fd| |]; cbn [after];
    try discriminate.
  destruct (truthy fd) eqn:Hfd; cbn [negb]; [|discriminate].
  intros He. split; [reflexivity|]. split; [eauto|].
  destruct (isReadOnly fd) as [ro| |]; cbn [after] in He; try discriminate.
  destruct (isPayable fd) as [pay| |]; cbn [after] in He; try discriminate.
  destruct (inputs ← js_get fd "inputs"; _processParams inputs params)
    as [processed| |]; cbn [after] in He; try discriminate.
  destruct (truthy ro).
  - destruct (contract st) as [via|]; [|discriminate].
    inversion He; subst. left. eauto.
  - destruct (contractWithSigner st) as [via|]; [|discriminate].
    assert (Hsend : forall txOptions,
               first_event (send via functionName processed txOptions) = Some e ->
               exists via' args,
                 e = Call via' functionName args /\
                 (contract st = Some via' \/ Some via = Some via')).
    { intros txOptions H. inversion H; subst. eauto. }
    destruct (truthy pay); [|left; eapply Hsend; eassumption].
    destruct (js_get options "value") as [supplied| |] eqn:Hvalue;
      cbn [after] in He; try discriminate.
    destruct (truthy supplied) eqn:Hsupplied; [|left; eapply Hsend; eassumption].
    destruct (js_toString supplied) as [amount| |] eqn:Hamount;
      cbn [after] in He; try discriminate.
    inversion He; subst. right. exists supplied, amount.
    repeat split; try assumption; try reflexivity. eexists; reflexivity.
Qed.

Lemma callFunction_events_witness :
  first_event (callFunction "balanceOf" [VString "0x1"] (object [])
                 (token_state true))
  = Some (Call (ReadOnly sample_address (VArray sample_abi)) "balanceOf"
            [VString "0x1"]) /\
  isContractReady (token_state true) = true.
Proof.
  split; [reflexivity|].
  exact (proj1 (callFunction_events (token_state true) "balanceOf"
                  [VString "0x1"] (object []) _ eq_refl)).
Defined.

Lemma isPayable_pays fd :
  readable fd = true ->
  exists v, isPayable fd = Returns v /\ truthy v = pays fd.
Proof.
  intros Hr. unfold isPayable, pays.
  rewrite (js_get_readable fd "stateMutability" Hr eq_refl),
          (js_get_readable fd "payable" Hr eq_refl). cbn.
  destruct (strict_eq_string (field fd "stateMutability") "payable");
    eexists; split; reflexivity.
Qed.

(** [callFunction] once the entry is found and can be read. *)
Lemma callFunction_found st functionName params options fd :
  isContractReady st = true ->
  getFunctionDetails functionName st = Returns fd ->
  truthy fd = true ->
  readable fd = true ->
  callFunction functionName params options st
  = after (_processParams (field fd "inputs") params) (fun processedParams =>
      if read_only fd then
        match contract st with
        | None => Done (Throws TypeError)
        | Some read_binding =>
            await (Call read_binding functionName processedParams)
              (fun result => Done (_formatResult result (field fd "outputs")))
        end
      else
        match contractWithSigner st with
        | None => Done (Throws signer_required)
        | Some signer_binding =>
            if pays fd then
              after (js_get options "value") (fun supplied =>
              if truthy supplied then
                after (js_toString supplied) (fun amount =>
                await (ParseEther amount) (fun wei =>
                send signer_binding functionName processedParams
                     [("value", wei)]))
              else send signer_binding functionName processedParams [])
            else send signer_binding functionName processedParams []
        end).
Proof.
  intros Hready Hfd Htruthy Hread.
  destruct (isReadOnly_readable fd Hread) as (ro & Hro & <-).
  destruct (isPayable_pays fd Hread) as (pay & Hpay & <-).
  unfold callFunction. rewrite Hready, Hfd. cbn [negb after].
  rewrite Htruthy, Hro, Hpay. cbn [negb after].
  rewrite (js_get_readable fd "inputs" Hread eq_refl),
          (js_get_readable fd "outputs" Hread eq_refl).
  reflexivity.
Qed.

(** X19.  The options of [callFunction] are read only on the write path of a
    payable function: for a read-only function, and for one that is not
    payable, the call goes the same way whatever the options hold. *)
Theorem callFunction_ignores_options (st : state) (functionName : string)
    (params : list value) (options options' funcDetails : value) :
  getFunctionDetails functionName st = Returns funcDetails ->
  readable funcDetails = true ->
  read_only funcDetails = true \/ pays funcDetails = false ->
  callFunction functionName params options st
  = callFunction functionName params options' st.
Proof.
  intros Hfd Hread Hcase.
  destruct (isContractReady st) eqn:Hready;
    [|unfold callFunction; now rewrite Hready].
  destruct (truthy funcDetails) eqn:Htruthy;
    [|unfold callFunction; now rewrite Hready, Hfd; cbn [negb after]; rewrite Htruthy].
  rewrite !(callFunction_found st functionName params _ funcDetails
              Hready Hfd Htruthy Hread).
  destruct Hcase as [-> | ->]; [reflexivity|].
  destruct (read_only funcDetails); reflexivity.
Qed.

Lemma callFunction_ignores_options_witness :
  callFunction "transfer" [VString "0x1"; VString "7"]
    (object [("value", VString "1.5")]) (token_state true)
  = callFunction "transfer" [VString "0x1"; VString "7"] (object [])
      (token_state true).
Proof.
  exact (callFunction_ignores_options (token_state true) "transfer"
           [VString "0x1"; VString "7"] (object [("value", VString "1.5")])
           (object []) (nth 2 sample_abi VNull) eq_refl eq_refl
           (or_intror eq_refl)).
Defined.

(** X20.  The write path.  For a function that is not read-only, on a ready
    interactor with a signer-backed handle and parameters that pre-process:
    without a payable function, or with the options left out, the method is
    called through that handle with the processed parameters followed by
    empty transaction options, the transaction is waited for, and the answer
    is the summary of the receipt; a rejected call or a failed wait is
    rethrown as it is.  For a payable function and a truthy [options.value],
    the amount is converted first and travels as the [value] of the
    transaction options. *)
Theorem callFunction_write_path (st : state) (functionName : string)
    (params : list value) (options funcDetails : value) (via : binding)
    (processedParams : list value) :
  isContractReady st = true ->
  getFunctionDetails functionName st = Returns funcDetails ->
  truthy funcDetails = true ->
  readable funcDetails = true ->
  read_only funcDetails = false ->
  contractWithSigner st = Some via ->
  _processParams (field funcDetails "inputs") params = Returns processedParams ->
  (pays funcDetails = false \/ options = object [] ->
   forall (tx receipt : value) (e : exn),
     run (callFunction functionName params options st)
         [Returns tx; Returns receipt]
     = ([Call via functionName (processedParams ++ [object []]); Wait tx],
        Some (summary receipt)) /\
     run (callFunction functionName params options st) [Throws e]
     = ([Call via functionName (processedParams ++ [object []])],
        Some (Throws e)) /\
     run (callFunction functionName params options st) [Returns tx; Throws e]
     = ([Call via functionName (processedParams ++ [object []]); Wait tx],
        Some (Throws e))) /\
  (pays funcDetails = true ->
   forall (supplied : value) (amount : string) (wei tx receipt : value),
     js_get options "value" = Returns supplied ->
     truthy supplied = true ->
     js_toString supplied = Returns amount ->
     run (callFunction functionName params options st)
         [Returns wei; Returns tx; Returns receipt]
     = ([ParseEther amount;
         Call via functionName (processedParams ++ [object [("value", wei)]]);
         Wait tx],
        Some (summary receipt))).
Proof.
  intros Hready Hfd Htruthy Hread Hwrites Hvia Hprocessed.
  rewrite (callFunction_found st functionName params options funcDetails
             Hready Hfd Htruthy Hread).
  rewrite Hprocessed, Hwrites, Hvia. cbn [after]. split.
  - intros Hcase tx receipt e.
    assert (Hsend :
      (if pays funcDetails
       then after (js_get options "value") (fun supplied =>
              if truthy supplied
              then after (js_toString supplied) (fun amount =>
                     await (ParseEther amount) (fun wei =>
                       send via functionName processedParams [("value", wei)]))
              else send via functionName processedParams [])
       else send via functionName processedParams [])
      = send via functionName processedParams []).
    { destruct Hcase as [-> | ->]; [reflexivity|].
      destruct (pays funcDetails); reflexivity. }
    rewrite Hsend. repeat split; reflexivity.
  - intros Hpays supplied amount wei tx receipt Hvalue Hsupplied Hamount.
    rewrite Hpays, Hvalue. cbn [after]. rewrite Hsupplied, Hamount. reflexivity.
Qed.

Lemma callFunction_write_path_witness :
  run (callFunction "transfer" [VString "0x1"; VNumber 7 0]
         (object [("value", VString "1")]) (token_state true))
      [Returns (VString "tx");
       Returns (object [("status", VNumber 1 0)])]
  = ([Call (SignerBacked sample_address (VArray sample_abi)) "transfer"
        [VString "0x1"; VString "7"; object []];
      Wait (VString "tx")],
     Some (summary (object [("status", VNumber 1 0)]))) /\
  run (callFunction "deposit" [] (object [("value", VString "1.5")])
         payable_state)
      [Returns (VBigNumber 1500000000000000000); Returns (VString "tx");
       Returns (object [("status", VNumber 0 0)])]
  = ([ParseEther "1.5";
      Call (SignerBacked sample_address (VArray payable_abi)) "deposit"
        [object [("value", VBigNumber 1500000000000000000)]];
      Wait (VString "tx")],
     Some (summary (object [("status", VNumber 0 0)]))).
Proof.
  split.
  - exact (proj1 (proj1 (callFunction_write_path (token_state true) "transfer"
                           [VString "0x1"; VNumber 7 0]
                           (object [("value", VString "1")])
                           (nth 2 sample_abi VNull)
                           (SignerBacked sample_address (VArray sample_abi))
                           [VString "0x1"; VString "7"]
                           eq_refl eq_refl eq_refl eq_refl eq_refl eq_refl
                           eq_refl)
                    (or_introl eq_refl)
                    (VString "tx") (object [("status", VNumber 1 0)])
                    TypeError)).
  - exact (proj2 (callFunction_write_path payable_state "deposit" []
                    (object [("value", VString "1.5")])
                    (nth 0 payable_abi VNull)
                    (SignerBacked sample_address (VArray payable_abi)) []
                    eq_refl eq_refl eq_refl eq_refl eq_refl eq_refl eq_refl)
             eq_refl (VString "1.5") "1.5" (VBigNumber 1500000000000000000)
             (VString "tx") (object [("status", VNumber 0 0)])
             eq_refl eq_refl eq_refl).
Defined.

Lemma Array_map_from_inv {A} (f : value -> nat -> outcome A) xs :
  forall i ys,
    Array_map_from f i xs = Returns ys ->
    length ys = length xs /\
    forall k x, xs !! k = Some x ->
      exists y, ys !! k = Some y /\ f x (i + k) = Returns y.
Proof.
  induction xs as [|x xs IH]; intros i ys H; cbn in H.
  - inversion H; subst. split; [reflexivity|]. intros k x0 Hk. discriminate.
  - destruct (f x i) as [y| |] eqn:Hy; cbn in H; try discriminate.
    destruct (Array_map_from f (S i) xs) as [ys'| |] eqn:Hys; cbn in H;
      try discriminate.
    inversion H; subst. destruct (IH (S i) ys' Hys) as [Hlen Hnth].
    split; [cbn; now rewrite Hlen|].
    intros [|k] x0 Hk; cbn in Hk.
    + inversion Hk; subst. exists y. now rewrite Nat.add_0_r.
    + destruct (Hnth k x0 Hk) as (y0 & Hy0 & Hf). exists y0.
      split; [exact Hy0|]. now replace (i + S k) with (S i + k) by lia.
Qed.

Lemma Array_map_from_intro {A} (f : value -> nat -> outcome A) xs :
  forall i ys,
    length ys = length xs ->
    (forall k x y, xs !! k = Some x -> ys !! k = Some y ->
       f x (i + k) = Returns y) ->
    Array_map_from f i xs = Returns ys.
Proof.
  induction xs as [|x xs IH]; intros i [|y ys] Hlen Hf; cbn in Hlen;
    try discriminate; [reflexivity|].
  cbn. pose proof (Hf 0 x y eq_refl eq_refl) as Hy.
  rewrite Nat.add_0_r in Hy. rewrite Hy. cbn. rewrite (IH (S i) ys); [reflexivity | lia |].
  intros k x0 y0 Hx0 Hy0.
  replace (S i + k) with (i + S k) by lia. now apply (Hf (S k)).
Qed.

Lemma nth_lookup_value (l : list value) k d v :
  l !! k = Some v -> nth k l d = v.
Proof.
  revert k. induction l as [|a l IH]; intros [|k] H; cbn in *;
    try discriminate; [now inversion H | now apply IH].
Qed.

(** A second conversion of a converted value changes nothing. *)
Lemma convert_again type v y :
  convert type v = Returns y -> convert type y = Returns y.
Proof.
  unfold convert. destruct type as [| |b|m e|t|n|ts|proto own|name];
    try discriminate.
  - destruct (String_includes "[]" t && Array_isArray v) eqn:Harr.
    { intros H; inversion H; subst. now rewrite Harr. }
    assert (Hconv : forall b, String_includes "[]" t && Array_isArray (VBool b) = false)
      by (intros b; now rewrite andb_false_r).
    assert (Hstr : forall s, String_includes "[]" t && Array_isArray (VString s) = false)
      by (intros s; now rewrite andb_false_r).
    destruct (String.prefix "uint" t || String.prefix "int" t).
    { destruct (js_toString v) as [s| |]; cbn; try discriminate.
      intros H; inversion H; subst. now rewrite Hstr. }
    destruct (String.eqb t "address");
      [intros H; inversion H; subst; now rewrite Harr|].
    destruct (String.eqb t "bool").
    { intros H; inversion H; subst. rewrite Hconv. cbn.
      now destruct (truthy v). }
    destruct (String.prefix "bytes" t);
      [intros H; inversion H; subst; now rewrite Harr|].
    destruct (String.eqb t "string");
      intros H; inversion H; subst; now rewrite Harr.
  - destruct (existsb (fun x => strict_eq_string x "[]") ts && Array_isArray v)
      eqn:Harr; [|discriminate].
    intros H; inversion H; subst. now rewrite Harr.
Qed.

(** X21.  The parameters handed to the contract are as many as the ABI entry
    declares inputs, however many were supplied: a surplus is dropped, and a
    parameter that is missing, or [undefined], is passed on as [undefined]
    without a look at its type.  Without input definitions there are none.
    Processing what was processed changes nothing. *)
Theorem _processParams_shape (inputDefinitions : value) (params processed : list value) :
  _processParams inputDefinitions params = Returns processed ->
  (truthy inputDefinitions = false -> processed = []) /\
  (forall inputs, inputDefinitions = VArray inputs ->
     length processed = length inputs /\
     forall index, index < length inputs ->
       nth index params VUndefined = VUndefined ->
       processed !! index = Some VUndefined) /\
  _processParams inputDefinitions processed = Returns processed.
Proof.
  intros H. unfold _processParams in *.
  destruct (truthy inputDefinitions) eqn:Htruthy; cbn [negb] in *.
  2:{ inversion H; subst. split; [reflexivity|]. split; [|reflexivity].
      intros inputs ->. discriminate. }
  split; [discriminate|].
  destruct inputDefinitions as [| |b|m e|t|n|inputs|proto own|name];
    try discriminate.
  unfold Array_map in *.
  destruct (Array_map_from_inv _ inputs 0 processed H) as [Hlen Hnth].
  split.
  - intros inputs' Heq. inversion Heq; subst inputs'. split; [exact Hlen|].
    intros index Hindex Hmissing.
    destruct (inputs !! index) as [input|] eqn:Hinput.
    + destruct (Hnth index input Hinput) as (y & Hy & Hf).
      cbn in Hf. rewrite Hmissing in Hf. inversion Hf; subst. exact Hy.
    + apply lookup_ge_None in Hinput. lia.
  - apply Array_map_from_intro; [exact Hlen|].
    intros k input y Hinput Hy.
    destruct (Hnth k input Hinput) as (y' & Hy' & Hf).
    assert (y' = y) by congruence. subst y'. cbn in Hf |- *.
    rewrite (nth_lookup_value processed k VUndefined y Hy).
    destruct y; try reflexivity;
      (destruct (nth k params VUndefined); [discriminate|..];
       destruct (js_get input "type") as [type| |]; cbn in Hf |- *;
       try discriminate; exact (convert_again _ _ _ Hf)).
Qed.

Lemma _processParams_shape_witness :
  _processParams (field (nth 2 sample_abi VNull) "inputs")
    [VString "0x1"; VNumber 7 0; VString "surplus"]
  = Returns [VString "0x1"; VString "7"] /\
  _processParams (field (nth 2 sample_abi VNull) "inputs")
    [VString "0x1"; VString "7"]
  = Returns [VString "0x1"; VString "7"].
Proof.
  split; [reflexivity|].
  exact (proj2 (proj2 (_processParams_shape
                         (field (nth 2 sample_abi VNull) "inputs")
                         [VString "0x1"; VNumber 7 0; VString "surplus"]
                         [VString "0x1"; VString "7"] eq_refl))).
Defined.

End CallCoverage.

(* --------------------------------------------------------------------- *)
(** ** The static file server: every answer *)

Section ServerCoverage.
Import Server.
Local Open Scope nat_scope.

Lemma contentType_listed filePath :
  exists type,
    contentType filePath = VString type /\
    (type = "text/plain" \/ In (VString type) (map snd MIME_TYPES)).
Proof.
  rewrite contentType_table.
  destruct (own_lookup (extname filePath) MIME_TYPES) as [v|] eqn:Hl;
    [|exists "text/plain"; auto].
  unfold MIME_TYPES in Hl. cbn in Hl.
  repeat match type of Hl with
         | (if ?b then _ else _) = _ =>
             destruct b;
             [inversion Hl; subst; eexists; split; [reflexivity|];
              right; cbn; tauto|]
         end.
  discriminate.
Qed.

(** X22.  The server answers every request with 200 or 500 and never with 404.
    With 200 goes exactly one header, a [Content-Type] that is [text/plain]
    or a type of the table, and the body is the content of the resolved file
    or, when that file is not found, of the index document; with 500 goes no
    header, after a read error that is not not-found, or when the index
    document cannot be read either. *)
Theorem handler_answers (fs : filesystem) (url : string) :
  (status (handler fs url) = 200 /\
   exists type content,
     headers (handler fs url) = [("Content-Type", VString type)] /\
     body (handler fs url) = content /\
     (type = "text/plain" \/ In (VString type) (map snd MIME_TYPES)) /\
     (fs (resolve url) = ReadOk content \/
      fs (resolve url) = ReadError "ENOENT" /\
      fs "./index.html" = ReadOk content /\ type = "text/html")) \/
  (status (handler fs url) = 500 /\
   headers (handler fs url) = [] /\
   exists code,
     fs (resolve url) = ReadError code /\
     (code = "ENOENT" ->
      body (handler fs url) = "Error loading index.html" /\
      exists code', fs "./index.html" = ReadError code') /\
     (code <> "ENOENT" -> body (handler fs url) = "Server Error: " +:+ code)).
Proof.
  unfold handler.
  destruct (fs (resolve url)) as [content|code] eqn:Hfs.
  - left. split; [reflexivity|].
    destruct (contentType_listed (resolve url)) as (type & Htype & Hlisted).
    exists type, content. cbn. rewrite Htype. auto.
  - destruct (String.eqb_spec code "ENOENT") as [->|Hne].
    + destruct (fs "./index.html") as [content|code'] eqn:Hindex.
      * left. split; [reflexivity|]. exists "text/html", content. cbn.
        split; [reflexivity|]. split; [reflexivity|].
        split; [right; cbn; tauto|]. right. auto.
      * right. split; [reflexivity|]. split; [reflexivity|].
        exists "ENOENT". split; [reflexivity|]. cbn.
        split; [eauto | congruence].
    + right. split; [reflexivity|]. split; [reflexivity|].
      exists code. split; [reflexivity|]. cbn. split; [contradiction | reflexivity].
Qed.

(** X23.  When the file asked for is not found and the index document can be
    read, the answer is the very answer to a request of the root, and of
    [/index.html]. *)
Theorem handler_fallback_root (fs : filesystem) (url content : string) :
  fs (resolve url) = ReadError "ENOENT" ->
  fs "./index.html" = ReadOk content ->
  handler fs url = handler fs "/" /\
  handler fs "/" = handler fs "/index.html" /\
  handler fs url
  = mk_response 200 [("Content-Type", VString "text/html")] content.
Proof.
  intros Hmissing Hindex. unfold handler.
  rewrite Hmissing. cbn [String.eqb Ascii.eqb Bool.eqb].
  assert (Hroot : resolve "/" = "./index.html") by reflexivity.
  assert (Hpage : resolve "/index.html" = "./index.html") by reflexivity.
  rewrite Hroot, Hpage, Hindex.
  assert (Htype : contentType "./index.html" = VString "text/html")
    by (vm_compute; reflexivity).
  rewrite Htype. repeat split; reflexivity.
Qed.

Lemma handler_fallback_root_witness :
  handler sample_site "/missing.css" = handler sample_site "/" /\
  handler sample_site "/" = handler sample_site "/index.html" /\
  handler sample_site "/missing.css"
  = mk_response 200 [("Content-Type", VString "text/html")] "<html></html>".
Proof.
  exact (handler_fallback_root sample_site "/missing.css" "<html></html>"
           eq_refl eq_refl).
Defined.

End ServerCoverage.

(* --------------------------------------------------------------------- *)
(** ** MetaMaskConnector *)

Section WalletCoverage.
Import Process WalletConnector.
Local Open Scope nat_scope.

(** One step of a run: the next answer, by cases. *)
Ltac answer H :=
  match type of H with
  | context [match ?l with [] => _ | _ :: _ => _ end] =>
      is_var l; destruct l as [|[?v|?e|] ?l]; cbn in H
  | context [run _ ?l] =>
      is_var l; destruct l as [|[?v|?e|] ?l]; cbn in H
  end.

(** The same among other code: the next answer and what else was done to
    the connector by then. *)
Ltac answer_among H :=
  match type of H with
  | context [match ?l with [] => _ | _ :: _ => _ end] =>
      is_var l; destruct l as [|[[?v|?e|] ?others] ?l]; cbn in H
  | context [run_among _ ?l] =>
      is_var l; destruct l as [|[[?v|?e|] ?others] ?l]; cbn in H
  end.



(** X25.  [checkConnection] among the listeners of the wallet: it never
    throws and never asks the wallet for access (it only reads the accounts
    already granted).  It answers [true] only after all five answers, in
    order, the callback receiving the address and the chain the connector
    holds when it is called; and when no account was read it has written
    nothing.  An answer [true] does not mean that the connector reports
    connected: a listener may have disconnected it in between.  When
    nothing else ran, [true] leaves the connector connected, and [false]
    leaves either nothing changed, or, when a later step failed, the
    connector reporting connected. *)
Theorem checkConnection_silent (ethereum : bool) (st : state) :
  (forall (answers : list (answer state)) (events : list event)
          (r : outcome bool) (st' : state),
     run_among (checkConnection ethereum st) answers = (events, Some (r, st')) ->
     (forall e, r <> Throws e) /\
     (forall params, ~ In (Request "eth_requestAccounts" params) events) /\
     (r = Returns true ->
        ethereum = true /\
        exists p held reply others,
          events = [ Request "eth_accounts" []; Request "eth_chainId" [];
                     Web3Provider; GetSigner p;
                     Callback "onConnected"
                       [currentAddress held; currentChainId held] ] /\
          answers !! 4 = Some (reply, others) /\
          st' = others held) /\
     (r = Returns false ->
        length events <= 1 ->
        st' = meanwhile (take (length events) answers) st)) /\
  (forall (replies : list (outcome value)) (events : list event)
          (r : outcome bool) (st' : state),
     run (checkConnection ethereum st) replies = (events, Some (r, st')) ->
     (r = Returns true ->
        ethereum = true /\
        exists first chainId p s,
          st' = mk p s true first chainId /\
          events = [ Request "eth_accounts" []; Request "eth_chainId" [];
                     Web3Provider; GetSigner p;
                     Callback "onConnected" [first; chainId] ]) /\
     (r = Returns false ->
        (length events <= 1 /\ st' = st) \/
        (2 <= length events /\ isConnected st' = true))).
Proof.
  assert (Hevents : forall l : list event,
             (forall x, In x l ->
                x = Request "eth_accounts" [] \/ x = Request "eth_chainId" [] \/
                x = Web3Provider \/ (exists p, x = GetSigner p) \/
                exists args, x = Callback "onConnected" args) ->
             forall params, ~ In (Request "eth_requestAccounts" params) l).
  { intros l Hl params Hin.
    destruct (Hl _ Hin) as [Hx|[Hx|[Hx|[[p Hx]|[args Hx]]]]]; discriminate. }
  split.
  - intros answers events r st' H. unfold checkConnection, establish in H.
    destruct ethereum; cbn in H.
    2:{ inversion H; subst. split; [discriminate|]. split; [intros ? []|].
        split; [discriminate|]. intros _ _. reflexivity. }
    answer_among H; [discriminate | | |].
    2:{ inversion H; subst. split; [discriminate|].
        split; [apply Hevents; cbn; intuition eauto|].
        split; [discriminate|]. intros _ _. reflexivity. }
    2:{ inversion H; subst. split; [discriminate|].
        split; [apply Hevents; cbn; intuition eauto|].
        split; discriminate. }
    destruct (first_account v) as [[first|]| |] eqn:Hfirst; cbn in H.
    2:{ inversion H; subst. split; [discriminate|].
        split; [apply Hevents; cbn; intuition eauto|].
        split; [discriminate|]. intros _ _. reflexivity. }
    2:{ inversion H; subst. split; [discriminate|].
        split; [apply Hevents; cbn; intuition eauto|].
        split; [discriminate|]. intros _ _. reflexivity. }
    2:{ inversion H; subst. split; [discriminate|].
        split; [apply Hevents; cbn; intuition eauto|].
        split; discriminate. }
    answer_among H; [discriminate | | |].
    2:{ inversion H; subst. split; [discriminate|].
        split; [apply Hevents; cbn; intuition eauto|].
        split; [discriminate|]. cbn. intros _ Hlen. lia. }
    2:{ inversion H; subst. split; [discriminate|].
        split; [apply Hevents; cbn; intuition eauto|]. split; discriminate. }
    answer_among H; [discriminate | | |].
    2:{ inversion H; subst. split; [discriminate|].
        split; [apply Hevents; cbn; intuition eauto|].
        split; [discriminate|]. cbn. intros _ Hlen. lia. }
    2:{ inversion H; subst. split; [discriminate|].
        split; [apply Hevents; cbn; intuition eauto|]. split; discriminate. }
    answer_among H; [discriminate | | |].
    2:{ inversion H; subst. split; [discriminate|].
        split; [apply Hevents; cbn; intuition eauto|].
        split; [discriminate|]. cbn. intros _ Hlen. lia. }
    2:{ inversion H; subst. split; [discriminate|].
        split; [apply Hevents; cbn; intuition eauto|]. split; discriminate. }
    answer_among H; [discriminate | | |].
    2:{ inversion H; subst. split; [discriminate|].
        split; [apply Hevents; cbn; intuition eauto|].
        split; [discriminate|]. cbn. intros _ Hlen. lia. }
    2:{ inversion H; subst. split; [discriminate|].
        split; [apply Hevents; cbn; intuition eauto|]. split; discriminate. }
    inversion H; subst. split; [discriminate|].
    split; [apply Hevents; cbn; intuition eauto|].
    split; [|discriminate].
    intros _. split; [reflexivity|].
    match goal with
    | |- exists p held reply others, _ /\ _ /\ ?o ?h = _ _ =>
        exists v1, h, (Returns v3), o
    end.
    split; [reflexivity|]. split; reflexivity.
  - intros replies events r st' H. unfold checkConnection, establish in H.
    destruct ethereum; cbn in H.
    2:{ inversion H; subst.
        split; [discriminate|]. intros _. left. cbn. split; [lia | reflexivity]. }
    answer H; [discriminate | | |].
    2:{ inversion H; subst.
        split; [discriminate|]. intros _. left. cbn. split; [lia | reflexivity]. }
    2:{ inversion H; subst. split; discriminate. }
    destruct (first_account v) as [[first|]| |] eqn:Hfirst; cbn in H.
    2:{ inversion H; subst.
        split; [discriminate|]. intros _. left. cbn. split; [lia | reflexivity]. }
    2:{ inversion H; subst.
        split; [discriminate|]. intros _. left. cbn. split; [lia | reflexivity]. }
    2:{ inversion H; subst. split; discriminate. }
    answer H; [discriminate | | |].
    2:{ inversion H; subst.
        split; [discriminate|]. intros _. right. cbn. split; [lia | reflexivity]. }
    2:{ inversion H; subst. split; discriminate. }
    answer H; [discriminate | | |].
    2:{ inversion H; subst.
        split; [discriminate|]. intros _. right. cbn. split; [lia | reflexivity]. }
    2:{ inversion H; subst. split; discriminate. }
    answer H; [discriminate | | |].
    2:{ inversion H; subst.
        split; [discriminate|]. intros _. right. cbn. split; [lia | reflexivity]. }
    2:{ inversion H; subst. split; discriminate. }
    answer H; [discriminate | | |].
    2:{ inversion H; subst.
        split; [discriminate|]. intros _. right. cbn. split; [lia | reflexivity]. }
    2:{ inversion H; subst. split; discriminate. }
    inversion H; subst. split; [|discriminate].
    intros _. split; [reflexivity|]. eexists _, _, _, _. split; reflexivity.
Qed.

Lemma checkConnection_silent_witness :
  run_among (checkConnection true constructor)
    [ alone (Returns (VArray [sample_address]));
      (Returns (VString "0x1"), disconnected);
      alone (Returns (object [])); alone (Returns (object []));
      alone (Returns VUndefined) ]
  = ([ Request "eth_accounts" []; Request "eth_chainId" [];
       Web3Provider; GetSigner (object []);
       Callback "onConnected" [VNull; VString "0x1"] ],
     Some (Returns true,
           mk (object []) (object []) false VNull (VString "0x1"))) /\
  true = true.
Proof.
  split; [reflexivity|].
  exact (proj1 (proj1 (proj2 (proj2 (proj1 (checkConnection_silent true constructor)
    [ alone (Returns (VArray [sample_address]));
      (Returns (VString "0x1"), disconnected);
      alone (Returns (object [])); alone (Returns (object []));
      alone (Returns VUndefined) ]
    [ Request "eth_accounts" []; Request "eth_chainId" [];
      Web3Provider; GetSigner (object []);
      Callback "onConnected" [VNull; VString "0x1"] ]
    (Returns true)
    (mk (object []) (object []) false VNull (VString "0x1"))
    eq_refl))) eq_refl)).
Defined.

Lemma left_by_notify name args st replies st' :
  left_by (notify name args st) replies = Some st' -> st' = st.
Proof.
  unfold left_by, notify. cbn. destruct replies as [|reply replies]; cbn;
    [discriminate|]. now inversion 1.
Qed.

(** X26.  No call or notification other than [connect] and [checkConnection]
    touches the provider and the signer: after [disconnect], and after the
    accounts changed to none, the connector reports disconnected, yet
    [getProvider] and [getSigner] answer as before, and so the interactor,
    which reads them through these two methods, goes on building
    signer-backed handles. *)
Theorem wallet_handles_kept (ethereum : bool) (c : call)
    (replies : list (outcome value)) (wallet wallet' : state) :
  perform ethereum c replies wallet = Some wallet' ->
  c <> Connect ->
  c <> CheckConnection ->
  getProvider wallet' = getProvider wallet /\
  getSigner wallet' = getSigner wallet /\
  (c = Disconnect \/ c = AccountsChanged (VArray []) ->
   isConnected wallet' = false /\ currentAddress wallet' = VNull) /\
  (forall isAddress Contract_builds connects address interactor,
     ContractInteractor.setContractAddress
       (Main.environment_of wallet' isAddress Contract_builds connects)
       address interactor
     = ContractInteractor.setContractAddress
         (Main.environment_of wallet isAddress Contract_builds connects)
         address interactor).
Proof.
  intros H Hconnect Hcheck.
  assert (Hkept : getProvider wallet' = getProvider wallet /\
                  getSigner wallet' = getSigner wallet /\
                  (c = Disconnect \/ c = AccountsChanged (VArray []) ->
                   isConnected wallet' = false /\ currentAddress wallet' = VNull)).
  { destruct c as [| | |chainId|accounts|chainId]; cbn in H;
      try contradiction.
    - apply left_by_notify in H. subst. repeat split; reflexivity.
    - apply left_by_notify in H. subst.
      split; [reflexivity|]. split; [reflexivity|].
      intros [Hc|Hc]; discriminate.
    - destruct accounts as [| |b|m e|s|n|[|first rest]|proto own|name];
        cbn in H; try discriminate;
        try (apply left_by_notify in H; subst);
        try (unfold left_by in H; cbn in H; inversion H; subst);
        (split; [reflexivity|]; split; [reflexivity|]);
        try (intros [Hc|Hc]; discriminate).
      intros _. split; reflexivity.
    - unfold switchChain, left_by in H. destruct ethereum; cbn in H.
      + destruct replies as [|reply replies]; cbn in H; [discriminate|].
        inversion H; subst. split; [reflexivity|]. split; [reflexivity|].
        intros [Hc|Hc]; discriminate.
      + inversion H; subst. split; [reflexivity|]. split; [reflexivity|].
        intros [Hc|Hc]; discriminate. }
  destruct Hkept as (Hp & Hs & Hoff).
  split; [exact Hp|]. split; [exact Hs|]. split; [exact Hoff|].
  intros isAddress Contract_builds connects address interactor.
  unfold Main.environment_of. now rewrite Hp, Hs.
Qed.

Lemma wallet_handles_kept_witness :
  perform true Disconnect [Returns VUndefined]
    (mk (object []) (object []) true sample_address (VString "0x1"))
  = Some (mk (object []) (object []) false VNull (VString "0x1")) /\
  getSigner (mk (object []) (object []) false VNull (VString "0x1"))
  = object [].
Proof.
  split; [reflexivity|].
  exact (proj1 (proj2
    (wallet_handles_kept true Disconnect [Returns VUndefined]
       (mk (object []) (object []) true sample_address (VString "0x1"))
       (mk (object []) (object []) false VNull (VString "0x1"))
       eq_refl ltac:(discriminate) ltac:(discriminate)))).
Defined.

End WalletCoverage.

(* --------------------------------------------------------------------- *)
(** ** The page script: the call button and the saved-ABI selector *)

Section MainCoverage.
Import Process Main.
Local Open Scope nat_scope.

Lemma run_lift {S A B : Type} (m : ContractInteractor.io A)
    (k : outcome A -> S -> proc event S B) :
  forall (s : S) replies,
    run (lift m s k) replies
    = match ContractInteractor.run m replies with
      | (asked, Some r) =>
          let '(events, result) := run (k r s) (drop (length asked) replies) in
          (map Ethers asked ++ events, result)
      | (asked, None) => (map Ethers asked, None)
      end.
Proof.
  induction m as [r|e c IH]; intros s replies; cbn.
  - rewrite drop_0. destruct (run (k r s) replies); reflexivity.
  - destruct replies as [|reply replies]; cbn; [reflexivity|].
    rewrite IH.
    destruct (ContractInteractor.run (c reply) replies) as [asked [r|]]; cbn;
      [|reflexivity].
    destruct (run (k r s) (drop (length asked) replies)); reflexivity.
Qed.

(** The same among other code: the method goes on from the page as the
    other code left it over the answers the interactor consumed. *)
Lemma run_among_lift {S A B : Type} (m : ContractInteractor.io A)
    (k : outcome A -> S -> proc event S B) :
  forall (s : S) (answers : list (answer S)),
    run_among (lift m s k) answers
    = match ContractInteractor.run m (map fst answers) with
      | (asked, Some r) =>
          let '(events, result) :=
            run_among (k r (meanwhile (take (length asked) answers) s))
              (drop (length asked) answers) in
          (map Ethers asked ++ events, result)
      | (asked, None) => (map Ethers asked, None)
      end.
Proof.
  induction m as [r|e c IH]; intros s answers; cbn.
  - rewrite drop_0, take_0. cbn.
    destruct (run_among (k r s) answers); reflexivity.
  - destruct answers as [|[reply others] answers]; cbn; [reflexivity|].
    rewrite IH.
    destruct (ContractInteractor.run (c reply) (map fst answers))
      as [asked [r|]]; cbn; [|reflexivity].
    destruct (run_among _ (drop (length asked) answers)); reflexivity.
Qed.

Lemma take_plus {A : Type} (n m : nat) (l : list A) :
  take (n + m) l = take n l ++ take m (drop n l).
Proof.
  revert l. induction n as [|n IH]; intros [|x l]; cbn; try reflexivity.
  - now rewrite take_nil.
  - now rewrite IH.
Qed.

Lemma meanwhile_app {S : Type} (l1 l2 : list (answer S)) (s : S) :
  meanwhile (l1 ++ l2) s = meanwhile l2 (meanwhile l1 s).
Proof. unfold meanwhile. apply fold_left_app. Qed.

Lemma send_events via functionName processedParams txOptions :
  forall replies e,
    In e (fst (ContractInteractor.run
                 (ContractInteractor.send via functionName processedParams
                    txOptions) replies)) ->
    e = ContractInteractor.Call via functionName
          (processedParams ++ [object txOptions]) \/
    exists tx, e = ContractInteractor.Wait tx.
Proof.
  intros replies e. unfold ContractInteractor.send, ContractInteractor.await.
  destruct replies as [|[tx|e1|] [|[receipt|e2|] replies]]; cbn;
    intuition eauto.
Qed.

(** What [callFunction] asks of ethers when it is called without options. *)
Lemma callFunction_plain_events functionName params st :
  forall replies e,
    In e (fst (ContractInteractor.run
                 (ContractInteractor.callFunction functionName params
                    (object []) st) replies)) ->
    match e with
    | ContractInteractor.ParseEther _ => False
    | ContractInteractor.Call via method args =>
        method = functionName /\
        (ContractInteractor.contract st = Some via \/
         ContractInteractor.contractWithSigner st = Some via /\
         last args = Some (object []))
    | ContractInteractor.Wait _ => True
    end.
Proof.
  intros replies e. unfold ContractInteractor.callFunction.
  destruct (ContractInteractor.isContractReady st); cbn [negb]; [|intros []].
  destruct (ContractInteractor.getFunctionDetails functionName st) as [fd| |];
    cbn [ContractInteractor.after]; try (intros []).
  destruct (truthy fd); cbn [negb]; [|intros []].
  destruct (ContractInteractor.isReadOnly fd) as [ro| |];
    cbn [ContractInteractor.after]; try (intros []).
  destruct (ContractInteractor.isPayable fd) as [pay| |];
    cbn [ContractInteractor.after]; try (intros []).
  destruct (inputs ← js_get fd "inputs";
            ContractInteractor._processParams inputs params) as [processed| |];
    cbn [ContractInteractor.after]; try (intros []).
  destruct (truthy ro).
  - destruct (ContractInteractor.contract st) as [via|] eqn:Hvia; [|intros []].
    unfold ContractInteractor.await.
    destruct replies as [|[result|e1|] replies]; cbn;
      intros [<-|[]]; auto.
  - destruct (ContractInteractor.contractWithSigner st) as [via|] eqn:Hvia;
      [|intros []].
    assert (Hplain :
      (if truthy pay
       then ContractInteractor.after (js_get (object []) "value") (fun supplied =>
              if truthy supplied
              then ContractInteractor.after (js_toString supplied) (fun amount =>
                     ContractInteractor.await (ContractInteractor.ParseEther amount)
                       (fun wei =>
                          ContractInteractor.send via functionName processed
                            [("value", wei)]))
              else ContractInteractor.send via functionName processed [])
       else ContractInteractor.send via functionName processed [])
      = ContractInteractor.send via functionName processed [])
      by (destruct (truthy pay); reflexivity).
    rewrite Hplain. intros Hin.
    destruct (send_events via functionName processed [] replies e Hin)
      as [->|[tx ->]]; [|exact I].
    split; [reflexivity|]. right. split; [reflexivity|]. apply last_snoc.
Qed.

(** No request to ethers is made once [callFunction] has ended. *)
Lemma record_call_asks_nothing functionName params called (p : page) e :
  forall replies,
    ~ In (Ethers e) (fst (run (record_call functionName params called p) replies)).
Proof.
  intros replies. unfold record_call, failed.
  destruct called as [result|x|]; cbn.
  - destruct replies as [|[shown|x|] replies]; cbn;
      [intros [H|[]]; discriminate | | |intros [H|[]]; discriminate].
    + destruct replies as [|[now|x|] replies]; cbn;
        [intros [H|[H|[]]]; discriminate | | |
         intros [H|[H|[]]]; discriminate].
      * destruct replies as [|[drawn|x|] replies]; cbn;
          [intros [H|[H|[H|[]]]]; discriminate |
           intros [H|[H|[H|[]]]]; discriminate | |
           intros [H|[H|[H|[]]]]; discriminate].
        destruct replies as [|reply replies]; cbn;
          intros [H|[H|[H|[H|[]]]]]; discriminate.
      * destruct replies as [|reply replies]; cbn;
          intros [H|[H|[H|[]]]]; discriminate.
    + destruct replies as [|reply replies]; cbn;
        intros [H|[H|[]]]; discriminate.
  - destruct replies as [|reply replies]; cbn; intros [H|[]]; discriminate.
  - intros [].
Qed.

(** X27.  The call button never has an amount converted or sent: whatever the
    form and the wallet answer, each request to ethers is a call of the
    selected function, through the read-only handle or through the
    signer-backed one with empty transaction options, or the wait for a
    transaction. *)
Theorem call_button_sends_no_value (functionName : string)
    (interactor : ContractInteractor.state) (history : HistoryManager.state)
    (replies : list (outcome value)) (e : ContractInteractor.event) :
  In (Ethers e) (fst (run (call_button functionName interactor history) replies)) ->
  match e with
  | ContractInteractor.ParseEther _ => False
  | ContractInteractor.Call via method args =>
      method = functionName /\
      (ContractInteractor.contract interactor = Some via \/
       ContractInteractor.contractWithSigner interactor = Some via /\
       last args = Some (object []))
  | ContractInteractor.Wait _ => True
  end.
Proof.
  unfold call_button.
  destruct (String.eqb functionName EmptyString).
  { destruct replies; cbn; intros [H|[]]; discriminate. }
  destruct (negb (ContractInteractor.isContractReady interactor)).
  { destruct replies; cbn; intros [H|[]]; discriminate. }
  cbn [run]. destruct replies as [|reply replies]; [intros [H|[]]; discriminate|].
  destruct reply as [collected|x|].
  2:{ unfold failed. destruct replies; cbn; intros [H|[H|[]]]; discriminate. }
  2:{ cbn. intros [H|[]]; discriminate. }
  destruct collected as [| |b|m ex|s|n|params|proto own|name];
    try (cbn; intros [H|[]]; discriminate).
  rewrite run_lift. cbn [fst].
  pose proof (callFunction_plain_events functionName params interactor replies e)
    as Hcall.
  destruct (ContractInteractor.run _ replies) as [asked [called|]].
  2:{ cbn. intros [H|H]; [discriminate|]. apply Hcall. cbn.
      apply in_map_iff in H as (e' & He' & Hin). now inversion He'; subst. }
  pose proof (record_call_asks_nothing functionName params called
                (interactor, history) e (drop (length asked) replies)) as Htail.
  destruct (run (record_call functionName params called (interactor, history))
              (drop (length asked) replies)) as [evs res].
  cbn. intros [H|H]; [discriminate|].
  apply in_app_or in H as [H|H]; [|contradiction (Htail H)].
  apply Hcall. cbn.
  apply in_map_iff in H as (e' & He' & Hin). now inversion He'; subst.
Qed.

Lemma call_button_sends_no_value_witness :
  In (Ethers (ContractInteractor.Call
                (ContractInteractor.SignerBacked sample_address
                   (VArray payable_abi))
                "deposit" [object []]))
     (fst (run (call_button "deposit" payable_state
                  (HistoryManager.mk [] ∅))
               [Returns (VArray [])])) /\
  last [object []] = Some (object []).
Proof.
  assert (Hin : In (Ethers (ContractInteractor.Call
                              (ContractInteractor.SignerBacked sample_address
                                 (VArray payable_abi))
                              "deposit" [object []]))
                   (fst (run (call_button "deposit" payable_state
                                (HistoryManager.mk [] ∅))
                             [Returns (VArray [])])))
    by (cbn; auto).
  split; [exact Hin|].
  destruct (call_button_sends_no_value "deposit" payable_state
              (HistoryManager.mk [] ∅) [Returns (VArray [])] _ Hin)
    as [_ [Hread | [_ Hlast]]]; [discriminate | exact Hlast].
Defined.

Ltac next_answer H :=
  match type of H with
  | context [match ?l with [] => _ | _ :: _ => _ end] =>
      is_var l; destruct l as [|[[?v|?x|] ?others] ?l];
      cbn -[recorded] in H
  end.

(** What the handler does to the page from the end of [callFunction] on,
    among other code: nothing, the error then being shown unless the run
    went beyond the model; or the call is recorded on the page as it is
    when the clock has answered, the second answer. *)
Lemma record_call_among functionName params called (p p' : page)
    (rest : list (answer page)) (evs : list event) (r : outcome unit) :
  run_among (record_call functionName params called p) rest
  = (evs, Some (r, p')) ->
  (p' = meanwhile (take (length evs) rest) p /\
   (r = Returns tt -> exists title message, In (ShowError title message) evs)) \/
  (exists result now shown clock more,
     called = Returns result /\
     rest = shown :: (Returns now, clock) :: more /\
     In (ShowFunctionResult result) evs /\
     3 <= length evs <= 4 /\
     p' = meanwhile (take (length evs - 2) more)
            (recorded functionName params result now
               (meanwhile [shown; (Returns now, clock)] p))).
Proof.
  intros H. unfold record_call, failed in H.
  destruct called as [result|x|]; cbn -[recorded] in H.
  2:{ next_answer H; inversion H; subst; left; (split; [reflexivity|]);
        intros _; eexists _, _; cbn; eauto. }
  2:{ inversion H; subst. left. split; [reflexivity | discriminate]. }
  next_answer H; [discriminate | | |].
  2:{ next_answer H; inversion H; subst; left; (split; [reflexivity|]);
        intros _; eexists _, _; cbn; eauto. }
  2:{ inversion H; subst. left. split; [reflexivity | discriminate]. }
  next_answer H; [discriminate | | |].
  2:{ next_answer H; inversion H; subst; left; (split; [reflexivity|]);
        intros _; eexists _, _; cbn; eauto. }
  2:{ inversion H; subst. left. split; [reflexivity | discriminate]. }
  next_answer H; [discriminate | | |].
  - inversion H; subst. right.
    eexists result, v0, _, _, _. split; [reflexivity|]. split; [reflexivity|].
    split; [cbn; auto|]. split; [cbn; lia|]. reflexivity.
  - next_answer H; inversion H; subst; right;
      (eexists result, v0, _, _, _; split; [reflexivity|];
       split; [reflexivity|]; split; [cbn; auto|]; split; [cbn; lia|];
       reflexivity).
  - inversion H; subst. right.
    eexists result, v0, _, _, _. split; [reflexivity|]. split; [reflexivity|].
    split; [cbn; auto|]. split; [cbn; lia|]. reflexivity.
Qed.

(** X28.  The call button among other code, which may write to the
    interactor and to the history manager whenever the handler waits.  The
    handler either writes nothing, or records one call: [callFunction], run
    on the interactor as it was when the parameters were collected, had
    returned, the result was shown, and the record (the time, the function,
    the collected parameters, the result) carries the address the
    interactor holds when the clock has answered and is put before the
    records the manager holds then, not those it held at the click.  A run
    that ends without an error shown has recorded the call.  Recording
    leaves the interactor alone, puts the record first and cuts the list
    at the cap, changes no key of the store other than the history's
    own, and that one only if the store accepts the write: the list and the
    store agree afterwards exactly then, or when they held the same
    before. *)
Theorem call_button_records (functionName : string)
    (interactor : ContractInteractor.state) (history : HistoryManager.state)
    (answers : list (answer page)) (events : list event) (r : outcome unit)
    (p' : page) :
  run_among (call_button functionName interactor history) answers
  = (events, Some (r, p')) ->
  let recorded_call :=
    exists (now : value) (params : list value) (result : value)
           (others clock : page -> page) (more : list (answer page))
           (asked : list ContractInteractor.event)
           (before after : list (answer page)),
      answers = (Returns (VArray params), others) :: more /\
      ContractInteractor.run
        (ContractInteractor.callFunction functionName params (object [])
           (fst (others (interactor, history)))) (map fst more)
      = (asked, Some (Returns result)) /\
      In (ShowFunctionResult result) events /\
      take (length events) answers = before ++ after /\
      length before = length asked + 3 /\
      last before = Some (Returns now, clock) /\
      p' = meanwhile after
             (recorded functionName params result now
                (meanwhile before (interactor, history))) in
  (p' = meanwhile (take (length events) answers) (interactor, history) \/
   recorded_call) /\
  (r = Returns tt ->
   (forall title message, ~ In (ShowError title message) events) ->
   recorded_call) /\
  (forall (now : value) (params : list value) (result : value) (p : page),
     let item :=
       historyItem now (ContractInteractor.contractAddress (fst p))
         functionName params result in
     let q := recorded functionName params result now p in
     fst q = fst p /\
     HistoryManager.getHistory (snd q)
     = take HistoryManager.maxHistoryItems
         (item :: HistoryManager.getHistory (snd p)) /\
     (forall key, key <> HistoryManager.storageKey ->
        HistoryManager.storage (snd q) !! key
        = HistoryManager.storage (snd p) !! key) /\
     HistoryManager.storage (snd q)
     = if Storage.accepts HistoryManager.storageKey
            (VArray (HistoryManager.getHistory (snd q)))
            (HistoryManager.storage (snd p))
       then <[HistoryManager.storageKey
              := VArray (HistoryManager.getHistory (snd q))]>
              (HistoryManager.storage (snd p))
       else HistoryManager.storage (snd p)).
Proof.
  intros H recorded_call.
  assert (Hrecorded :
    forall (now : value) (params : list value) (result : value) (p : page),
      let item :=
        historyItem now (ContractInteractor.contractAddress (fst p))
          functionName params result in
      let q := recorded functionName params result now p in
      fst q = fst p /\
      HistoryManager.getHistory (snd q)
      = take HistoryManager.maxHistoryItems
          (item :: HistoryManager.getHistory (snd p)) /\
      (forall key, key <> HistoryManager.storageKey ->
         HistoryManager.storage (snd q) !! key
         = HistoryManager.storage (snd p) !! key) /\
      HistoryManager.storage (snd q)
      = if Storage.accepts HistoryManager.storageKey
             (VArray (HistoryManager.getHistory (snd q)))
             (HistoryManager.storage (snd p))
        then <[HistoryManager.storageKey
               := VArray (HistoryManager.getHistory (snd q))]>
               (HistoryManager.storage (snd p))
        else HistoryManager.storage (snd p)).
  { intros now params result [i h] item q. subst q item.
    unfold recorded. cbn [fst snd].
    unfold ContractInteractor.getContractAddress, HistoryManager.getHistory.
    split; [reflexivity|]. split; [apply addToHistory_history|].
    split; [|apply addToHistory_storage].
    intros key Hkey. rewrite addToHistory_storage.
    destruct (Storage.accepts _ _ _); [|reflexivity].
    now apply lookup_written_ne. }
  assert (Hquiet :
    p' = meanwhile (take (length events) answers) (interactor, history) ->
    (r = Returns tt -> exists title message, In (ShowError title message) events) ->
    (p' = meanwhile (take (length events) answers) (interactor, history) \/
     recorded_call) /\
    (r = Returns tt ->
     (forall title message, ~ In (ShowError title message) events) ->
     recorded_call)).
  { intros Hp Hshown. split; [now left|].
    intros Hr Hno. destruct (Hshown Hr) as (title & message & Hin).
    contradiction (Hno title message Hin). }
  assert (Hmain :
    (p' = meanwhile (take (length events) answers) (interactor, history) \/
     recorded_call) /\
    (r = Returns tt ->
     (forall title message, ~ In (ShowError title message) events) ->
     recorded_call)).
  2:{ destruct Hmain as [H1 H2]. split; [exact H1|]. split; [exact H2|].
      exact Hrecorded. }
  clear Hrecorded. unfold call_button in H.
  destruct (String.eqb functionName EmptyString).
  { cbn in H. next_answer H; inversion H; subst.
    all: apply Hquiet; [reflexivity|]; intros _; eexists _, _; cbn; eauto. }
  destruct (negb (ContractInteractor.isContractReady interactor)).
  { cbn in H. next_answer H; inversion H; subst.
    all: apply Hquiet; [reflexivity|]; intros _; eexists _, _; cbn; eauto. }
  cbn [run_among] in H.
  destruct answers as [|[reply others] answers]; [discriminate|].
  destruct reply as [collected|x|].
  2:{ unfold failed in H. cbn in H. next_answer H; inversion H; subst.
      all: apply Hquiet; [reflexivity|]; intros _; eexists _, _; cbn; eauto. }
  2:{ cbn in H. inversion H; subst. apply Hquiet; [reflexivity | discriminate]. }
  destruct collected as [| |b|m ex|s|n|params|proto own|name];
    try (cbn in H; inversion H; subst;
         apply Hquiet; [reflexivity | discriminate]).
  rewrite run_among_lift in H.
  destruct (ContractInteractor.run _ (map fst answers))
    as [asked [called|]] eqn:Hcall; [|discriminate].
  pose proof (take_drop (length asked) answers) as Hsplit.
  pose proof (length_take answers (length asked)) as Hpre.
  pose proof (length_drop answers (length asked)) as Hrest.
  set (pre := take (length asked) answers) in *.
  set (rest := drop (length asked) answers) in *.
  destruct (run_among _ rest) as [evs [[r0 p0]|]] eqn:Htail; [|discriminate].
  inversion H; subst events r0 p0. clear H.
  assert (Hlen : length (CollectFunctionParams :: map Ethers asked ++ evs)
                 = S (length asked + length evs))
    by (cbn; now rewrite length_app, length_map).
  assert (Htake : @take (answer page)
                    (length (CollectFunctionParams :: map Ethers asked ++ evs))
                    ((Returns (VArray params), others) :: answers)
                  = ((Returns (VArray params), others) :: pre)
                    ++ take (length evs) rest).
  { rewrite Hlen. cbn [take]. rewrite take_plus. reflexivity. }
  apply record_call_among in Htail
    as [[Hp Hshown] |
        (result & now & shown & clock & more & -> & Hmore & Hin & Hevs & Hp)].
  - apply Hquiet.
    + rewrite Hp. symmetry.
      etransitivity;
        [exact (f_equal (fun l => meanwhile l (interactor, history)) Htake)|].
      exact (meanwhile_app _ _ _).
    + intros Hr. destruct (Hshown Hr) as (title & message & Hin).
      exists title, message. right. apply in_or_app. now right.
  - assert (Hr : recorded_call).
    { exists now, params, result, others, clock, answers, asked,
        (((Returns (VArray params), others) :: pre)
         ++ [shown; (Returns now, clock)]),
        (take (length evs - 2) more).
      split; [reflexivity|]. split; [exact Hcall|].
      split; [right; apply in_or_app; now right|].
      split.
      { etransitivity; [exact Htake|]. rewrite Hmore, <- app_assoc. f_equal.
        destruct (length evs) as [|[|n]] eqn:Hn; [lia | lia |].
        cbn. now rewrite Nat.sub_0_r. }
      split.
      { rewrite length_app. cbn [length]. rewrite Hmore in Hrest.
        cbn [length] in Hrest. unfold answer in *. lia. }
      split; [now rewrite last_app|].
      rewrite Hp. apply (f_equal (meanwhile _)).
      apply (f_equal (recorded _ _ _ _)).
      symmetry. exact (meanwhile_app (_ :: pre) _ _). }
    split; [now right | intros _ _; exact Hr].
Qed.

Lemma call_button_records_witness :
  run_among
    (call_button "balanceOf" (token_state false) (HistoryManager.mk [] ∅))
    [ alone (Returns (VArray [VString "0x1"]));
      (Returns (VBigNumber 5),
       fun p => (fst p, HistoryManager.mk [sample_entry 1] ∅));
      alone (Returns VUndefined); alone (Returns (VNumber 1700000000000 0));
      alone (Returns VUndefined) ]
  = ([ CollectFunctionParams;
       Ethers (ContractInteractor.Call
                 (ContractInteractor.ReadOnly sample_address (VArray sample_abi))
                 "balanceOf" [VString "0x1"]);
       ShowFunctionResult (VString "5"); DateNow;
       RenderTransactionHistory
         [ historyItem (VNumber 1700000000000 0) sample_address "balanceOf"
             [VString "0x1"] (VString "5");
           sample_entry 1 ] ],
     Some (Returns tt,
           (token_state false,
            HistoryManager.mk
              [ historyItem (VNumber 1700000000000 0) sample_address "balanceOf"
                  [VString "0x1"] (VString "5");
                sample_entry 1 ]
              (<["tx_history" :=
                   VArray
                     [ historyItem (VNumber 1700000000000 0) sample_address
                         "balanceOf" [VString "0x1"] (VString "5");
                       sample_entry 1 ]]> ∅)))) /\
  fst (recorded "balanceOf" [VString "0x1"] (VString "5")
         (VNumber 1700000000000 0)
         (token_state false, HistoryManager.mk [sample_entry 1] ∅))
  = token_state false.
Proof.
  assert (Hrun :
    run_among
      (call_button "balanceOf" (token_state false) (HistoryManager.mk [] ∅))
      [ alone (Returns (VArray [VString "0x1"]));
        (Returns (VBigNumber 5),
         fun p => (fst p, HistoryManager.mk [sample_entry 1] ∅));
        alone (Returns VUndefined); alone (Returns (VNumber 1700000000000 0));
        alone (Returns VUndefined) ]
    = ([ CollectFunctionParams;
         Ethers (ContractInteractor.Call
                   (ContractInteractor.ReadOnly sample_address (VArray sample_abi))
                   "balanceOf" [VString "0x1"]);
         ShowFunctionResult (VString "5"); DateNow;
         RenderTransactionHistory
           [ historyItem (VNumber 1700000000000 0) sample_address "balanceOf"
               [VString "0x1"] (VString "5");
             sample_entry 1 ] ],
       Some (Returns tt,
             (token_state false,
              HistoryManager.mk
                [ historyItem (VNumber 1700000000000 0) sample_address
                    "balanceOf" [VString "0x1"] (VString "5");
                  sample_entry 1 ]
                (<["tx_history" :=
                     VArray
                       [ historyItem (VNumber 1700000000000 0) sample_address
                           "balanceOf" [VString "0x1"] (VString "5");
                         sample_entry 1 ]]> ∅)))))
    by reflexivity.
  split; [exact Hrun|].
  exact (proj1 (proj2 (proj2 (call_button_records _ _ _ _ _ _ _ Hrun))
                  (VNumber 1700000000000 0) [VString "0x1"] (VString "5")
                  (token_state false, HistoryManager.mk [sample_entry 1] ∅))).
Defined.




End MainCoverage.

(* --------------------------------------------------------------------- *)
(** ** UIManager: from the form to the call *)

Section FormCoverage.
Import UIManager Reference.
Local Open Scope nat_scope.

Lemma is_ascii_string_cons c r :
  is_ascii_string (String c r)
  = (nat_of_ascii c <? 128) && is_ascii_string r.
Proof. reflexivity. Qed.

Lemma trim_start_ascii s :
  is_ascii_string s = true -> is_ascii_string (trim_start s) = true.
Proof.
  induction s as [|c r IH]; [reflexivity|]. intros H. cbn [trim_start].
  destruct (is_space c); [|exact H].
  rewrite is_ascii_string_cons in H. apply andb_true_iff in H as [_ H]. auto.
Qed.

Lemma trim_end_ascii s :
  is_ascii_string s = true -> is_ascii_string (trim_end s) = true.
Proof.
  induction s as [|c r IH]; [reflexivity|]. intros H. cbn [trim_end].
  rewrite is_ascii_string_cons in H. apply andb_true_iff in H as [Hc H].
  specialize (IH H).
  destruct (trim_end r) as [|c' r'].
  - destruct (is_space c); [reflexivity|].
    rewrite is_ascii_string_cons, Hc. reflexivity.
  - rewrite is_ascii_string_cons, Hc. exact IH.
Qed.

Lemma String_trim_ascii s :
  is_ascii_string s = true ->
  exists v, String_trim s = Returns v /\ is_ascii_string v = true.
Proof.
  intros H. unfold String_trim. rewrite H. eexists. split; [reflexivity|].
  now apply trim_end_ascii, trim_start_ascii.
Qed.

Lemma String_split_comma_ascii s :
  is_ascii_string s = true ->
  String_split_comma s <> [] /\
  List.Forall (fun piece => is_ascii_string piece = true) (String_split_comma s).
Proof.
  induction s as [|c r IH]; intros H; cbn [String_split_comma].
  - split; [discriminate|]. repeat constructor.
  - rewrite is_ascii_string_cons in H. apply andb_true_iff in H as [Hc H].
    destruct (IH H) as [Hne Hall].
    destruct (String_split_comma r) as [|piece pieces]; [contradiction|].
    inversion Hall; subst.
    destruct (nat_of_ascii c =? 44).
    + split; [discriminate|]. constructor; [reflexivity|]. now constructor.
    + split; [discriminate|]. constructor; [|assumption].
      rewrite is_ascii_string_cons, Hc. assumption.
Qed.

Lemma trim_all_ascii pieces :
  List.Forall (fun piece => is_ascii_string piece = true) pieces ->
  exists trimmed,
    trim_all pieces = Returns trimmed /\ length trimmed = length pieces.
Proof.
  induction 1 as [|piece pieces Hpiece _ IH]; cbn [trim_all].
  - exists []. split; reflexivity.
  - destruct (String_trim_ascii piece Hpiece) as (v & -> & _).
    destruct IH as (trimmed & -> & Hlen). cbn.
    eexists. split; [reflexivity|]. cbn. now rewrite Hlen.
Qed.

(** What the form collects for a parameter is left as it is by the
    conversion of [_processParams], is not [undefined], and, when it is an
    array, has at least one element. *)
Lemma collected_shape c t :
  is_ascii_string (value c) = true ->
  dataset_type c = Some t ->
  exists p,
    collected c = Returns p /\
    ContractInteractor.convert (VString t) p = Returns p /\
    p <> VUndefined /\
    match p with
    | VArray xs => xs <> []
    | _ => True
    end.
Proof.
  intros Hascii Htype. unfold collected. rewrite Htype.
  destruct (String_trim_ascii (value c) Hascii) as (v & -> & Hv).
  cbn [mbind outcome_bind].
  destruct (String.eqb_spec t "bool") as [->|Hbool].
  { eexists. split; [reflexivity|]. split; [|split; [discriminate | exact I]].
    cbn. now destruct (String.eqb v "true"). }
  destruct (String_includes "[]" t) eqn:Harr.
  { destruct (String_split_comma_ascii v Hv) as [Hne Hall].
    destruct (trim_all_ascii _ Hall) as (trimmed & -> & Hlen).
    cbn [mbind outcome_bind mret outcome_ret].
    eexists. split; [reflexivity|].
    split; [unfold ContractInteractor.convert; now rewrite Harr|].
    split; [discriminate|].
    destruct trimmed; [|discriminate].
    destruct (String_split_comma v); [contradiction | discriminate]. }
  eexists. split; [reflexivity|]. split; [|split; [discriminate | exact I]].
  unfold ContractInteractor.convert. rewrite Harr. cbn [andb].
  destruct (String.prefix "uint" t || String.prefix "int" t); [reflexivity|].
  destruct (String.eqb t "address"); [reflexivity|].
  apply String.eqb_neq in Hbool. rewrite Hbool.
  destruct (String.prefix "bytes" t); [reflexivity|].
  destruct (String.eqb t "string"); reflexivity.
Qed.

(** The control built for an input of an ABI. *)
Lemma param_control_typed input index :
  typed input = true ->
  exists t,
    field input "type" = VString t /\
    param_control input index
    = Returns (mk_control ("param-" +:+ index_toString index) (Some t)
                 (if String.eqb t "bool" then "true" else "")).
Proof.
  unfold typed, named. intros H.
  apply andb_true_iff in H as [H Htype].
  apply andb_true_iff in H as [Hread Hname].
  destruct (field input "type") as [| |b|m e|t|n|xs|proto own|name] eqn:Ht;
    try discriminate.
  exists t. split; [reflexivity|]. unfold param_control.
  rewrite (js_get_readable input "name" Hread eq_refl),
          (js_get_readable input "type" Hread eq_refl), Ht.
  cbn [mbind outcome_bind].
  assert (Hlabel : forall alternative,
             exists text,
               String_of (js_or (field input "name") (VString alternative))
               = Returns text).
  { intros alternative. unfold js_or.
    destruct (field input "name") as [| |b|m e|s|n|xs|proto own|name];
      try discriminate; cbn; [eauto | eauto |].
    destruct (negb (String.eqb s "")); cbn; eauto. }
  destruct (Hlabel ("参数" +:+ index_toString (index + 1))) as [text1 ->].
  destruct (Hlabel ("param" +:+ index_toString index)) as [text2 ->].
  cbn. destruct (String.eqb t "bool"); reflexivity.
Qed.

Lemma Array_map_from_param_control inputs :
  List.Forall (fun input => typed input = true) inputs ->
  forall index,
    exists controls,
      Array_map_from param_control index inputs = Returns controls /\
      List.Forall2 built_for inputs controls.
Proof.
  induction 1 as [|input inputs Hinput _ IH]; intros index; cbn.
  - exists []. split; [reflexivity | constructor].
  - destruct (param_control_typed input index Hinput) as (t & Ht & ->).
    destruct (IH (S index)) as (controls & -> & Hall). cbn.
    eexists. split; [reflexivity|]. constructor; [|exact Hall].
    exists t. repeat split; assumption || reflexivity.
Qed.

Lemma collect_enter inputs controls :
  List.Forall2 built_for inputs controls ->
  forall texts amount_box,
    amount_box = [] \/ amount_box = [mk_control "eth-value" None ""] ->
    length texts = length (controls ++ amount_box) ->
    List.Forall (fun text => is_ascii_string text = true) texts ->
    exists params,
      collect (enter texts (controls ++ amount_box)) = Returns params /\
      List.Forall2
        (fun input p =>
           exists t,
             field input "type" = VString t /\
             ContractInteractor.convert (VString t) p = Returns p /\
             p <> VUndefined /\
             match p with
             | VArray xs => xs <> []
             | _ => True
             end)
        inputs params.
Proof.
  induction 1 as [|input c inputs controls Hc _ IH]; intros texts amount_box Hbox Hlen Hascii.
  - exists []. split; [|constructor]. cbn [app].
    destruct Hbox as [->| ->]; destruct texts as [|text texts]; try reflexivity;
      cbn in Hlen; try discriminate.
    destruct texts; [reflexivity | discriminate].
  - destruct texts as [|text texts]; [discriminate|].
    cbn in Hlen. inversion Hlen as [Hlen']. inversion Hascii; subst.
    destruct Hc as (t & Ht & Hd & Hid).
    cbn [app enter collect id]. rewrite Hid.
    destruct (collected_shape (mk_control (id c) (dataset_type c) text) t)
      as (p & -> & Hconv & Hdef & Hne); [assumption | exact Hd |].
    destruct (IH texts amount_box Hbox Hlen') as (params & -> & Hall); [assumption|].
    cbn. eexists. split; [reflexivity|]. constructor; [|exact Hall].
    exists t. repeat split; assumption.
Qed.

(** X30.  From the ABI entry to the call: for a function entry whose inputs are
    typed, [renderFunctionParams] builds one control per input, followed by
    the amount box when the function is payable; whatever is typed into
    them, [collectFunctionParams] delivers one parameter per input, the
    amount box left out, each array with at least one element; and
    [_processParams] hands these parameters on as they are, without an
    exception. *)
Theorem form_round_trip (functionDetails : Js.value) (inputs : list Js.value) :
  readable functionDetails = true ->
  truthy functionDetails = true ->
  field functionDetails "inputs" = VArray inputs ->
  inputs <> [] ->
  List.Forall (fun input => typed input = true) inputs ->
  exists form,
    renderFunctionParams functionDetails = Returns (Some form) /\
    length form = length inputs + (if pays functionDetails then 1 else 0) /\
    forall texts,
      length texts = length form ->
      List.Forall (fun text => is_ascii_string text = true) texts ->
      exists params,
        collectFunctionParams (Some (enter texts form)) = Returns params /\
        length params = length inputs /\
        List.Forall (fun p => match p with
                              | VArray xs => xs <> []
                              | _ => True
                              end) params /\
        ContractInteractor._processParams (VArray inputs) params
        = Returns params.
Proof.
  intros Hread Htruthy Hinputs Hne Htyped.
  destruct (Array_map_from_param_control inputs Htyped 0)
    as (controls & Hcontrols & Hbuilt).
  set (amount_box := if pays functionDetails
                then [mk_control "eth-value" None ""] else []).
  exists (controls ++ amount_box). split; [|split].
  - unfold renderFunctionParams. rewrite Htruthy. cbn [negb].
    rewrite (js_get_readable functionDetails "inputs" Hread eq_refl), Hinputs.
    cbn [mbind outcome_bind truthy negb].
    destruct inputs as [|input inputs]; [contradiction|].
    unfold Array_map. rewrite Hcontrols. cbn [mbind outcome_bind].
    rewrite (js_get_readable functionDetails "stateMutability" Hread eq_refl),
            (js_get_readable functionDetails "payable" Hread eq_refl).
    cbn [mbind outcome_bind]. subst amount_box. unfold pays.
    destruct (strict_eq_string (field functionDetails "stateMutability")
                "payable"); reflexivity.
  - rewrite length_app, <- (List.Forall2_length Hbuilt). subst amount_box.
    destruct (pays functionDetails); reflexivity.
  - intros texts Hlen Hascii.
    assert (Hbox : amount_box = [] \/ amount_box = [mk_control "eth-value" None ""])
      by (subst amount_box; destruct (pays functionDetails); auto).
    destruct (collect_enter inputs controls Hbuilt texts amount_box Hbox Hlen Hascii)
      as (params & Hcollect & Hall).
    exists params. split; [exact Hcollect|].
    pose proof (List.Forall2_length Hall) as Hparams.
    split; [now symmetry|]. split.
    + apply List.Forall_forall. intros p Hp.
      apply list_elem_of_In, list_elem_of_lookup in Hp as [k Hk].
      destruct (inputs !! k) as [input|] eqn:Hinput.
      * destruct (Forall2_lookup_lr _ _ _ _ _ _ Hall Hinput Hk)
          as (t & _ & _ & _ & Hshape). exact Hshape.
      * apply lookup_ge_None in Hinput. apply lookup_lt_Some in Hk. lia.
    + unfold ContractInteractor._processParams. cbn [truthy negb].
      unfold Array_map. apply Array_map_from_intro; [now symmetry|].
      intros k input p Hinput Hp. cbn [Nat.add].
      rewrite (nth_lookup_value params k VUndefined p Hp).
      destruct (Forall2_lookup_lr _ _ _ _ _ _ Hall Hinput Hp)
        as (t & Ht & Hconv & Hdef & _).
      assert (Hin : typed input = true).
      { rewrite List.Forall_forall in Htyped. apply Htyped.
        apply list_elem_of_In, list_elem_of_lookup. eauto. }
      assert (Hreadable : readable input = true).
      { unfold typed, named in Hin. apply andb_true_iff in Hin as [Hin _].
        now apply andb_true_iff in Hin as [Hin _]. }
      destruct p; [contradiction | ..];
        rewrite (js_get_readable input "type" Hreadable eq_refl), Ht;
        cbn [mbind outcome_bind]; exact Hconv.
Qed.

Lemma form_round_trip_witness :
  exists form,
    renderFunctionParams (nth 2 sample_abi VNull) = Returns (Some form) /\
    collectFunctionParams (Some (enter [" 0x1 "; "7"] form))
    = Returns [VString "0x1"; VString "7"].
Proof.
  assert (Hne : field (nth 2 sample_abi VNull) "inputs" <> VArray [])
    by discriminate.
  destruct (form_round_trip (nth 2 sample_abi VNull)
              [object [("name", VString "to"); ("type", VString "address")];
               object [("name", VString "amount"); ("type", VString "uint256")]]
              eq_refl eq_refl eq_refl ltac:(discriminate)
              ltac:(repeat constructor))
    as (form & Hform & _).
  exists form. split; [exact Hform|].
  cbn in Hform. inversion Hform; subst. reflexivity.
Defined.

End FormCoverage.
